(** * Process-Mining-Tool: session/graph builder and metrics analyzer

    A shallow embedding of
      - [internal/domain/metrics/metrics.go] (package [metrics]: the metric
        catalog, the six detector routines, the regression helper, [Analyze]),
      - package [domain] (the [GraphBuilder]: [parseTime], [BuildGraph],
        [processEvent], [finalizeGraph], [processSession],
        [GetProcessInstances], [ClearGraph]),
      - package [service] ([GraphService.GetMetricsReport]),
    followed by the theorems proved about them.

    Conventions.
      - [float64] is Rocq's primitive binary64 [float]; every Go operation
        [+ - * /] and comparison is the corresponding IEEE-754 primitive, each
        rounded on its own.
      - [int] is [Z]; lengths are [nat] and are injected with [Z.of_nat].
      - a Go [string] is a [string] (a sequence of bytes).
      - a Go [map[string]V] is a [gmap string V].  The order in which a
        [range] statement visits a map is not specified by Go; it is supplied
        by the [Host] (field [range]), separately for every [range] statement
        and every time the statement is reached.
      - a pointer to a node or an edge owned by the builder is the key under
        which [nodeMap]/[edgeMap] holds it (objects are created by
        [getNode]/[getEdge] only and are never replaced), so that a slice of
        pointers sees later updates of the objects it points to.
      - the texts built with [fmt.Sprintf]/[fmt.Errorf] are kept as the
        format's arguments ([Text], [BuildError], the edge label) and are not
        rendered. *)

From Stdlib Require Import ZArith List Permutation Ascii.
From Stdlib Require Import Floats.
From stdpp Require Import gmap strings list sorting.

Local Open Scope Z_scope.

(* Decimal constants of the Go sources denote the nearest binary64 float. *)
#[local] Set Warnings "-inexact-float".

(** ** [float64] helpers: conversions and [math.Round] *)

Module F64.

(** [float64(z)] for an [int] of magnitude below [2^63]. *)
Definition of_Z (z : Z) : float :=
  if z <? 0 then PrimFloat.opp (PrimFloat.of_uint63 (Uint63.of_Z (- z)))
  else PrimFloat.of_uint63 (Uint63.of_Z z).

Definition of_nat (n : nat) : float := of_Z (Z.of_nat n).

(** [int(x)]: the integer part of a finite [x] (truncation towards zero). *)
Definition to_Z (x : float) : Z :=
  match Prim2SF x with
  | S754_finite s m e =>
      let a := if 0 <=? e then Z.shiftl (Z.pos m) e else Z.shiftr (Z.pos m) (- e) in
      if s then - a else a
  | _ => 0
  end.

Definition to_nat (x : float) : nat := Z.to_nat (to_Z x).

Definition signbit (x : float) : bool :=
  match Prim2SF x with
  | S754_zero s | S754_infinity s | S754_finite s _ _ => s
  | S754_nan => false
  end.

(** [math.Trunc]: zeroes, infinities, NaN and floats without a fractional
    part are returned as they are; the sign is kept. *)
Definition Trunc (x : float) : float :=
  match Prim2SF x with
  | S754_finite s m e =>
      if 0 <=? e then x
      else
        let t := PrimFloat.of_uint63 (Uint63.of_Z (Z.shiftr (Z.pos m) (- e))) in
        if s then PrimFloat.opp t else t
  | _ => x
  end.

(** [math.Round]: nearest integer, halves away from zero, as documented:
    [t := Trunc(x); if Abs(x-t) >= 0.5 { return t + Copysign(1, x) }; return t]. *)
Definition Round (x : float) : float :=
  let t := Trunc x in
  if PrimFloat.leb 0.5%float (PrimFloat.abs (PrimFloat.sub x t))
  then PrimFloat.add t (if signbit x then (-1)%float else 1%float)
  else t.

(** [math.Round(x*10) / 10], the rounding to one decimal used by the analyzer. *)
Definition round1 (x : float) : float :=
  PrimFloat.div (Round (PrimFloat.mul x 10%float)) 10%float.

(** [math.Pi] as a [float64]. *)
Definition Pi : float := 0x1.921fb54442d18p+1%float.

(** A running [+=] over a slice, starting from the zero value. *)
Definition sum (l : list float) : float := fold_left PrimFloat.add l 0%float.

Definition isNaN (x : float) : bool := negb (PrimFloat.eqb x x).

(** The order of [sort.Float64s]: [x < y || (isNaN(x) && !isNaN(y))]. *)
Definition less (x y : float) : bool :=
  PrimFloat.ltb x y || (isNaN x && negb (isNaN y)).

Fixpoint insert (x : float) (l : list float) : list float :=
  match l with
  | [] => [x]
  | y :: l' => if less y x then y :: insert x l' else x :: l
  end.

(** [sort.Float64s]: the slice in increasing order.  The values sorted by the
    analyzer are seconds of a [time.Duration]; among those, floats that
    compare equal are the same float, so the sorted slice does not depend on
    the sorting algorithm. *)
Definition sort_Float64s (l : list float) : list float :=
  fold_right insert [] l.

End F64.

(** ** Package [time]: instants and durations *)

Module time.

(** An instant, in nanoseconds since the zero [Time]
    (January 1, year 1, 00:00:00 UTC). *)
Definition Time : Type := Z.

(** [time.Duration]: an [int64] count of nanoseconds. *)
Definition Duration : Type := Z.

Definition minDuration : Duration := - 2 ^ 63.
Definition maxDuration : Duration := 2 ^ 63 - 1.

Definition IsZero (t : Time) : bool := t =? 0.
Definition Before (t u : Time) : bool := t <? u.

(** [t.Sub(u)]: [t - u], or the extreme duration if that does not fit. *)
Definition Sub (t u : Time) : Duration :=
  let d := t - u in
  if d <? minDuration then minDuration
  else if maxDuration <? d then maxDuration
  else d.

(** [d.Seconds()]: [float64(d / Second) + float64(d % Second) / 1e9]. *)
Definition Seconds (d : Duration) : float :=
  PrimFloat.add (F64.of_Z (Z.quot d 1000000000))
                (PrimFloat.div (F64.of_Z (Z.rem d 1000000000)) 1e9%float).

Definition Second : Duration := 1000000000.

End time.

(** ** The host: what the Go runtime and standard library supply *)

(** [time.Parse], [math.Atan] and [strings.ToLower] belong to Go's standard
    library and the iteration order of maps to its runtime: the embedding
    takes them from a [Host].  [range line visit m] is the sequence in which
    the [range] statement at source line [line], reached for the
    [visit]-th time, goes through the entries of [m]. *)
Class Host : Type := {
  time_Parse : string → string → option time.Time;
  math_Atan : float → float;
  strings_ToLower : string → string;
  range : ∀ {V : Type}, N → nat → gmap string V → list (string * V);
  range_perm : ∀ (V : Type) (line : N) (visit : nat) (m : gmap string V),
    range line visit m ≡ₚ map_to_list m
}.

(** ** Package [metrics] *)

Module metrics.

(** One event of the process log. *)
Record Event := {
  SessionID : string;
  Timestamp : time.Time;
  Description : string;
  Result : string
}.

(** The events of one process instance, in order. *)
Record ProcessInstance := {
  ID : string;
  Events : list Event
}.

Record MetricDefinition := {
  Name : string;
  Category : string;
  Calculation : string;
  Impact : string;
  Threshold : float
}.

(** The arguments of the [fmt.Sprintf] call that builds an occurrence's
    [Details]; [NoText] is the empty string. *)
Inductive Text :=
| NoText
| StepText (i : nat) (desc : string)
| PingPongText (i : nat) (prev cur : string)
| ReturnText (i : nat) (desc : string)
| ReworkText (desc : string) (times : nat)
| StageText (desc : string) (seconds avg : float)
| StageSlopeText (slope : float)
| InstanceSlopeText (slope : float)
| ManualText (desc : string) (percentage seconds : float)
| PathsText (unique total : nat)
| CompletedText (completed total : nat)
| ErrorsText (errors successes : nat).

Record MetricOccurrence := {
  InstanceID : string;
  Value : float;
  WastedDurationSeconds : float;
  Details : Text
}.

(** The aggregate of one metric; [Def] is the Go field [Definition]. *)
Record InefficiencyMetric := {
  Def : MetricDefinition;
  Occurrences : list MetricOccurrence;
  TotalValue : float;
  TotalWastedDuration : float;
  Count : Z;
  Exceeded : bool
}.

(** The report.  [MostFrequentActivities] and [MostFrequentPaths] (two top-5
    lists ordered by [sort.Slice]) are left out; the four [StageDuration...]
    fields are never assigned by [Analyze] and keep their zero values. *)
Record MetricsReport := {
  TotalProcessInstances : Z;
  TotalEvents : Z;
  AverageProcessDuration : float;
  MedianProcessDuration : float;
  StageDurationAverage : float;
  StageDurationIQR : float;
  AnomalousStageCount : Z;
  StageDurationTrendSlope : float;
  Metrics : list InefficiencyMetric
}.

(** An element of the analyzer's [rawMetrics] slices. *)
Record rawMetric := {
  metricType : string;
  occurrence : MetricOccurrence
}.

#[export] Instance Event_inhabited : Inhabited Event :=
  populate {| SessionID := ""; Timestamp := 0; Description := ""; Result := "" |}.
#[export] Instance float_inhabited : Inhabited float := populate 0%float.

(** [initMetricDefinitions]: the metric catalog. *)
Definition initMetricDefinitions : gmap string MetricDefinition :=
  list_to_map [
    ("Self-Loop",
     {| Name := "Самозацикливание";
        Category := "Зацикливание";
        Calculation := "Обнаружение повторения одной операции подряд (A→A)";
        Impact := "Указывает на технические ошибки, переадресацию задач или дублирование в логе. Приводит к росту длительности.";
        Threshold := 0.0 |});
    ("Return to Previous Stage",
     {| Name := "Возврат на предыдущий этап";
        Category := "Зацикливание";
        Calculation := "Обнаружение возврата к операции через одну (A→B→A)";
        Impact := "Возврат на доработку. Указывает на переделки или ошибки в процессе.";
        Threshold := 0.0 |});
    ("Ping-Pong",
     {| Name := "Пинг-понг";
        Category := "Зацикливание";
        Calculation := "Обнаружение повторяющегося чередования двух операций (A→B→A→B)";
        Impact := "Неэффективное взаимодействие между этапами или ошибки маршрутизации.";
        Threshold := 0.0 |});
    ("Return to Start",
     {| Name := "Возврат к началу";
        Category := "Зацикливание";
        Calculation := "Обнаружение возврата к первой операции процесса";
        Impact := "Перезапуск процесса из-за критических ошибок или несоответствия условий.";
        Threshold := 0.0 |});
    ("Rework",
     {| Name := "Переделка";
        Category := "Зацикливание";
        Calculation := "Подсчёт повторений произвольной операции в экземпляре";
        Impact := "Необходимость исправления ошибок или доработок, увеличение времени выполнения.";
        Threshold := 0.0 |});
    ("Anomalously Long Stage",
     {| Name := "Аномально долгий этап";
        Category := "Длительность";
        Calculation := "Выявление выбросов длительности этапов через межквартильный размах (IQR > Q3 + 1.5*IQR)";
        Impact := "Узкие места или проблемы производительности на конкретных этапах.";
        Threshold := 0.0 |});
    ("Increasing Stage Duration Trend",
     {| Name := "Рост длительности этапа";
        Category := "Длительность";
        Calculation := "Линейная регрессия длительности этапов во времени (положительный наклон)";
        Impact := "Деградация производительности или рост сложности задач со временем.";
        Threshold := 0.0 |});
    ("Increasing Process Instance Duration Trend",
     {| Name := "Рост длительности экземпляра";
        Category := "Длительность";
        Calculation := "Линейная регрессия длительности экземпляров во времени";
        Impact := "Общее ухудшение производительности процесса со временем.";
        Threshold := 0.0 |});
    ("Manual/Unlogged Stage",
     {| Name := "Ручной/незарегистрированный этап";
        Category := "Логирование";
        Calculation := "Поиск этапов, занимающих >80% времени экземпляра";
        Impact := "Отсутствие логирования делает невозможной оценку процесса. Потенциальные ручные операции.";
        Threshold := 80.0 |});
    ("High Process Variability",
     {| Name := "Высокая вариативность процесса";
        Category := "Сложность";
        Calculation := "Отношение уникальных путей к общему числу экземпляров (>80%)";
        Impact := "Каждый путь уникален — невозможность стандартизации, визуализации и оптимизации.";
        Threshold := 80.0 |});
    ("Low Process Completion Rate",
     {| Name := "Низкий процент завершения";
        Category := "Завершённость";
        Calculation := "Доля экземпляров, завершивших полный цикл (начало→конец)";
        Impact := "Процесс прерывается или не доходит до конца, что снижает эффективность.";
        Threshold := 100.0 |});
    ("High Error Rate",
     {| Name := "Высокий процент ошибок";
        Category := "Качество";
        Calculation := "Сравнение количества ошибок с успешными экземплярами";
        Impact := "Нестабильность процесса, превышение ошибок над успешными выполнениями.";
        Threshold := 0.0 |})
  ].

(** [calculateLinearRegression]: least squares over the points [(i, data[i])]. *)
Definition regressionSums (data : list float) : float * float * float * float :=
  fold_left
    (fun '(sumX, sumY, sumXY, sumX2) '(i, y) =>
       let x := F64.of_nat i in
       ((sumX + x)%float, (sumY + y)%float, (sumXY + x * y)%float, (sumX2 + x * x)%float))
    (imap (fun i y => (i, y)) data)
    (0%float, 0%float, 0%float, 0%float).

Definition calculateLinearRegression (data : list float) : float * float :=
  let '(sumX, sumY, sumXY, sumX2) := regressionSums data in
  let n := F64.of_nat (length data) in
  if PrimFloat.eqb n 0%float then (0%float, 0%float)
  else
    let slope := ((n * sumXY - sumX * sumY) / (n * sumX2 - sumX * sumX))%float in
    let intercept := ((sumY - slope * sumX) / n)%float in
    (slope, intercept).

(** [strings.Contains]. *)
Fixpoint hasPrefix (p s : string) : bool :=
  match p, s with
  | EmptyString, _ => true
  | String a p', String b s' => Ascii.eqb a b && hasPrefix p' s'
  | String _ _, EmptyString => false
  end.

Fixpoint Contains (s substr : string) : bool :=
  hasPrefix substr s ||
  match s with
  | EmptyString => false
  | String _ s' => Contains s' substr
  end.

(** The byte slice [s[:n]]. *)
Fixpoint takeBytes (n : nat) (s : string) : string :=
  match n, s with
  | S n', String a s' => String a (takeBytes n' s')
  | _, _ => EmptyString
  end.

Definition mkRaw (key : string) (id : string) (v w : float) (d : Text) : rawMetric :=
  {| metricType := key;
     occurrence := {| InstanceID := id; Value := v; WastedDurationSeconds := w; Details := d |} |}.

(** [b.Timestamp.Sub(a.Timestamp).Seconds()]. *)
Definition elapsed (a b : Event) : float :=
  time.Seconds (time.Sub (Timestamp b) (Timestamp a)).

Section Analyzer.
Context `{Host}.

(** *** [collectLoopingMetrics] *)

Definition selfLoops (instance : ProcessInstance) : list rawMetric :=
  let events := Events instance in
  flat_map (fun i =>
      if String.eqb (Description (events !!! i)) (Description (events !!! (i - 1)%nat))
      then [mkRaw "Self-Loop" (ID instance) 1.0
              (elapsed (events !!! (i - 1)%nat) (events !!! i))
              (StepText i (Description (events !!! i)))]
      else [])
    (seq 1 (length events - 1)).

Definition returnsToPrevious (instance : ProcessInstance) : list rawMetric :=
  let events := Events instance in
  flat_map (fun i =>
      if String.eqb (Description (events !!! i)) (Description (events !!! (i - 2)%nat))
      then [mkRaw "Return to Previous Stage" (ID instance) 1.0
              (elapsed (events !!! (i - 2)%nat) (events !!! i))
              (StepText i (Description (events !!! i)))]
      else [])
    (seq 2 (length events - 2)).

Definition pingPongs (instance : ProcessInstance) : list rawMetric :=
  let events := Events instance in
  flat_map (fun i =>
      if String.eqb (Description (events !!! i)) (Description (events !!! (i - 2)%nat))
         && String.eqb (Description (events !!! (i - 1)%nat)) (Description (events !!! (i - 3)%nat))
      then [mkRaw "Ping-Pong" (ID instance) 1.0
              (elapsed (events !!! (i - 3)%nat) (events !!! (i - 1)%nat))
              (PingPongText i (Description (events !!! (i - 1)%nat)) (Description (events !!! i)))]
      else [])
    (seq 3 (length events - 3)).

Definition returnsToStart (instance : ProcessInstance) : list rawMetric :=
  let events := Events instance in
  if (1 <? length events)%nat then
    let firstEvent := events !!! 0%nat in
    flat_map (fun i =>
        if String.eqb (Description (events !!! i)) (Description firstEvent)
        then [mkRaw "Return to Start" (ID instance) 1.0 0%float
                (ReturnText i (Description (events !!! i)))]
        else [])
      (seq 1 (length events - 1))
  else [].

(** [eventIndices]: for every description, the indices at which it occurs. *)
Definition eventIndices (events : list Event) : gmap string (list nat) :=
  fold_left
    (fun m '(i, event) => <[Description event := default [] (m !! Description event) ++ [i]]> m)
    (imap (fun i e => (i, e)) events) ∅.

Definition reworkWasted (events : list Event) (indices : list nat) : float :=
  fold_left
    (fun wastedDuration i =>
       let currentIndex := indices !!! i in
       if (currentIndex + 1 <? length events)%nat
       then (wastedDuration + elapsed (events !!! currentIndex) (events !!! (currentIndex + 1)%nat))%float
       else wastedDuration)
    (seq 0 (length indices - 1)) 0%float.

Definition reworks (visit : nat) (instance : ProcessInstance) : list rawMetric :=
  let events := Events instance in
  flat_map (fun '(desc, indices) =>
      if (1 <? length indices)%nat
      then [mkRaw "Rework" (ID instance) (F64.of_nat (length indices - 1))
              (reworkWasted events indices) (ReworkText desc (length indices))]
      else [])
    (range 434 visit (eventIndices events)).

Definition loopingOf (visit : nat) (instance : ProcessInstance) : list rawMetric :=
  if (length (Events instance) <? 2)%nat then []
  else selfLoops instance ++ returnsToPrevious instance ++ pingPongs instance
       ++ returnsToStart instance ++ reworks visit instance.

Definition collectLoopingMetrics (instances : gmap string ProcessInstance) : list rawMetric :=
  concat (imap (fun visit '(_, instance) => loopingOf visit instance) (range 348 0 instances)).

(** *** [collectDurationMetrics] *)

(** The durations one instance adds to [durations] (the first loop). *)
Definition stageDurationsOf (instance : ProcessInstance) : list float :=
  let events := Events instance in
  if (length events <? 2)%nat then []
  else
    flat_map (fun i =>
        let event1 := events !!! i in
        let event2 := events !!! (i + 1)%nat in
        if time.IsZero (Timestamp event1) || time.IsZero (Timestamp event2) then []
        else if time.Before (Timestamp event2) (Timestamp event1) then []
        else [time.Seconds (time.Sub (Timestamp event2) (Timestamp event1))])
      (seq 0 (length events - 1)).

Definition collectDurations (instances : gmap string ProcessInstance) : list float :=
  flat_map (fun '(_, instance) => stageDurationsOf instance) (range 477 0 instances).

(** The second scan: every consecutive pair of every instance against the
    outlier threshold. *)
Definition anomalousOf (outlierThreshold avgDuration : float) (instance : ProcessInstance)
  : list rawMetric :=
  let events := Events instance in
  flat_map (fun i =>
      let seconds := elapsed (events !!! i) (events !!! (i + 1)%nat) in
      if PrimFloat.ltb outlierThreshold seconds
      then [mkRaw "Anomalously Long Stage" (ID instance) seconds 0%float
              (StageText (Description (events !!! i)) seconds avgDuration)]
      else [])
    (seq 0 (length events - 1)).

Definition quartileIndex (n : nat) (q : float) : nat :=
  F64.to_nat (F64.Round (F64.of_nat (n - 1) * q)%float).

Definition outlierThresholdOf (sorted : list float) : float :=
  let q1 := sorted !!! quartileIndex (length sorted) 0.25%float in
  let q3 := sorted !!! quartileIndex (length sorted) 0.75%float in
  let iqr := (q3 - q1)%float in
  (q3 + 1.5 * iqr)%float.

Definition stageTrend (durations : list float) : list rawMetric :=
  let slope := fst (calculateLinearRegression durations) in
  let angleRadians := math_Atan slope in
  let angleDegrees := (angleRadians * 180 / F64.Pi)%float in
  if PrimFloat.ltb 5.0%float angleDegrees
  then [mkRaw "Increasing Stage Duration Trend" "ALL" slope 0%float (StageSlopeText slope)]
  else [].

Definition instanceDurationsOf (instances : gmap string ProcessInstance) : list float :=
  flat_map (fun '(_, instance) =>
      let events := Events instance in
      if (1 <? length events)%nat
      then [elapsed (events !!! 0%nat) (events !!! (length events - 1)%nat)]
      else [])
    (range 572 0 instances).

Definition instanceTrend (instanceDurations : list float) : list rawMetric :=
  if (1 <? length instanceDurations)%nat then
    let instanceSlope := fst (calculateLinearRegression instanceDurations) in
    if PrimFloat.ltb 0%float instanceSlope
    then [mkRaw "Increasing Process Instance Duration Trend" "ALL" instanceSlope 0%float
            (InstanceSlopeText instanceSlope)]
    else []
  else [].

(** [sort.Float64s(durations)] sorts the slice in place: after the anomaly
    block has run, [durations] is the sorted slice, and that is what the
    trend regression below it reads. *)
Definition collectDurationMetrics (instances : gmap string ProcessInstance) : list rawMetric :=
  let durations := collectDurations instances in
  if (length durations =? 0)%nat then []
  else
    let avgDuration := (F64.sum durations / F64.of_nat (length durations))%float in
    let '(durations, results) :=
      if (4 <=? length durations)%nat then
        let durations := F64.sort_Float64s durations in
        let outlierThreshold := outlierThresholdOf durations in
        (durations,
         flat_map (fun '(_, instance) => anomalousOf outlierThreshold avgDuration instance)
           (range 532 0 instances))
      else (durations, []) in
    results ++ stageTrend durations ++ instanceTrend (instanceDurationsOf instances).

(** *** [collectManualStageMetrics] *)

Definition manualStagesOf (instance : ProcessInstance) : list rawMetric :=
  let events := Events instance in
  if (length events <? 2)%nat then []
  else
    let totalInstanceDuration :=
      elapsed (events !!! 0%nat) (events !!! (length events - 1)%nat) in
    flat_map (fun i =>
        let stageDuration := elapsed (events !!! i) (events !!! (i + 1)%nat) in
        let percentage := (stageDuration / totalInstanceDuration * 100)%float in
        if PrimFloat.ltb 0%float totalInstanceDuration && PrimFloat.ltb 80.0%float percentage
        then [mkRaw "Manual/Unlogged Stage" (ID instance) (F64.round1 percentage) 0%float
                (ManualText (Description (events !!! i)) percentage stageDuration)]
        else [])
      (seq 0 (length events - 1)).

Definition collectManualStageMetrics (instances : gmap string ProcessInstance)
  : list rawMetric :=
  flat_map (fun '(_, instance) => manualStagesOf instance) (range 608 0 instances).

(** *** [collectComplexityMetrics] *)

(** The key of an instance's path: the descriptions, each followed by the
    three bytes of an arrow, without the last arrow. *)
Definition pathOf (instance : ProcessInstance) : string :=
  let path :=
    fold_left (fun path event => path +:+ Description event +:+ "→") (Events instance) "" in
  if (0 <? String.length path)%nat then takeBytes (String.length path - 3) path else path.

Definition uniquePaths (instances : gmap string ProcessInstance) : gset string :=
  list_to_set (map (fun '(_, instance) => pathOf instance) (range 655 0 instances)).

Definition collectComplexityMetrics (instances : gmap string ProcessInstance)
  : list rawMetric :=
  let totalInstances := size instances in
  if (totalInstances =? 0)%nat then []
  else
    let variability :=
      (F64.of_nat (size (uniquePaths instances)) / F64.of_nat totalInstances * 100)%float in
    if PrimFloat.ltb 80.0%float variability
    then [mkRaw "High Process Variability" "ALL" (F64.round1 variability) 0%float
            (PathsText (size (uniquePaths instances)) totalInstances)]
    else [].

(** *** [collectCompletionMetrics] *)

Definition isCompleted (instance : ProcessInstance) : bool :=
  let events := Events instance in
  if (length events <? 2)%nat then false
  else
    (1 <? length events)%nat
    && Contains (strings_ToLower (Description (events !!! 0%nat))) "начало"
    && Contains (strings_ToLower (Description (events !!! (length events - 1)%nat))) "конец".

Definition collectCompletionMetrics (instances : gmap string ProcessInstance)
  : list rawMetric :=
  let totalInstances := size instances in
  if (totalInstances =? 0)%nat then []
  else
    let completedInstances :=
      length (filter (fun kv => isCompleted kv.2 = true) (range 702 0 instances)) in
    let completionRate :=
      (F64.of_nat completedInstances / F64.of_nat totalInstances * 100)%float in
    if PrimFloat.ltb completionRate 100.0%float
    then [mkRaw "Low Process Completion Rate" "ALL" (F64.round1 completionRate) 0%float
            (CompletedText completedInstances totalInstances)]
    else [].

(** *** [collectErrorMetrics] *)

Definition hasError (instance : ProcessInstance) : bool :=
  existsb (fun event => String.eqb (Result event) "error") (Events instance).

Definition errorInstances (instances : gmap string ProcessInstance) : nat :=
  length (filter (fun kv => hasError kv.2 = true) (range 746 0 instances)).

Definition successInstances (instances : gmap string ProcessInstance) : nat :=
  length (filter (fun kv => hasError kv.2 = false) (range 746 0 instances)).

Definition collectErrorMetrics (instances : gmap string ProcessInstance) : list rawMetric :=
  if (successInstances instances <? errorInstances instances)%nat
  then [mkRaw "High Error Rate" "ALL" (F64.of_nat (errorInstances instances)) 0%float
          (ErrorsText (errorInstances instances) (successInstances instances))]
  else [].

(** *** [Analyze] *)

(** All detector outputs, in the order [Analyze] appends them. *)
Definition rawMetrics (instances : gmap string ProcessInstance) : list rawMetric :=
  collectLoopingMetrics instances ++ collectDurationMetrics instances
  ++ collectManualStageMetrics instances ++ collectComplexityMetrics instances
  ++ collectCompletionMetrics instances ++ collectErrorMetrics instances.

(** The first aggregation loop: one zeroed metric per catalog key. *)
Definition initAggregated (definitions : gmap string MetricDefinition)
  : gmap string InefficiencyMetric :=
  (fun def => {| Def := def; Occurrences := []; TotalValue := 0%float;
                 TotalWastedDuration := 0%float; Count := 0; Exceeded := false |})
  <$> definitions.

(** The body of the second aggregation loop. *)
Definition addOccurrence (aggregated : gmap string InefficiencyMetric) (raw : rawMetric)
  : gmap string InefficiencyMetric :=
  match aggregated !! metricType raw with
  | Some metric =>
      <[metricType raw :=
          {| Def := Def metric;
             Occurrences := Occurrences metric ++ [occurrence raw];
             TotalValue := (TotalValue metric + Value (occurrence raw))%float;
             TotalWastedDuration :=
               (TotalWastedDuration metric + WastedDurationSeconds (occurrence raw))%float;
             Count := Count metric + 1;
             Exceeded :=
               if PrimFloat.ltb (Threshold (Def metric)) (Value (occurrence raw))
               then true else Exceeded metric |}]> aggregated
  | None => aggregated
  end.

Definition aggregate (definitions : gmap string MetricDefinition) (raws : list rawMetric)
  : gmap string InefficiencyMetric :=
  fold_left addOccurrence raws (initAggregated definitions).

(** The last loop: the total is rounded to one decimal and the metric is
    copied into the report. *)
Definition finishMetric (metric : InefficiencyMetric) : InefficiencyMetric :=
  {| Def := Def metric;
     Occurrences := Occurrences metric;
     TotalValue := F64.round1 (TotalValue metric);
     TotalWastedDuration := TotalWastedDuration metric;
     Count := Count metric;
     Exceeded := Exceeded metric |}.

Definition processDurations (instances : gmap string ProcessInstance) : list float :=
  flat_map (fun '(_, instance) =>
      let events := Events instance in
      if (1 <? length events)%nat
      then [elapsed (events !!! 0%nat) (events !!! (length events - 1)%nat)]
      else [])
    (range 211 0 instances).

Definition medianOf (sorted : list float) : float :=
  let mid := (length sorted / 2)%nat in
  if (length sorted mod 2 =? 0)%nat
  then ((sorted !!! (mid - 1)%nat + sorted !!! mid) / 2)%float
  else sorted !!! mid.

Definition Analyze (definitions : gmap string MetricDefinition)
    (instances : gmap string ProcessInstance) : MetricsReport :=
  let totalEvents :=
    fold_left (fun total '(_, instance) => total + Z.of_nat (length (Events instance)))
      (range 204 0 instances) 0 in
  let durations := F64.sort_Float64s (processDurations instances) in
  {| TotalProcessInstances := Z.of_nat (size instances);
     TotalEvents := totalEvents;
     AverageProcessDuration :=
       if (0 <? length durations)%nat
       then (F64.sum durations / F64.of_nat (length durations))%float else 0.0%float;
     MedianProcessDuration :=
       if (0 <? length durations)%nat then medianOf durations else 0.0%float;
     StageDurationAverage := 0%float;
     StageDurationIQR := 0%float;
     AnomalousStageCount := 0;
     StageDurationTrendSlope := 0%float;
     Metrics :=
       map (fun '(_, metric) => finishMetric metric)
         (range 330 0 (aggregate definitions (rawMetrics instances))) |}.

End Analyzer.

(** [NewAnalyzer().Analyze]: the analyzer always carries the built-in catalog. *)
Definition AnalyzeWithCatalog `{Host} (instances : gmap string ProcessInstance)
  : MetricsReport :=
  Analyze initMetricDefinitions instances.

End metrics.

(** ** Package [domain]: the graph builder *)

Module domain.

Module Node.
Record t := {
  ID : string;
  Label : string;
  Count : Z;
  Total : Z;
  Color : string
}.
End Node.

(** [Label] holds the arguments of [Sprintf("%d\n%.2f sec avg", ...)], or
    [None] for the empty string. *)
Module Edge.
Record t := {
  From : string;
  To : string;
  Count : Z;
  AvgDuration : float;
  Label : option (Z * float);
  Style : string
}.
End Edge.

Module Event.
Record t := {
  ID : string;
  SessionID : string;
  Timestamp : time.Time;
  Desc : string
}.
End Event.

Record Session := {
  Events : list Event.t
}.

(** A [*Node] held by [Graph.Nodes]: a node owned by [nodeMap] (named by its
    key), or one of the boundary nodes, which no map holds and nothing
    updates. *)
Inductive NodeRef :=
| OwnedNode (key : string)
| BoundaryNode (node : Node.t).

(** [Edges] holds [*Edge]s, every one owned by [edgeMap]: the keys. *)
Record Graph := {
  Nodes : list NodeRef;
  Edges : list string
}.

Record GraphBuilder := {
  graph : Graph;
  nodeMap : gmap string Node.t;
  edgeMap : gmap string Edge.t;
  sessionMap : gmap string Session
}.

Inductive BuildError :=
| TooFewColumns (record : list string)
| UnknownTimeFormat (timeStr : string).

Definition NewGraphBuilder : GraphBuilder :=
  {| graph := {| Nodes := []; Edges := [] |};
     nodeMap := ∅; edgeMap := ∅; sessionMap := ∅ |}.

Definition ClearGraph (gb : GraphBuilder) : GraphBuilder :=
  {| graph := {| Nodes := []; Edges := [] |};
     nodeMap := ∅; edgeMap := ∅; sessionMap := ∅ |}.

(** Modelled from the spec: [infrastructure.CSVReader.ReadAndProcess] is not
    among the sources.  The CSV collaborator delivers a finite sequence of
    string-field records; each is handed to the callback in order, and the
    first error stops the ingest and is returned to the caller.  Errors of
    the reader itself (I/O, CSV syntax) are outside the model: [records] is
    what a reader that does not fail delivers. *)
Fixpoint ReadAndProcess {S E : Type} (records : list (list string))
    (process : list string → S → S * option E) (s : S) : S * option E :=
  match records with
  | [] => (s, None)
  | record :: rest =>
      match process record s with
      | (s', None) => ReadAndProcess rest process s'
      | (s', Some err) => (s', Some err)
      end
  end.

Definition getNode (desc : string) (nodeMap : gmap string Node.t) : Node.t :=
  default {| Node.ID := desc; Node.Label := desc; Node.Count := 0; Node.Total := 0;
             Node.Color := "blue" |}
          (nodeMap !! desc).

Definition getEdge (key from to : string) (edgeMap : gmap string Edge.t) : Edge.t :=
  default {| Edge.From := from; Edge.To := to; Edge.Count := 0;
             Edge.AvgDuration := 0%float; Edge.Label := None; Edge.Style := "" |}
          (edgeMap !! key).

Definition processEvent (event : Event.t) (gb : GraphBuilder) : GraphBuilder :=
  let session := default {| Events := [] |} (sessionMap gb !! Event.SessionID event) in
  {| graph := graph gb; nodeMap := nodeMap gb; edgeMap := edgeMap gb;
     sessionMap :=
       <[Event.SessionID event := {| Events := Events session ++ [event] |}]> (sessionMap gb) |}.

(** [node := gb.getNode(desc); node.Count++; node.Total++]. *)
Definition countNode (nodeMap : gmap string Node.t) (event : Event.t) : gmap string Node.t :=
  let node := getNode (Event.Desc event) nodeMap in
  <[Event.Desc event :=
      {| Node.ID := Node.ID node; Node.Label := Node.Label node;
         Node.Count := Node.Count node + 1; Node.Total := Node.Total node + 1;
         Node.Color := Node.Color node |}]> nodeMap.

(** One step of the transition loop of [processSession]. *)
Definition countTransition (edgeMap : gmap string Edge.t) (prevEvent currEvent : Event.t)
  : gmap string Edge.t :=
  let duration :=
    time.Seconds (time.Sub (Event.Timestamp currEvent) (Event.Timestamp prevEvent)) in
  let key := Event.Desc prevEvent +:+ "_" +:+ Event.Desc currEvent in
  let edge := getEdge key (Event.Desc prevEvent) (Event.Desc currEvent) edgeMap in
  let count := Edge.Count edge + 1 in
  <[key :=
      {| Edge.From := Edge.From edge; Edge.To := Edge.To edge;
         Edge.Count := count;
         Edge.AvgDuration :=
           ((Edge.AvgDuration edge * F64.of_Z (count - 1) + duration) / F64.of_Z count)%float;
         Edge.Label := Edge.Label edge; Edge.Style := Edge.Style edge |}]> edgeMap.

Fixpoint countTransitions (edgeMap : gmap string Edge.t) (prevEvent : Event.t)
    (rest : list Event.t) : gmap string Edge.t :=
  match rest with
  | [] => edgeMap
  | currEvent :: rest' =>
      countTransitions (countTransition edgeMap prevEvent currEvent) currEvent rest'
  end.

Definition processSession (gb : GraphBuilder) (session : Session) : GraphBuilder :=
  match Events session with
  | [] => gb
  | first :: rest =>
      {| graph := graph gb;
         nodeMap := fold_left countNode (Events session) (nodeMap gb);
         edgeMap := countTransitions (edgeMap gb) first rest;
         sessionMap := sessionMap gb |}
  end.

(** [edge := gb.getEdge(key, from, to); edge.Count++; edge.Style = "dashed"],
    and the edge is appended to the graph if its count is now 1. *)
Definition boundaryEdge (key from to : string) (st : gmap string Edge.t * list string)
  : gmap string Edge.t * list string :=
  let '(edgeMap, edges) := st in
  let edge := getEdge key from to edgeMap in
  let count := Edge.Count edge + 1 in
  (<[key :=
       {| Edge.From := Edge.From edge; Edge.To := Edge.To edge; Edge.Count := count;
          Edge.AvgDuration := Edge.AvgDuration edge; Edge.Label := Edge.Label edge;
          Edge.Style := "dashed" |}]> edgeMap,
   if count =? 1 then edges ++ [key] else edges).

Definition boundaryEdges (st : gmap string Edge.t * list string) (session : Session)
  : gmap string Edge.t * list string :=
  match Events session with
  | [] => st
  | firstEvent :: _ =>
      let lastEvent := List.last (Events session) firstEvent in
      boundaryEdge (Event.Desc lastEvent +:+ "_end") (Event.Desc lastEvent) "end"
        (boundaryEdge ("start_" +:+ Event.Desc firstEvent) "start" (Event.Desc firstEvent) st)
  end.

Definition labelEdge (edge : Edge.t) : Edge.t :=
  {| Edge.From := Edge.From edge; Edge.To := Edge.To edge; Edge.Count := Edge.Count edge;
     Edge.AvgDuration := Edge.AvgDuration edge;
     Edge.Label := Some (Edge.Count edge, Edge.AvgDuration edge);
     Edge.Style := Edge.Style edge |}.

Definition boundaryNode (id label color : string) (sessions : nat) : NodeRef :=
  BoundaryNode {| Node.ID := id; Node.Label := label; Node.Count := Z.of_nat sessions;
                  Node.Total := Z.of_nat sessions; Node.Color := color |}.

Section Builder.
Context `{Host}.

Definition formats : list string :=
  [ "2006-01-02T15:04:05Z07:00";   (* time.RFC3339 *)
    "2006-01-02 15:04:05";
    "02.01.2006 15:04:05";
    "02.01.2006 15:04";
    "2006-01-02T15:04:05Z07:00" ].

(** The loop of [parseTime]: the first layout that parses decides. *)
Fixpoint tryFormats (formats : list string) (timeStr : string) : option time.Time :=
  match formats with
  | [] => None
  | format :: rest =>
      match time_Parse format timeStr with
      | Some t => Some t
      | None => tryFormats rest timeStr
      end
  end.

Definition parseTime (timeStr : string) : BuildError + time.Time :=
  match tryFormats formats timeStr with
  | Some t => inr t
  | None => inl (UnknownTimeFormat timeStr)
  end.

(** The callback [BuildGraph] passes to the reader. *)
Definition onRecord (record : list string) (gb : GraphBuilder)
  : GraphBuilder * option BuildError :=
  if (length record <? 3)%nat then (gb, Some (TooFewColumns record))
  else
    match parseTime (record !!! 1%nat) with
    | inl err => (gb, Some err)
    | inr timestamp =>
        (processEvent {| Event.ID := record !!! 0%nat; Event.SessionID := record !!! 0%nat;
                         Event.Timestamp := timestamp; Event.Desc := record !!! 2%nat |} gb,
         None)
    end.

Definition finalizeGraph (gb : GraphBuilder) : GraphBuilder :=
  let gb1 := fold_left (fun gb '(_, session) => processSession gb session)
               (range 945 0 (sessionMap gb)) gb in
  let nodes := Nodes (graph gb1) ++ map (fun kv => OwnedNode kv.1) (range 949 0 (nodeMap gb1)) in
  let edgeMap1 := labelEdge <$> edgeMap gb1 in
  let edges := Edges (graph gb1) ++ map fst (range 953 0 (edgeMap gb1)) in
  let sessions := size (sessionMap gb1) in
  let nodes := nodes ++ [boundaryNode "start" "Начало процесса" "green" sessions]
                     ++ [boundaryNode "end" "Конец" "red" sessions] in
  let '(edgeMap2, edges) :=
    fold_left (fun st '(_, session) => boundaryEdges st session)
      (range 978 0 (sessionMap gb1)) (edgeMap1, edges) in
  {| graph := {| Nodes := nodes; Edges := edges |};
     nodeMap := nodeMap gb1; edgeMap := edgeMap2; sessionMap := sessionMap gb1 |}.

(** [BuildGraph]: the builder after the call, and the error returned. *)
Definition BuildGraph (records : list (list string)) (gb : GraphBuilder)
  : GraphBuilder * option BuildError :=
  match ReadAndProcess records onRecord gb with
  | (gb', Some err) => (gb', Some err)
  | (gb', None) => (finalizeGraph gb', None)
  end.

(** What a reader of [GetGraph()] sees through the pointers. *)
Definition derefNode (gb : GraphBuilder) (ref : NodeRef) : option Node.t :=
  match ref with
  | OwnedNode key => nodeMap gb !! key
  | BoundaryNode node => Some node
  end.

Definition GetGraph (gb : GraphBuilder) : list Node.t * list Edge.t :=
  (omap (derefNode gb) (Nodes (graph gb)),
   omap (fun key => edgeMap gb !! key) (Edges (graph gb))).

Definition GetProcessInstances (gb : GraphBuilder) : list metrics.ProcessInstance :=
  map (fun '(_, session) =>
         {| metrics.ID := "";
            metrics.Events :=
              map (fun event =>
                     {| metrics.SessionID := Event.SessionID event;
                        metrics.Timestamp := Event.Timestamp event;
                        metrics.Description := Event.Desc event;
                        metrics.Result := "" |})
                  (Events session) |})
      (range 1039 0 (sessionMap gb)).

End Builder.

End domain.

(** ** Package [service] *)

Module service.

Section GraphService.
Context `{Host}.

(** The slice-to-map conversion of [GetMetricsReport]. *)
Definition processInstancesMap (processInstancesSlice : list metrics.ProcessInstance)
  : gmap string metrics.ProcessInstance :=
  fold_left
    (fun m domainPI =>
       <[metrics.ID domainPI :=
           {| metrics.ID := metrics.ID domainPI;
              metrics.Events :=
                map (fun event =>
                       {| metrics.SessionID := metrics.SessionID event;
                          metrics.Timestamp := metrics.Timestamp event;
                          metrics.Description := metrics.Description event;
                          metrics.Result := metrics.Result event |})
                    (metrics.Events domainPI) |}]> m)
    processInstancesSlice ∅.

Definition GetMetricsReport (gb : domain.GraphBuilder) : metrics.MetricsReport :=
  metrics.AnalyzeWithCatalog (processInstancesMap (domain.GetProcessInstances gb)).

End GraphService.

End service.

(** ** Package [presentation]: the data of the graph handler *)

Module presentation.

(** [ServeGraphData], as far as the graph goes: the handler writes, through
    the pointers of [graph.Edges], a label made of the edge's count and
    average into every edge, and encodes the nodes and the edges the
    pointers lead to once its loops are done.  The builder after the call,
    and the encoded nodes and edges ([AvgDuration] is not part of the
    encoding of an edge). *)
Definition ServeGraphData (gb : domain.GraphBuilder)
  : domain.GraphBuilder * (list domain.Node.t * list domain.Edge.t) :=
  let gb' :=
    {| domain.graph := domain.graph gb;
       domain.nodeMap := domain.nodeMap gb;
       domain.edgeMap :=
         fold_left (fun edgeMap key => alter domain.labelEdge key edgeMap)
           (domain.Edges (domain.graph gb)) (domain.edgeMap gb);
       domain.sessionMap := domain.sessionMap gb |} in
  (gb', domain.GetGraph gb').

End presentation.

(** ** [sort.Slice] and the two top-five lists of [Analyze] *)

(** What [sort.Slice] asks of its [less]: a strict weak ordering. *)
Definition strictWeakOrder {A : Type} (less : A → A → bool) : Prop :=
  (∀ a, less a a = false)
  ∧ (∀ a b c, less a b = true → less b c = true → less a c = true)
  ∧ (∀ a b c, less a b = false → less b c = false → less a c = false).

(** [sort.Slice] belongs to Go's standard library.  It rearranges the slice
    so that no element is less than one before it; it is not stable, so the
    order of elements neither of which is less than the other is not
    specified: the embedding takes the sort from a [Sorter]. *)
Class Sorter : Type := {
  sort_Slice : ∀ {A : Type}, (A → A → bool) → list A → list A;
  sort_Slice_perm : ∀ (A : Type) (less : A → A → bool) (l : list A),
    sort_Slice less l ≡ₚ l;
  sort_Slice_sorted : ∀ (A : Type) (less : A → A → bool) (l : list A),
    strictWeakOrder less → Sorted (fun a b => less b a = false) (sort_Slice less l)
}.

Module ActivityCount.
Record t := {
  Activity : string;
  Count : Z
}.
End ActivityCount.

Module PathCount.
Record t := {
  Path : list string;
  Count : Z
}.
End PathCount.

Module summary.

(** [strings.Join(elems, sep)]. *)
Fixpoint Join (elems : list string) (sep : string) : string :=
  match elems with
  | [] => ""
  | [elem] => elem
  | elem :: rest => elem +:+ sep +:+ Join rest sep
  end.

(** [fmt.Sprintf("%v", path)] for a slice of strings: the elements,
    separated by one space, between square brackets. *)
Definition pathKey (path : list string) : string := "[" +:+ Join path " " +:+ "]".

Section Summary.
Context `{Host} `{Sorter}.

(** [activityCounts[event.Description]++], for every event of every
    instance. *)
Definition countActivity (counts : gmap string Z) (event : metrics.Event) : gmap string Z :=
  <[metrics.Description event := default 0 (counts !! metrics.Description event) + 1]> counts.

Definition activityCounts (instances : gmap string metrics.ProcessInstance) : gmap string Z :=
  fold_left (fun counts '(_, instance) =>
               fold_left countActivity (metrics.Events instance) counts)
    (range 240 0 instances) ∅.

Definition sortedActivities (instances : gmap string metrics.ProcessInstance)
  : list ActivityCount.t :=
  sort_Slice (fun a b => ActivityCount.Count a >? ActivityCount.Count b)
    (map (fun '(activity, count) =>
            {| ActivityCount.Activity := activity; ActivityCount.Count := count |})
         (range 247 0 (activityCounts instances))).

(** [report.MostFrequentActivities]. *)
Definition MostFrequentActivities (instances : gmap string metrics.ProcessInstance)
  : list ActivityCount.t :=
  let sortedActivities := sortedActivities instances in
  if (5 <? length sortedActivities)%nat then take 5 sortedActivities else sortedActivities.

(** The loop that fills [pathCounts] and [pathMap]. *)
Definition countPath (st : gmap string Z * gmap string (list string))
    (instance : metrics.ProcessInstance) : gmap string Z * gmap string (list string) :=
  if (0 <? length (metrics.Events instance))%nat then
    let path := map metrics.Description (metrics.Events instance) in
    let key := pathKey path in
    (<[key := default 0 (st.1 !! key) + 1]> st.1, <[key := path]> st.2)
  else st.

Definition pathCounts (instances : gmap string metrics.ProcessInstance)
  : gmap string Z * gmap string (list string) :=
  fold_left (fun st '(_, instance) => countPath st instance) (range 263 0 instances) (∅, ∅).

Definition sortedPaths (instances : gmap string metrics.ProcessInstance)
  : list PathCount.t :=
  let '(pathCounts, pathMap) := pathCounts instances in
  sort_Slice (fun a b => PathCount.Count a >? PathCount.Count b)
    (map (fun '(key, count) =>
            {| PathCount.Path := default [] (pathMap !! key); PathCount.Count := count |})
         (range 276 0 pathCounts)).

(** [report.MostFrequentPaths]. *)
Definition MostFrequentPaths (instances : gmap string metrics.ProcessInstance)
  : list PathCount.t :=
  let sortedPaths := sortedPaths instances in
  if (5 <? length sortedPaths)%nat then take 5 sortedPaths else sortedPaths.

End Summary.

End summary.

(** A sorter to run the embedding with: stdpp's merge sort. *)
Module SampleSorter.

Definition total_of_strictWeakOrder {A : Type} (less : A → A → bool)
    (Hless : strictWeakOrder less) : Total (fun a b => less b a = false) :=
  fun a b =>
    match less b a as c return less b a = c → c = false ∨ less a b = false with
    | false => fun _ => or_introl eq_refl
    | true => fun Hba =>
        or_intror
          (match less a b as c return less a b = c → c = false with
           | false => fun _ => eq_refl
           | true => fun Hab =>
               eq_trans (eq_sym (proj1 (proj2 Hless) b a b Hba Hab)) (proj1 Hless b)
           end eq_refl)
    end eq_refl.

Definition notLess {A : Type} (less : A → A → bool) (a b : A) : Prop := less b a = false.

#[export] Instance notLess_dec {A : Type} (less : A → A → bool) (a b : A)
  : Decision (notLess less a b) := decide (less b a = false).

#[export] Instance sorter : Sorter := {|
  sort_Slice := fun A less l => merge_sort (notLess less) l;
  sort_Slice_perm := fun A less l => merge_sort_Permutation (notLess less) l;
  sort_Slice_sorted := fun A less l Hless =>
    @Sorted_merge_sort A (notLess less) _ (total_of_strictWeakOrder less Hless) l
|}.

End SampleSorter.

(** ** A sample host

    One concrete [Host], used to run the embedding on example logs.  Its
    clock reads the layout [2006-01-02 15:04:05] only (plain digits, no
    fractional seconds), its [ToLower] knows ASCII and the basic Cyrillic
    capitals, its arctangent is a rational approximation after range
    reduction, and it visits a map in the order of [map_to_list]. *)

Module SampleHost.

Definition digit (a : ascii) : option Z :=
  let n := nat_of_ascii a in
  if (48 <=? n)%nat && (n <=? 57)%nat then Some (Z.of_nat (n - 48)) else None.

Fixpoint number (acc : Z) (digits : list ascii) : option Z :=
  match digits with
  | [] => Some acc
  | a :: rest =>
      match digit a with
      | Some d => number (10 * acc + d) rest
      | None => None
      end
  end.

Definition isLeap (year : Z) : bool :=
  (year mod 4 =? 0) && (negb (year mod 100 =? 0) || (year mod 400 =? 0)).

Definition daysIn (year month : Z) : Z :=
  if month =? 2 then (if isLeap year then 29 else 28)
  else if (month =? 4) || (month =? 6) || (month =? 9) || (month =? 11) then 30
  else 31.

Definition daysBeforeYear (year : Z) : Z :=
  let y := year - 1 in 365 * y + y / 4 - y / 100 + y / 400.

Definition daysBeforeMonth (year month : Z) : Z :=
  fold_left (fun acc m => acc + daysIn year m) (map Z.of_nat (seq 1 (Z.to_nat (month - 1)))) 0.

Definition instant (year month day hour minute second : Z) : option time.Time :=
  if (1 <=? month) && (month <=? 12) && (1 <=? day) && (day <=? daysIn year month)
     && (hour <? 24) && (minute <? 60) && (second <? 60)
  then
    let days := daysBeforeYear year + daysBeforeMonth year month + (day - 1) in
    Some ((((days * 24 + hour) * 60 + minute) * 60 + second) * time.Second)
  else None.

Definition isByte (c : string) (a : ascii) : bool :=
  match c with
  | String b EmptyString => Ascii.eqb a b
  | _ => false
  end.

Definition parseDateTime (timeStr : string) : option time.Time :=
  match String.list_ascii_of_string timeStr with
  | [y1; y2; y3; y4; s1; m1; m2; s2; d1; d2; s3; h1; h2; s4; n1; n2; s5; c1; c2] =>
      if isByte "-" s1 && isByte "-" s2 && isByte " " s3 && isByte ":" s4 && isByte ":" s5 then
        match number 0 [y1; y2; y3; y4], number 0 [m1; m2], number 0 [d1; d2],
              number 0 [h1; h2], number 0 [n1; n2], number 0 [c1; c2] with
        | Some year, Some month, Some day, Some hour, Some minute, Some second =>
            instant year month day hour minute second
        | _, _, _, _, _, _ => None
        end
      else None
  | _ => None
  end.

Definition Parse (layout timeStr : string) : option time.Time :=
  if String.eqb layout "2006-01-02 15:04:05" then parseDateTime timeStr else None.

(** Lower-casing, byte by byte: [A-Z]; the two-byte encodings of the
    Cyrillic capitals U+0410..U+042F and of U+0401. *)
Fixpoint lower (bytes : list nat) : list nat :=
  match bytes with
  | 208 :: b :: rest =>
      if (144 <=? b)%nat && (b <=? 159)%nat then 208 :: (b + 32) :: lower rest
      else if (160 <=? b)%nat && (b <=? 175)%nat then 209 :: (b - 32) :: lower rest
      else if (b =? 129)%nat then 209 :: 145 :: lower rest
      else 208 :: b :: lower rest
  | a :: rest =>
      (if (65 <=? a)%nat && (a <=? 90)%nat then a + 32 else a) :: lower rest
  | [] => []
  end%nat.

Definition ToLower (s : string) : string :=
  String.string_of_list_ascii (map ascii_of_nat (lower (map nat_of_ascii (String.list_ascii_of_string s)))).

(** The arctangent of a number in [0, 0.66]: odd rational approximation. *)
Definition xatan (x : float) : float :=
  let z := (x * x)%float in
  let z := (z * ((((-8.750608600031904122785e-01 * z - 1.615753718733365076637e+01) * z
                   - 7.500855792314704667340e+01) * z - 1.228866684490136173410e+02) * z
                 - 6.485021904942025371773e+01)
            / (((((z + 2.485846490142306297962e+01) * z + 1.650270098316988542046e+02) * z
                 + 4.328810604912902668951e+02) * z + 4.853903996359136964868e+02) * z
               + 1.945506571482613964425e+02))%float in
  (x * z + x)%float.

(** Reduction of a positive argument to [0, 0.66]. *)
Definition satan (x : float) : float :=
  if PrimFloat.leb x 0.66%float then xatan x
  else if PrimFloat.ltb 2.41421356237309504880%float x
  then (F64.Pi / 2 - xatan (1 / x) + 6.123233995736765886130e-17)%float
  else (F64.Pi / 4 + xatan ((x - 1) / (x + 1)) + 0.5 * 6.123233995736765886130e-17)%float.

Definition Atan (x : float) : float :=
  if PrimFloat.eqb x 0%float then x
  else if PrimFloat.ltb 0%float x then satan x
  else PrimFloat.opp (satan (PrimFloat.opp x)).

#[export] Instance host : Host := {|
  time_Parse := Parse;
  math_Atan := Atan;
  strings_ToLower := ToLower;
  range := fun V _ _ m => map_to_list m;
  range_perm := fun V _ _ m => reflexivity (map_to_list m)
|}.

End SampleHost.

(** ** Example logs *)

Module Logs.
Import metrics.

(** Five cases: four follow Start, X, End and one follows Start, Y, Z, End. *)
Definition fiveSessions : list (list string) :=
  [ ["c1"; "2024-01-01 10:00:00"; "Start"];
    ["c1"; "2024-01-01 10:00:10"; "X"];
    ["c1"; "2024-01-01 10:00:20"; "End"];
    ["c2"; "2024-01-01 11:00:00"; "Start"];
    ["c2"; "2024-01-01 11:00:10"; "X"];
    ["c2"; "2024-01-01 11:00:20"; "End"];
    ["c3"; "2024-01-01 12:00:00"; "Start"];
    ["c3"; "2024-01-01 12:00:10"; "X"];
    ["c3"; "2024-01-01 12:00:20"; "End"];
    ["c4"; "2024-01-01 13:00:00"; "Start"];
    ["c4"; "2024-01-01 13:00:10"; "X"];
    ["c4"; "2024-01-01 13:00:20"; "End"];
    ["c5"; "2024-01-01 14:00:00"; "Start"];
    ["c5"; "2024-01-01 14:00:10"; "Y"];
    ["c5"; "2024-01-01 14:00:20"; "Z"];
    ["c5"; "2024-01-01 14:00:30"; "End"] ].

(** The same five cases as the analyzer would receive them if every
    instance were keyed by its case identifier. *)
Definition caseOf (id : string) (hour : Z) (activities : list string) : ProcessInstance :=
  {| ID := id;
     Events :=
       imap (fun i activity =>
               {| SessionID := id;
                  Timestamp := (63839664000 + hour * 3600 + 10 * Z.of_nat i) * time.Second;
                  Description := activity;
                  Result := "" |})
            activities |}.

Definition fiveInstances : gmap string ProcessInstance :=
  list_to_map
    [ ("c1", caseOf "c1" 10 ["Start"; "X"; "End"]);
      ("c2", caseOf "c2" 11 ["Start"; "X"; "End"]);
      ("c3", caseOf "c3" 12 ["Start"; "X"; "End"]);
      ("c4", caseOf "c4" 13 ["Start"; "X"; "End"]);
      ("c5", caseOf "c5" 14 ["Start"; "Y"; "Z"; "End"]) ].

(** One case of two events; uploaded twice in a row. *)
Definition twoEvents : list (list string) :=
  [ ["c1"; "2024-01-01 10:00:00"; "A"];
    ["c1"; "2024-01-01 10:00:10"; "B"] ].

(** One case whose only record carries the outcome ["error"]. *)
Definition oneError : list (list string) :=
  [ ["c1"; "2024-01-01 10:00:00"; "A"; "error"] ].

(** Two cases, one transition each: (a_b, c) after 10 s and (a, b_c)
    after 20 s. *)
Definition underscores : list (list string) :=
  [ ["s1"; "2024-01-01 10:00:00"; "a_b"];
    ["s1"; "2024-01-01 10:00:10"; "c"];
    ["s2"; "2024-01-01 11:00:00"; "a"];
    ["s2"; "2024-01-01 11:00:20"; "b_c"] ].

Definition eventAt (id : string) (offset : Z) (activity : string) : domain.Event.t :=
  {| domain.Event.ID := id; domain.Event.SessionID := id;
     domain.Event.Timestamp := (63839664000 + offset) * time.Second;
     domain.Event.Desc := activity |}.

(** The builder after [underscores] has been read, before [finalizeGraph]. *)
Definition underscoreSessions : domain.GraphBuilder :=
  {| domain.graph := {| domain.Nodes := []; domain.Edges := [] |};
     domain.nodeMap := ∅;
     domain.edgeMap := ∅;
     domain.sessionMap :=
       list_to_map
         [ ("s1", {| domain.Events := [eventAt "s1" 36000 "a_b"; eventAt "s1" 36010 "c"] |});
           ("s2", {| domain.Events := [eventAt "s2" 39600 "a"; eventAt "s2" 39620 "b_c"] |}) ] |}.

(** One instance whose stages take 40, 30, 20 and 10 seconds, in that order. *)
Definition speedingUp : gmap string ProcessInstance :=
  {[ "c1" :=
       {| ID := "c1";
          Events :=
            map (fun '(offset, activity) =>
                   {| SessionID := "c1";
                      Timestamp := (63839664000 + offset) * time.Second;
                      Description := activity;
                      Result := "" |})
                [ (0, "A"); (40, "B"); (70, "C"); (90, "D"); (100, "E") ] |} ]}.

(** One record with two fields only, after a well-formed one. *)
Definition shortRecord : list (list string) :=
  [ ["c1"; "2024-01-01 10:00:00"; "A"];
    ["c1"; "2024-01-01 10:00:10"];
    ["c1"; "yesterday"; "B"] ].

End Logs.

(** ** Vocabulary of the statements *)

Import metrics.

(** The occurrences the detectors reported under one metric key, in
    detection order. *)
Definition occurrencesOf (key : string) (raws : list rawMetric) : list MetricOccurrence :=
  map occurrence (filter (fun raw => metricType raw = key) raws).

(** An occurrence whose value is strictly above the threshold. *)
Definition exceeds (threshold : float) (o : MetricOccurrence) : bool :=
  PrimFloat.ltb threshold (Value o).

(** The metric of the report that belongs to a catalog key (catalog entries
    have pairwise distinct names). *)
Definition metricFor (key : string) (report : MetricsReport) : option InefficiencyMetric :=
  match initMetricDefinitions !! key with
  | Some def => List.find (fun m => String.eqb (Name (Def m)) (Name def)) (Metrics report)
  | None => None
  end.

(** The keys of the metrics whose occurrences are log-wide. *)
Definition logWide (key : string) : bool :=
  bool_decide (key ∈ ["Increasing Stage Duration Trend";
                      "Increasing Process Instance Duration Trend";
                      "High Process Variability";
                      "Low Process Completion Rate";
                      "High Error Rate"]).

(** The aggregate the data model prescribes for a list of occurrences: the
    count is the size of the list, the totals are the sums over it (in list
    order, not yet rounded), and the flag says whether some value is above
    the definition's threshold. *)
Definition summaryOf (def : MetricDefinition) (occs : list MetricOccurrence)
  : InefficiencyMetric :=
  {| Def := def;
     Occurrences := occs;
     TotalValue := F64.sum (map Value occs);
     TotalWastedDuration := F64.sum (map WastedDurationSeconds occs);
     Count := Z.of_nat (length occs);
     Exceeded := existsb (exceeds (Threshold def)) occs |}.

(** An occurrence of a per-instance metric carrying the ID of [instance]. *)
Definition ofInstance (instance : ProcessInstance) (raw : rawMetric) : Prop :=
  logWide (metricType raw) = false ∧ InstanceID (occurrence raw) = ID instance.

(** An occurrence of a log-wide metric, scoped ["ALL"]. *)
Definition ofLog (raw : rawMetric) : Prop :=
  logWide (metricType raw) = true ∧ InstanceID (occurrence raw) = "ALL".

(** Either of the two, for some instance of the map. *)
Definition scoped (instances : gmap string ProcessInstance) (raw : rawMetric) : Prop :=
  ofLog raw ∨ ∃ key instance, instances !! key = Some instance ∧ ofInstance instance raw.

(** A record the ingest cannot turn into an event, with the error it
    raises: fewer than three fields, or a timestamp text that none of the
    accepted layouts parses. *)
Definition rejected `{Host} (record : list string) (err : domain.BuildError) : Prop :=
  ((length record < 3)%nat ∧ err = domain.TooFewColumns record)
  ∨ ((3 ≤ length record)%nat
     ∧ (∀ format, format ∈ domain.formats → time_Parse format (record !!! 1%nat) = None)
     ∧ err = domain.UnknownTimeFormat (record !!! 1%nat)).

(** A record with at least three fields whose timestamp some accepted
    layout parses. *)
Definition accepted `{Host} (record : list string) : Prop :=
  (3 ≤ length record)%nat
  ∧ ∃ format, format ∈ domain.formats ∧ is_Some (time_Parse format (record !!! 1%nat)).

(** [format], at position [i] of the list of layouts, is the first that
    parses [timeStr], and reads it as [t]. *)
Definition firstMatch `{Host} (layouts : list string) (timeStr : string) (t : time.Time)
  : Prop :=
  ∃ (i : nat) (format : string),
    layouts !! i = Some format ∧ time_Parse format timeStr = Some t
    ∧ ∀ (j : nat) (format' : string),
        (j < i)%nat → layouts !! j = Some format' → time_Parse format' timeStr = None.

(** The boundary nodes ("start", "end") among the entries of a node list. *)
Definition boundaryNodes (nodes : list domain.NodeRef) : list domain.Node.t :=
  omap (fun ref => match ref with
                   | domain.BoundaryNode node => Some node
                   | domain.OwnedNode _ => None
                   end) nodes.

(** The key under which [processSession] stores the edge of a transition. *)
Definition edgeKey (transition : domain.Event.t * domain.Event.t) : string :=
  domain.Event.Desc transition.1 +:+ "_" +:+ domain.Event.Desc transition.2.

(** The seconds a transition takes. *)
Definition transitionSeconds (transition : domain.Event.t * domain.Event.t) : float :=
  time.Seconds (time.Sub (domain.Event.Timestamp transition.2)
                         (domain.Event.Timestamp transition.1)).

(** The incremental mean [avg' = (avg*(count'-1) + duration) / count'] run
    over a list of durations, from average 0 and count 0. *)
Definition runningMean (durations : list float) : float :=
  (fold_left (fun '(avg, count) duration =>
                (((avg * F64.of_Z (count + 1 - 1) + duration) / F64.of_Z (count + 1))%float,
                 count + 1))
             durations (0%float, 0)).1.

(** The edge a fresh edge map holds for the transitions stored under one
    key, in the order they were processed: none if there is no such
    transition; otherwise the endpoints of the first one, their number and
    the running mean of their durations. *)
Definition edgeOf (transitions : list (domain.Event.t * domain.Event.t))
  : option domain.Edge.t :=
  match transitions with
  | [] => None
  | first :: _ =>
      Some {| domain.Edge.From := domain.Event.Desc first.1;
              domain.Edge.To := domain.Event.Desc first.2;
              domain.Edge.Count := Z.of_nat (length transitions);
              domain.Edge.AvgDuration := runningMean (map transitionSeconds transitions);
              domain.Edge.Label := None;
              domain.Edge.Style := "" |}
  end.

(** Consecutive pairs of a sequence. *)
Definition consecutive {A : Type} (l : list A) : list (A * A) := zip l (tail l).

(** Increasing order for [sort.Float64s]: no element is less than the one
    before it. *)
Definition increasing (l : list float) : Prop :=
  Sorted (fun a b => F64.less b a = false) l.

(** The value at index [round((n-1)*q)] of a sorted sample of size [n]. *)
Definition quartile (q : float) (sorted : list float) : float :=
  sorted !!! F64.to_nat (F64.Round (F64.of_nat (length sorted - 1) * q)%float).

(** The outlier threshold [Q3 + 1.5*(Q3 − Q1)] of a sorted sample. *)
Definition iqrThreshold (sorted : list float) : float :=
  let Q1 := quartile 0.25%float sorted in
  let Q3 := quartile 0.75%float sorted in
  (Q3 + 1.5 * (Q3 - Q1))%float.

(** The durations the first scan collects: over the instances in the order
    of the scan, the seconds between the two events of every consecutive
    pair, leaving out the pairs with a zero timestamp and those whose second
    event precedes the first. *)
Definition collectedDurations `{Host} (instances : gmap string ProcessInstance)
  : list float :=
  flat_map (fun '(_, instance) =>
      flat_map (fun '(a, b) =>
          if time.IsZero (Timestamp a) || time.IsZero (Timestamp b) then []
          else if time.Before (Timestamp b) (Timestamp a) then []
          else [elapsed a b])
        (consecutive (Events instance)))
    (range 477 0 instances).

(** The second scan: over the instances in the order of that scan, every
    consecutive pair whose seconds are above [threshold], as the instance's
    ID with the seconds. *)
Definition longStages `{Host} (threshold : float) (instances : gmap string ProcessInstance)
  : list (string * float) :=
  flat_map (fun '(_, instance) =>
      flat_map (fun '(a, b) =>
          if PrimFloat.ltb threshold (elapsed a b) then [(ID instance, elapsed a b)] else [])
        (consecutive (Events instance)))
    (range 532 0 instances).

(** ** Vocabulary of the builder's properties *)

(** The event [BuildGraph] makes of a record whose timestamp reads as
    [timestamp]. *)
Definition eventOf (record : list string) (timestamp : time.Time) : domain.Event.t :=
  {| domain.Event.ID := record !!! 0%nat; domain.Event.SessionID := record !!! 0%nat;
     domain.Event.Timestamp := timestamp; domain.Event.Desc := record !!! 2%nat |}.

(** The events of the records of a file that have three fields and a
    readable timestamp, in file order. *)
Definition eventsOf `{Host} (records : list (list string)) : list domain.Event.t :=
  omap (fun record =>
          if (length record <? 3)%nat then None
          else match domain.parseTime (record !!! 1%nat) with
               | inr timestamp => Some (eventOf record timestamp)
               | inl _ => None
               end)
       records.

(** The events a builder holds for a case identifier (none if it has no
    session for it). *)
Definition eventsIn (gb : domain.GraphBuilder) (id : string) : list domain.Event.t :=
  default [] (domain.Events <$> domain.sessionMap gb !! id).

(** The events of one case among a list of events, in the order of the list. *)
Definition ofCase (id : string) (events : list domain.Event.t) : list domain.Event.t :=
  filter (fun event => domain.Event.SessionID event = id) events.

(** The case identifiers of the records of a file. *)
Definition caseIds (records : list (list string)) : list string :=
  map (fun record => record !!! 0%nat) records.

(** All the events of all the sessions of a session map. *)
Definition allEvents (sessions : gmap string domain.Session) : list domain.Event.t :=
  flat_map (fun kv => domain.Events kv.2) (map_to_list sessions).

(** How many events of a list bear the activity [desc]. *)
Definition visits (desc : string) (events : list domain.Event.t) : nat :=
  length (filter (fun event => domain.Event.Desc event = desc) events).

(** The sum of the counts of the edges of an edge map. *)
Definition totalCount (edgeMap : gmap string domain.Edge.t) : Z :=
  map_fold (fun _ edge total => domain.Edge.Count edge + total) 0 edgeMap.

(** A node after [n] more visits. *)
Definition visited (n : nat) (node : domain.Node.t) : domain.Node.t :=
  {| domain.Node.ID := domain.Node.ID node; domain.Node.Label := domain.Node.Label node;
     domain.Node.Count := domain.Node.Count node + Z.of_nat n;
     domain.Node.Total := domain.Node.Total node + Z.of_nat n;
     domain.Node.Color := domain.Node.Color node |}.

(** The builder states the service can be in: a new builder, and whatever
    a build (successful or not), a clearing or a serving of the graph makes
    of such a state. *)
Inductive reachable `{Host} : domain.GraphBuilder → Prop :=
| reachable_new : reachable domain.NewGraphBuilder
| reachable_build records gb :
    reachable gb → reachable (domain.BuildGraph records gb).1
| reachable_clear gb : reachable gb → reachable (domain.ClearGraph gb)
| reachable_serve gb : reachable gb → reachable (presentation.ServeGraphData gb).1.

(** Every session holds at least one event, and its events bear the case
    identifier the session is stored under. *)
Definition sessionsSound (gb : domain.GraphBuilder) : Prop :=
  map_Forall (fun id session =>
      domain.Events session ≠ []
      ∧ Forall (fun event => domain.Event.SessionID event = id ∧ domain.Event.ID event = id)
               (domain.Events session))
    (domain.sessionMap gb).

(** A node stored under [desc]: [desc] is its ID and its label, it is blue,
    and its [Count] and [Total] are equal and positive. *)
Definition nodeSound (desc : string) (node : domain.Node.t) : Prop :=
  domain.Node.ID node = desc ∧ domain.Node.Label node = desc
  ∧ domain.Node.Color node = "blue"
  ∧ domain.Node.Count node = domain.Node.Total node ∧ 1 ≤ domain.Node.Count node.

Definition nodesSound (gb : domain.GraphBuilder) : Prop :=
  map_Forall nodeSound (domain.nodeMap gb).

(** An edge stored under [key]: [key] is made of its endpoints, its count
    is positive, it leaves a node of the node map or "start", and it enters
    a node of the node map or "end". *)
Definition edgeSound (nodeMap : gmap string domain.Node.t) (key : string)
    (edge : domain.Edge.t) : Prop :=
  key = domain.Edge.From edge +:+ "_" +:+ domain.Edge.To edge
  ∧ 1 ≤ domain.Edge.Count edge
  ∧ (is_Some (nodeMap !! domain.Edge.From edge) ∨ domain.Edge.From edge = "start")
  ∧ (is_Some (nodeMap !! domain.Edge.To edge) ∨ domain.Edge.To edge = "end").

Definition edgesSound (gb : domain.GraphBuilder) : Prop :=
  map_Forall (edgeSound (domain.nodeMap gb)) (domain.edgeMap gb).

(** A pointer of the graph's node list leads to a node of the node map, or
    is a boundary node. *)
Definition nodeListed (nodeMap : gmap string domain.Node.t) (ref : domain.NodeRef) : Prop :=
  match ref with
  | domain.OwnedNode key => is_Some (nodeMap !! key)
  | domain.BoundaryNode _ => True
  end.

(** Every pointer of the graph's lists leads somewhere: to a node of the
    node map (or a boundary node), to an edge of the edge map. *)
Definition graphSound (gb : domain.GraphBuilder) : Prop :=
  Forall (nodeListed (domain.nodeMap gb)) (domain.Nodes (domain.graph gb))
  ∧ Forall (fun key => is_Some (domain.edgeMap gb !! key)) (domain.Edges (domain.graph gb)).

(** An edge map with an edge list that names every edge of the map, once;
    all counts are positive. *)
Definition listedOnce (st : gmap string domain.Edge.t * list string) : Prop :=
  NoDup st.2 ∧ (∀ key, key ∈ st.2 ↔ is_Some (st.1 !! key))
  ∧ map_Forall (fun _ edge => 1 ≤ domain.Edge.Count edge) st.1.

(** ** Vocabulary of the looping detectors *)

(** How many events of a list bear a description. *)
Definition timesIn (desc : string) (events : list metrics.Event) : nat :=
  length (filter (fun event => metrics.Description event = desc) events).

(** The indices at which a description occurs in a list of events, in
    increasing order. *)
Definition positions (desc : string) (events : list metrics.Event) : list nat :=
  filter (fun i => metrics.Description (events !!! i) = desc) (seq 0 (length events)).

(** The consecutive pairs of a list, each with the index of its second
    element. *)
Definition steps {A : Type} (l : list A) : list (nat * (A * A)) :=
  imap (fun i pair => (S i, pair)) (consecutive l).

(** The "Rework" occurrence of a description that an instance repeats. *)
Definition reworkOf (instance : metrics.ProcessInstance) (desc : string)
  : metrics.MetricOccurrence :=
  let events := metrics.Events instance in
  {| metrics.InstanceID := metrics.ID instance;
     metrics.Value := F64.of_nat (timesIn desc events - 1);
     metrics.WastedDurationSeconds := metrics.reworkWasted events (positions desc events);
     metrics.Details := metrics.ReworkText desc (timesIn desc events) |}.

(** ** Vocabulary of the top-five lists *)

(** The paths (the descriptions of the events, in order) of the instances
    of a list that have at least one event. *)
Definition nonEmptyPaths (l : list (string * metrics.ProcessInstance)) : list (list string) :=
  flat_map (fun kv =>
              if (0 <? length (metrics.Events kv.2))%nat
              then [map metrics.Description (metrics.Events kv.2)] else [])
    l.

(** How many paths of a list are printed as [key]. *)
Definition timesPath (key : string) (paths : list (list string)) : nat :=
  length (filter (fun path => summary.pathKey path = key) paths).

(** One step of the path loop, for an instance that has events. *)
Definition stepPath (st : gmap string Z * gmap string (list string)) (path : list string)
  : gmap string Z * gmap string (list string) :=
  (<[summary.pathKey path := default 0 (st.1 !! summary.pathKey path) + 1]> st.1, <[summary.pathKey path := path]> st.2).

(** ** More example data *)

Module Cases.

(** One instance that goes back and forth: A, B, A, B, ten seconds apart. *)
Definition backAndForth : metrics.ProcessInstance :=
  {| metrics.ID := "c1";
     metrics.Events :=
       map (fun '(offset, activity) =>
              {| metrics.SessionID := "c1";
                 metrics.Timestamp := (63839664000 + offset) * time.Second;
                 metrics.Description := activity;
                 metrics.Result := "" |})
           [ (0, "A"); (10, "B"); (20, "A"); (30, "B") ] |}.

(** The builder after the five-case log and then the two-event log have
    been built and the graph has been served. *)
Definition served : domain.GraphBuilder :=
  (presentation.ServeGraphData
     (domain.BuildGraph (H:=SampleHost.host) Logs.twoEvents
        (domain.BuildGraph (H:=SampleHost.host) Logs.fiveSessions
           domain.NewGraphBuilder).1).1).1.

End Cases.

(** * Theorems *)

(** ** Iteration over maps *)

Section range_facts.
Context `{Host} {V : Type}.
Implicit Types (m : gmap string V).

Lemma range_elem_of line visit m k v :
  (k, v) ∈ range line visit m ↔ m !! k = Some v.
Proof. rewrite (range_perm V line visit m). apply elem_of_map_to_list. Qed.

Lemma range_length line visit m : length (range line visit m) = size m.
Proof. rewrite (range_perm V line visit m). apply length_map_to_list. Qed.

Lemma range_NoDup_keys line visit m : NoDup (range line visit m).*1.
Proof. rewrite (range_perm V line visit m). apply NoDup_fst_map_to_list. Qed.

Lemma range_empty line visit : range line visit (∅ : gmap string V) = [].
Proof.
  apply Permutation_nil_r. rewrite (range_perm V line visit ∅).
  by rewrite map_to_list_empty.
Qed.

Lemma range_singleton line visit k (v : V) :
  range line visit ({[k := v]} : gmap string V) = [(k, v)].
Proof.
  apply Permutation_singleton_r. rewrite (range_perm V line visit _).
  by rewrite map_to_list_singleton.
Qed.

End range_facts.

(** ** The merge step of [Analyze] *)

Lemma sum_snoc (l : list float) (x : float) :
  F64.sum (l ++ [x]) = (F64.sum l + x)%float.
Proof. unfold F64.sum. by rewrite fold_left_app. Qed.

Lemma occurrencesOf_snoc key raws raw :
  occurrencesOf key (raws ++ [raw]) =
  occurrencesOf key raws ++ (if decide (metricType raw = key) then [occurrence raw] else []).
Proof.
  unfold occurrencesOf. rewrite filter_app, map_app. f_equal.
  rewrite filter_cons, filter_nil. by destruct (decide _).
Qed.

Lemma summaryOf_snoc def occs o :
  summaryOf def (occs ++ [o]) =
  {| Def := def;
     Occurrences := occs ++ [o];
     TotalValue := (TotalValue (summaryOf def occs) + Value o)%float;
     TotalWastedDuration :=
       (TotalWastedDuration (summaryOf def occs) + WastedDurationSeconds o)%float;
     Count := Count (summaryOf def occs) + 1;
     Exceeded := if PrimFloat.ltb (Threshold def) (Value o) then true
                 else Exceeded (summaryOf def occs) |}.
Proof.
  unfold summaryOf; simpl. rewrite !map_app; simpl.
  rewrite !sum_snoc, length_app, existsb_app. simpl.
  f_equal; [lia|]. unfold exceeds.
  destruct (existsb _ occs), (PrimFloat.ltb _ _); reflexivity.
Qed.

(** After the merge loop, the entry of every catalog key is the aggregate of
    the occurrences reported under that key; other keys have no entry. *)
Lemma aggregate_lookup definitions raws key :
  aggregate definitions raws !! key =
  (fun def => summaryOf def (occurrencesOf key raws)) <$> definitions !! key.
Proof.
  induction raws as [|raw raws IH] using rev_ind.
  - unfold aggregate, initAggregated; simpl. by rewrite lookup_fmap.
  - unfold aggregate in *. rewrite fold_left_app; simpl.
    unfold addOccurrence at 1.
    rewrite occurrencesOf_snoc.
    destruct (decide (metricType raw = key)) as [->|Hne].
    + rewrite IH. destruct (definitions !! key) as [def|] eqn:Hdef; simpl.
      * rewrite lookup_insert_eq, summaryOf_snoc. reflexivity.
      * exact IH.
    + rewrite app_nil_r.
      destruct (fold_left addOccurrence raws (initAggregated definitions) !! metricType raw);
        [rewrite lookup_insert_ne by done|]; apply IH.
Qed.

Section report_facts.
Context `{Host}.

Lemma Metrics_Analyze definitions instances :
  Metrics (Analyze definitions instances) =
  map (fun kv => finishMetric kv.2)
      (range 330 0 (aggregate definitions (rawMetrics instances))).
Proof. unfold Analyze; simpl. apply map_ext. by intros []. Qed.

(** The metrics of a report are exactly the finished aggregates of the
    catalog keys. *)
Lemma Metrics_elem_of definitions instances m :
  m ∈ Metrics (Analyze definitions instances) ↔
  ∃ key def, definitions !! key = Some def ∧
    m = finishMetric (summaryOf def (occurrencesOf key (rawMetrics instances))).
Proof.
  rewrite Metrics_Analyze, list_elem_of_fmap. split.
  - intros ([key agg] & -> & Hin). apply range_elem_of in Hin.
    rewrite aggregate_lookup in Hin.
    destruct (definitions !! key) as [def|] eqn:Hdef; [|done].
    exists key, def. split; [done|]. simpl in *. congruence.
  - intros (key & def & Hdef & ->).
    exists (key, summaryOf def (occurrencesOf key (rawMetrics instances))).
    split; [done|]. apply range_elem_of. by rewrite aggregate_lookup, Hdef.
Qed.

End report_facts.

(** ** The catalog *)

Lemma NoDup_fmap_inj_on {A B : Type} (f : A → B) (l : list A) x y :
  NoDup (f <$> l) → x ∈ l → y ∈ l → f x = f y → x = y.
Proof.
  induction l as [|a l IH]; intros Hnd Hx Hy Hf; [by apply elem_of_nil in Hx|].
  rewrite fmap_cons in Hnd. apply NoDup_cons in Hnd as [Hnotin Hnd].
  apply elem_of_cons in Hx as [->|Hx]; apply elem_of_cons in Hy as [->|Hy]; auto.
  - exfalso. apply Hnotin. rewrite Hf. by apply list_elem_of_fmap_2.
  - exfalso. apply Hnotin. rewrite <- Hf. by apply list_elem_of_fmap_2.
Qed.

Lemma catalog_size : size initMetricDefinitions = 12%nat.
Proof. reflexivity. Qed.

Lemma catalog_names_NoDup :
  NoDup ((fun kv => Name kv.2) <$> map_to_list initMetricDefinitions).
Proof. apply (bool_decide_unpack _). vm_compute. exact I. Qed.

(** Catalog entries are told apart by their names. *)
Lemma catalog_name_inj key1 key2 def1 def2 :
  initMetricDefinitions !! key1 = Some def1 →
  initMetricDefinitions !! key2 = Some def2 →
  Name def1 = Name def2 → key1 = key2 ∧ def1 = def2.
Proof.
  intros H1%elem_of_map_to_list H2%elem_of_map_to_list Hname.
  assert ((key1, def1) = (key2, def2)) as Heq; [|by inversion Heq].
  by eapply (NoDup_fmap_inj_on (fun kv => Name kv.2)), Hname; [apply catalog_names_NoDup|..].
Qed.

Section metricFor_facts.
Context `{Host}.

(** The metric of a catalog key in the report, in closed form. *)
Lemma metricFor_spec instances key def :
  initMetricDefinitions !! key = Some def →
  metricFor key (AnalyzeWithCatalog instances) =
  Some (finishMetric (summaryOf def (occurrencesOf key (rawMetrics instances)))).
Proof.
  intros Hdef. unfold metricFor, AnalyzeWithCatalog. rewrite Hdef.
  destruct (find _ _) as [m|] eqn:Hfind.
  - apply find_some in Hfind as [Hin Hname].
    apply list_elem_of_In, Metrics_elem_of in Hin as (key' & def' & Hdef' & ->).
    apply String.eqb_eq in Hname; simpl in Hname.
    destruct (catalog_name_inj _ _ _ _ Hdef' Hdef Hname) as [-> ->]. reflexivity.
  - exfalso.
    pose proof (find_none _ _ Hfind
      (finishMetric (summaryOf def (occurrencesOf key (rawMetrics instances))))) as Hnone.
    simpl in Hnone. rewrite String.eqb_refl in Hnone.
    assert (false = true) by (apply eq_sym, Hnone, list_elem_of_In, Metrics_elem_of; eauto).
    discriminate.
Qed.

End metricFor_facts.

(** ** C2: the aggregation invariants *)

Lemma existsb_exceeds threshold occs :
  existsb (exceeds threshold) occs = true ↔
  ∃ o, o ∈ occs ∧ PrimFloat.ltb threshold (Value o) = true.
Proof.
  rewrite existsb_exists. split; intros (o & Hin & Hlt); exists o;
    (split; [by apply list_elem_of_In|exact Hlt]).
Qed.

(** C2.  For every instance map handed to [Analyze], every metric of the
    report has [Count] equal to the length of its occurrence list,
    [TotalValue] equal to the sum of the occurrences' values rounded to one
    decimal, [TotalWastedDuration] equal to the sum of their wasted seconds,
    and [Exceeded] set iff some occurrence's value is strictly above the
    definition's threshold; the report holds one metric per catalog entry,
    whose occurrences are those detected under the entry's key (none
    included). *)
Theorem analyze_metric_invariants `{Host} (instances : gmap string ProcessInstance) :
  let report := AnalyzeWithCatalog instances in
  Forall (fun m =>
      Count m = Z.of_nat (length (Occurrences m))
      ∧ TotalValue m = F64.round1 (F64.sum (map Value (Occurrences m)))
      ∧ TotalWastedDuration m = F64.sum (map WastedDurationSeconds (Occurrences m))
      ∧ (Exceeded m = true ↔
         ∃ o, o ∈ Occurrences m ∧ PrimFloat.ltb (Threshold (Def m)) (Value o) = true))
    (Metrics report)
  ∧ Def <$> Metrics report ≡ₚ snd <$> map_to_list initMetricDefinitions
  ∧ length (Metrics report) = 12%nat
  ∧ map_Forall (fun key def =>
      ∃ m, metricFor key report = Some m ∧ Def m = def
           ∧ Occurrences m = occurrencesOf key (rawMetrics instances))
    initMetricDefinitions.
Proof.
  intros report. split; [|split; [|split]].
  - apply Forall_forall. intros m Hin.
    apply Metrics_elem_of in Hin as (key & def & _ & ->). simpl.
    split; [done|]. split; [done|]. split; [done|]. apply existsb_exceeds.
  - unfold report, AnalyzeWithCatalog. rewrite Metrics_Analyze.
    change (map (fun kv : string * InefficiencyMetric => finishMetric kv.2))
      with (fmap (M:=list) (fun kv : string * InefficiencyMetric => finishMetric kv.2)).
    rewrite <- list_fmap_compose, range_perm.
    assert (initMetricDefinitions =
            Def <$> aggregate initMetricDefinitions (rawMetrics instances)) as Hdefs.
    { apply map_eq. intros key. rewrite lookup_fmap, aggregate_lookup.
      by destruct (initMetricDefinitions !! key). }
    rewrite Hdefs at 2. rewrite map_to_list_fmap, <- list_fmap_compose.
    match goal with |- ?f <$> ?l ≡ₚ ?g <$> _ =>
      assert (f <$> l = g <$> l) as -> by (apply list_fmap_ext; by intros ? [])
    end. reflexivity.
  - unfold report, AnalyzeWithCatalog. rewrite Metrics_Analyze, length_map, range_length.
    rewrite <- catalog_size, <- !length_map_to_list.
    assert (initMetricDefinitions =
            Def <$> aggregate initMetricDefinitions (rawMetrics instances)) as Hdefs.
    { apply map_eq. intros key. rewrite lookup_fmap, aggregate_lookup.
      by destruct (initMetricDefinitions !! key). }
    rewrite Hdefs at 2. by rewrite map_to_list_fmap, length_fmap.
  - intros key def Hdef. eexists. split; [by apply metricFor_spec|].
    simpl. split; reflexivity.
Qed.

(** ** Whose occurrence: the [InstanceID] of every detector output *)

Lemma Forall_flat_map_intro {A B : Type} (P : B → Prop) (f : A → list B) (l : list A) :
  (∀ a, a ∈ l → Forall P (f a)) → Forall P (flat_map f l).
Proof.
  intros Hf. apply Forall_forall. intros b (a & Ha & Hb)%list_elem_of_In%in_flat_map.
  eapply Forall_forall; [apply Hf, list_elem_of_In, Ha|by apply list_elem_of_In].
Qed.

Lemma Forall_concat_imap {A B : Type} (P : B → Prop) (f : nat → A → list B) (l : list A) :
  (∀ i a, l !! i = Some a → Forall P (f i a)) → Forall P (concat (imap f l)).
Proof.
  intros Hf. apply Forall_concat, Forall_forall.
  intros bs (i & a & -> & Hi)%elem_of_lookup_imap. by eapply Hf.
Qed.

Ltac per_index :=
  apply Forall_flat_map_intro; intros ? _;
  repeat match goal with
  | |- Forall _ (if ?c then _ else _) => destruct c
  | |- Forall _ (let '(_, _) := ?p in _) => destruct p
  end;
  repeat constructor.

Section scope_facts.
Context `{Host}.

Lemma loopingOf_scope visit instance : Forall (ofInstance instance) (loopingOf visit instance).
Proof.
  unfold loopingOf. destruct (_ <? _)%nat; [constructor|].
  repeat apply Forall_app_2.
  - unfold selfLoops. per_index.
  - unfold returnsToPrevious. per_index.
  - unfold pingPongs. per_index.
  - unfold returnsToStart. destruct (_ <? _)%nat; [per_index|constructor].
  - unfold reworks. apply Forall_flat_map_intro. intros [desc indices] _.
    destruct (_ <? _)%nat; repeat constructor.
Qed.

Lemma anomalousOf_scope threshold avg instance :
  Forall (ofInstance instance) (anomalousOf threshold avg instance).
Proof. unfold anomalousOf. per_index. Qed.

Lemma manualStagesOf_scope instance : Forall (ofInstance instance) (manualStagesOf instance).
Proof. unfold manualStagesOf. destruct (_ <? _)%nat; [constructor|per_index]. Qed.

Lemma stageTrend_scope durations : Forall ofLog (stageTrend durations).
Proof. unfold stageTrend. destruct (PrimFloat.ltb _ _); repeat constructor. Qed.

Lemma instanceTrend_scope durations : Forall ofLog (instanceTrend durations).
Proof.
  unfold instanceTrend. destruct (_ <? _)%nat; [|constructor].
  destruct (PrimFloat.ltb _ _); repeat constructor.
Qed.

Lemma per_instance_scope line (f : ProcessInstance → list rawMetric) instances :
  (∀ instance, Forall (ofInstance instance) (f instance)) →
  Forall (scoped instances)
    (flat_map (fun '(_, instance) => f instance) (range line 0 instances)).
Proof.
  intros Hf. apply Forall_flat_map_intro. intros [key instance] Hin%range_elem_of.
  eapply Forall_impl; [apply Hf|]. intros raw Hraw. right. eauto.
Qed.

(** Every detector output is scoped ["ALL"] under a log-wide key, or carries
    the ID of an instance of the map under a per-instance key. *)
Lemma rawMetrics_scope instances : Forall (scoped instances) (rawMetrics instances).
Proof.
  unfold rawMetrics. repeat apply Forall_app_2.
  - unfold collectLoopingMetrics. apply Forall_concat_imap.
    intros i [key instance] Hin%list_elem_of_lookup_2%range_elem_of.
    eapply Forall_impl; [apply loopingOf_scope|]. intros raw Hraw. right. eauto.
  - unfold collectDurationMetrics. destruct (_ =? _)%nat; [constructor|].
    destruct (_ <=? _)%nat; repeat apply Forall_app_2;
      try (eapply Forall_impl; [apply stageTrend_scope || apply instanceTrend_scope|];
           by left).
    + apply per_instance_scope. intros. apply anomalousOf_scope.
    + constructor.
  - apply per_instance_scope, manualStagesOf_scope.
  - unfold collectComplexityMetrics. destruct (_ =? _)%nat; [constructor|].
    destruct (PrimFloat.ltb _ _); repeat constructor.
  - unfold collectCompletionMetrics. destruct (_ =? _)%nat; [constructor|].
    destruct (PrimFloat.ltb _ _); repeat constructor.
  - unfold collectErrorMetrics. destruct (_ <? _)%nat; repeat constructor.
Qed.

End scope_facts.

(** ** What a build leaves in the session map *)

Import domain service.

Section builder_facts.
Context `{Host}.

Lemma processSession_sessionMap gb session :
  sessionMap (processSession gb session) = sessionMap gb.
Proof. unfold processSession. by destruct (Events session). Qed.

Lemma processSession_graph gb session : graph (processSession gb session) = graph gb.
Proof. unfold processSession. by destruct (Events session). Qed.

Lemma processSessions_sessionMap (sessions : list (string * Session)) gb :
  sessionMap (fold_left (fun gb '(_, session) => processSession gb session) sessions gb)
  = sessionMap gb.
Proof.
  revert gb. induction sessions as [|[key session] sessions IH]; intros gb; simpl; [done|].
  by rewrite IH, processSession_sessionMap.
Qed.

Lemma processSessions_graph (sessions : list (string * Session)) gb :
  graph (fold_left (fun gb '(_, session) => processSession gb session) sessions gb)
  = graph gb.
Proof.
  revert gb. induction sessions as [|[key session] sessions IH]; intros gb; simpl; [done|].
  by rewrite IH, processSession_graph.
Qed.

(** [finalizeGraph] reads the sessions and leaves them as they are. *)
Lemma finalizeGraph_sessionMap gb : sessionMap (finalizeGraph gb) = sessionMap gb.
Proof.
  unfold finalizeGraph. destruct (fold_left _ (range 978 _ _) _) as [edgeMap2 edges].
  simpl. apply processSessions_sessionMap.
Qed.

Lemma onRecord_ok record gb gb' :
  onRecord record gb = (gb', None) →
  ∃ event, gb' = processEvent event gb ∧ Event.SessionID event = record !!! 0%nat
           ∧ Event.Desc event = record !!! 2%nat.
Proof.
  unfold onRecord. destruct (_ <? _)%nat; [discriminate|].
  destruct (parseTime _) as [err|timestamp]; [discriminate|].
  intros [= <-]. eexists. split; [reflexivity|]. by simpl.
Qed.

Lemma ReadAndProcess_sessions records gb gb' :
  ReadAndProcess records onRecord gb = (gb', None) →
  sessionMap gb ≠ ∅ ∨ records ≠ [] → sessionMap gb' ≠ ∅.
Proof.
  revert gb. induction records as [|record records IH]; intros gb; simpl.
  - intros [= <-] [Hne|Hne]; done.
  - destruct (onRecord record gb) as [gb1 [err|]] eqn:Hrec; [discriminate|].
    intros Hrest _. apply (IH gb1 Hrest). left.
    apply onRecord_ok in Hrec as (event & -> & _). simpl. apply insert_non_empty.
Qed.

(** A successful build of a log with at least one record leaves at least one
    session. *)
Lemma BuildGraph_sessions_nonempty records gb gb' :
  BuildGraph records gb = (gb', None) → records ≠ [] → sessionMap gb' ≠ ∅.
Proof.
  unfold BuildGraph.
  destruct (ReadAndProcess records onRecord gb) as [gb1 [err|]] eqn:Hread; [discriminate|].
  intros [= <-] Hne. rewrite finalizeGraph_sessionMap.
  eapply ReadAndProcess_sessions; eauto.
Qed.

(** ** What [GetProcessInstances] hands to the analyzer *)

Lemma GetProcessInstances_length gb :
  length (GetProcessInstances gb) = size (sessionMap gb).
Proof. unfold GetProcessInstances. by rewrite length_map, range_length. Qed.

(** No instance is given an ID, and no event an outcome. *)
Lemma GetProcessInstances_blank gb :
  Forall (fun instance => ID instance = ""
                          ∧ Forall (fun event => Result event = "") (metrics.Events instance))
         (GetProcessInstances gb).
Proof.
  unfold GetProcessInstances. apply Forall_forall.
  intros instance ([key session] & -> & _)%(list_elem_of_fmap_1 _ _ _). simpl. split; [done|].
  apply Forall_forall. by intros event (e & -> & _)%(list_elem_of_fmap_1 _ _ _).
Qed.

Lemma copyEvents_id (events : list metrics.Event) :
  map (fun event =>
         {| metrics.SessionID := metrics.SessionID event;
            metrics.Timestamp := metrics.Timestamp event;
            metrics.Description := metrics.Description event;
            metrics.Result := metrics.Result event |}) events = events.
Proof. induction events as [|[] events IH]; simpl; [done|]. by rewrite IH. Qed.

Lemma processInstancesMap_snoc slice instance :
  processInstancesMap (slice ++ [instance]) =
  <[ID instance := instance]> (processInstancesMap slice).
Proof.
  unfold processInstancesMap. rewrite fold_left_app; simpl.
  rewrite copyEvents_id. by destruct instance.
Qed.

(** Keyed by IDs that are all empty, the map keeps the last instance only. *)
Lemma processInstancesMap_blank slice :
  Forall (fun instance => ID instance = "") slice →
  processInstancesMap slice =
  match last slice with
  | Some instance => {[ "" := instance ]}
  | None => ∅
  end.
Proof.
  induction slice as [|instance slice IH] using rev_ind; intros Hblank; [done|].
  apply Forall_app in Hblank as [Hslice [Hid _]%Forall_cons].
  rewrite processInstancesMap_snoc, last_snoc, Hid, (IH Hslice).
  destruct (last slice); [apply insert_singleton_eq|apply insert_empty].
Qed.

Lemma processInstancesMap_size_le gb :
  (size (processInstancesMap (GetProcessInstances gb)) ≤ 1)%nat.
Proof.
  rewrite processInstancesMap_blank.
  - destruct (last _); [by rewrite map_size_singleton|by rewrite map_size_empty; lia].
  - eapply Forall_impl; [apply GetProcessInstances_blank|]. by intros ? [? _].
Qed.

Lemma processInstancesMap_nonempty gb :
  sessionMap gb ≠ ∅ →
  ∃ instance, instance ∈ GetProcessInstances gb ∧ ID instance = ""
              ∧ processInstancesMap (GetProcessInstances gb) = {[ "" := instance ]}.
Proof.
  intros Hne%map_size_non_empty_iff. rewrite <- GetProcessInstances_length in Hne.
  pose proof (GetProcessInstances_blank gb) as Hblank.
  rewrite processInstancesMap_blank
    by (eapply Forall_impl; [apply Hblank|]; by intros ? [? _]).
  destruct (last (GetProcessInstances gb)) as [instance|] eqn:Hlast.
  - exists instance. apply last_Some_elem_of in Hlast as Hin.
    split; [done|]. split; [|done].
    by eapply Forall_forall in Hblank as [? _].
  - apply last_None in Hlast. by rewrite Hlast in Hne.
Qed.

End builder_facts.

(** ** C1: every instance reaches the analyzer under the empty ID *)

(** C1.  After a successful build of a log with at least one record,
    whatever the number of case identifiers in it: every instance
    [GetProcessInstances] hands over has the empty ID; the map
    [GetMetricsReport] keys by that ID has exactly one entry (never more
    than one, for any builder state); the report counts one process
    instance; and every occurrence of a per-instance metric in the report
    carries the empty [InstanceID] (the others are scoped ["ALL"]). *)
Theorem report_sees_one_blank_instance `{Host}
    (records : list (list string)) (gb gb' : GraphBuilder) :
  BuildGraph records gb = (gb', None) →
  records ≠ [] →
  let report := GetMetricsReport gb' in
  Forall (fun instance => ID instance = "") (GetProcessInstances gb')
  ∧ size (processInstancesMap (GetProcessInstances gb')) = 1%nat
  ∧ TotalProcessInstances report = 1
  ∧ Forall (fun m =>
      Forall (fun o => InstanceID o = "" ∨ InstanceID o = "ALL") (Occurrences m))
      (Metrics report)
  ∧ map_Forall (fun key _ =>
      ∃ m, metricFor key report = Some m
           ∧ Forall (fun o => InstanceID o = if logWide key then "ALL" else "")
                    (Occurrences m))
      initMetricDefinitions.
Proof.
  intros Hbuild Hrecords report.
  pose proof (BuildGraph_sessions_nonempty _ _ _ Hbuild Hrecords) as Hsessions.
  destruct (processInstancesMap_nonempty gb' Hsessions) as (instance & _ & Hid & Hmap).
  assert (Forall (fun raw =>
            InstanceID (occurrence raw) = if logWide (metricType raw) then "ALL" else "")
          (rawMetrics (processInstancesMap (GetProcessInstances gb')))) as Hraw.
  { eapply Forall_impl; [apply rawMetrics_scope|].
    intros raw [[-> ->]|(key & instance' & Hlookup & -> & ->)]; [done|].
    rewrite Hmap in Hlookup. apply lookup_singleton_Some in Hlookup as [_ <-]. done. }
  assert (∀ key, Forall (fun o => InstanceID o = if logWide key then "ALL" else "")
            (occurrencesOf key (rawMetrics (processInstancesMap (GetProcessInstances gb')))))
    as Hocc.
  { intros key. unfold occurrencesOf. apply Forall_forall.
    intros o (raw & -> & [<- Hin]%list_elem_of_filter)%(list_elem_of_fmap_1 _ _ _).
    by eapply Forall_forall in Hraw. }
  split; [|split; [|split; [|split]]].
  - eapply Forall_impl; [apply GetProcessInstances_blank|]. by intros ? [? _].
  - by rewrite Hmap, map_size_singleton.
  - unfold report, GetMetricsReport, AnalyzeWithCatalog, Analyze; simpl.
    by rewrite Hmap, map_size_singleton.
  - apply Forall_forall. intros m (key & def & _ & ->)%Metrics_elem_of. simpl.
    eapply Forall_impl; [apply (Hocc key)|]. intros o ->. destruct (logWide key); auto.
  - intros key def Hdef. eexists. split; [by apply metricFor_spec|]. apply Hocc.
Qed.

Lemma report_sees_one_blank_instance_witness :
  let gb' := (BuildGraph (H:=SampleHost.host) Logs.fiveSessions NewGraphBuilder).1 in
  let report := GetMetricsReport (H:=SampleHost.host) gb' in
  Forall (fun instance => ID instance = "") (GetProcessInstances (H:=SampleHost.host) gb')
  ∧ size (processInstancesMap (GetProcessInstances (H:=SampleHost.host) gb')) = 1%nat
  ∧ TotalProcessInstances report = 1
  ∧ Forall (fun m =>
      Forall (fun o => InstanceID o = "" ∨ InstanceID o = "ALL") (Occurrences m))
      (Metrics report)
  ∧ map_Forall (fun key _ =>
      ∃ m, metricFor key report = Some m
           ∧ Forall (fun o => InstanceID o = if logWide key then "ALL" else "")
                    (Occurrences m))
      initMetricDefinitions.
Proof.
  apply (report_sees_one_blank_instance (H:=SampleHost.host)
           Logs.fiveSessions NewGraphBuilder);
    [vm_compute; reflexivity|discriminate].
Defined.

(** ** C9: when a build fails *)

Section ingest_facts.
Context `{Host}.

Lemma tryFormats_Some layouts timeStr t :
  tryFormats layouts timeStr = Some t ↔ firstMatch layouts timeStr t.
Proof.
  unfold firstMatch. induction layouts as [|format layouts IH]; simpl.
  - split; [discriminate|]. by intros (i & format & Hi & _).
  - destruct (time_Parse format timeStr) as [t'|] eqn:Hparse.
    + split.
      * intros [= ->]. exists 0%nat, format. split; [done|]. split; [done|]. lia.
      * intros ([|i] & format' & Hi & Hparse' & Hfirst); simpl in Hi.
        -- congruence.
        -- specialize (Hfirst 0%nat format ltac:(lia) eq_refl). congruence.
    + rewrite IH. split.
      * intros (i & format' & Hi & Hparse' & Hfirst).
        exists (S i), format'. split; [done|]. split; [done|].
        intros [|j] format'' Hlt Hj; simpl in Hj; [congruence|].
        eapply Hfirst; [|done]. lia.
      * intros ([|i] & format' & Hi & Hparse' & Hfirst); simpl in Hi; [congruence|].
        exists i, format'. split; [done|]. split; [done|].
        intros j format'' Hlt Hj. apply (Hfirst (S j) format''); [lia|done].
Qed.

Lemma tryFormats_None layouts timeStr :
  tryFormats layouts timeStr = None ↔
  ∀ format, format ∈ layouts → time_Parse format timeStr = None.
Proof.
  induction layouts as [|format layouts IH]; simpl.
  - split; [|done]. by intros _ format Hin%elem_of_nil.
  - destruct (time_Parse format timeStr) as [t'|] eqn:Hparse.
    + split; [discriminate|]. intros Hall.
      rewrite (Hall format) in Hparse by apply list_elem_of_here. discriminate.
    + rewrite IH. split.
      * intros Hall format' [->|Hin]%elem_of_cons; auto.
      * intros Hall format' Hin. by apply Hall, list_elem_of_further.
Qed.

Lemma accepted_not_rejected record : accepted record ↔ ∀ err, ¬ rejected record err.
Proof.
  unfold accepted, rejected. split.
  - intros [Hlen (format & Hin & [t Ht])] err [[Hshort _]|(_ & Hnone & _)]; [lia|].
    rewrite (Hnone format Hin) in Ht. discriminate.
  - intros Hnot. destruct (decide (length record < 3)%nat) as [Hshort|Hlong].
    { exfalso. eapply Hnot. left. eauto. }
    split; [lia|].
    destruct (tryFormats formats (record !!! 1%nat)) as [t|] eqn:Htry.
    + apply tryFormats_Some in Htry as (i & format & Hi & Hparse & _).
      exists format. split; [by eapply list_elem_of_lookup_2|by rewrite Hparse].
    + exfalso. eapply Hnot. right. split; [lia|]. split; [|done].
      by apply tryFormats_None.
Qed.

(** What the callback returns for one record. *)
Lemma onRecord_error record gb err :
  (onRecord record gb).2 = Some err ↔ rejected record err.
Proof.
  unfold onRecord, rejected, parseTime.
  destruct (length record <? 3)%nat eqn:Hlen.
  - cbn [snd]. apply Nat.ltb_lt in Hlen. split.
    + intros ?; simplify_eq. by left.
    + intros [[_ ->]|[Hlong _]]; [done|lia].
  - apply Nat.ltb_ge in Hlen.
    destruct (tryFormats formats (record !!! 1%nat)) as [t|] eqn:Htry; cbn [snd].
    + split; [discriminate|]. intros [[Hshort _]|(_ & Hnone & _)]; [lia|].
      apply tryFormats_None in Hnone. congruence.
    + split.
      * intros ?; simplify_eq. right. split; [done|]. split; [|done].
        by apply tryFormats_None.
      * intros [[Hshort _]|(_ & _ & ->)]; [lia|done].
Qed.

Lemma onRecord_success record gb : (onRecord record gb).2 = None ↔ accepted record.
Proof.
  rewrite accepted_not_rejected. split.
  - intros Hok err Hrej%(onRecord_error record gb). congruence.
  - intros Hnot. destruct (onRecord record gb).2 as [err|] eqn:Herr; [|done].
    by apply onRecord_error, Hnot in Herr.
Qed.

Lemma ReadAndProcess_error records gb err :
  (ReadAndProcess records onRecord gb).2 = Some err ↔
  ∃ pre record post,
    records = pre ++ record :: post ∧ Forall accepted pre ∧ rejected record err.
Proof.
  revert gb. induction records as [|record records IH]; intros gb; simpl.
  - split; [discriminate|]. by intros ([|] & ? & ? & ? & _).
  - pose proof (onRecord_error record gb) as Herr.
    pose proof (onRecord_success record gb) as Hok.
    destruct (onRecord record gb) as [gb1 [err1|]]; simpl in *.
    + split.
      * intros ?; simplify_eq. exists [], record, records.
        split; [done|]. split; [done|]. by apply Herr.
      * intros ([|record' pre] & record'' & post & Heq & Hpre & Hrej); simplify_eq/=.
        -- by apply Herr.
        -- apply Forall_cons in Hpre as [Hacc _]. apply Hok in Hacc. discriminate.
    + rewrite IH. split.
      * intros (pre & record' & post & -> & Hpre & Hrej).
        exists (record :: pre), record', post. split; [done|]. split; [|done].
        constructor; [by apply Hok|done].
      * intros ([|record' pre] & record'' & post & Heq & Hpre & Hrej); simplify_eq/=.
        -- apply Herr in Hrej. discriminate.
        -- apply Forall_cons in Hpre as [_ Hpre]. eauto 6.
Qed.

Lemma ReadAndProcess_success records gb :
  (ReadAndProcess records onRecord gb).2 = None ↔ Forall accepted records.
Proof.
  revert gb. induction records as [|record records IH]; intros gb; simpl; [done|].
  pose proof (onRecord_success record gb) as Hok.
  destruct (onRecord record gb) as [gb1 [err1|]]; simpl in *.
  - split; [discriminate|]. intros [Hacc _]%Forall_cons. apply Hok in Hacc. discriminate.
  - rewrite IH, Forall_cons. split; [|tauto]. intros Hrest. split; [by apply Hok|done].
Qed.

Lemma BuildGraph_result records gb :
  (BuildGraph records gb).2 = (ReadAndProcess records onRecord gb).2.
Proof. unfold BuildGraph. by destruct (ReadAndProcess _ _ _) as [gb1 [err|]]. Qed.

End ingest_facts.

(** C9.  [BuildGraph] returns an error exactly when some record has fewer
    than three fields or a timestamp text that none of the accepted layouts
    parses, and the error is the one of the first such record (the records
    before it were all accepted); it returns success exactly when every
    record is accepted.  [parseTime] tries the layouts in their fixed order
    and returns what the first layout that parses reads; it fails exactly
    when no layout parses. *)
Theorem build_fails_on_first_bad_record `{Host}
    (records : list (list string)) (gb : GraphBuilder) :
  let result := (BuildGraph records gb).2 in
  (is_Some result ↔ Exists (fun record => ∃ err, rejected record err) records)
  ∧ (∀ err, result = Some err ↔
       ∃ pre record post,
         records = pre ++ record :: post ∧ Forall accepted pre ∧ rejected record err)
  ∧ (result = None ↔ Forall accepted records)
  ∧ (∀ timeStr t, parseTime timeStr = inr t ↔ firstMatch formats timeStr t)
  ∧ (∀ timeStr err, parseTime timeStr = inl err ↔
       err = UnknownTimeFormat timeStr
       ∧ ∀ format, format ∈ formats → time_Parse format timeStr = None).
Proof.
  intros result. unfold result. rewrite BuildGraph_result.
  split; [|split; [|split; [|split]]].
  - split.
    + intros [err (pre & record & post & -> & _ & Hrej)%ReadAndProcess_error].
      apply Exists_app. right. apply Exists_cons_hd. eauto.
    + intros Hex.
      destruct ((ReadAndProcess records onRecord gb).2) as [err|] eqn:Hres; [eauto|].
      apply ReadAndProcess_success in Hres. exfalso.
      apply Exists_exists in Hex as (record & Hin & err & Hrej).
      eapply Forall_forall in Hres; [|exact Hin].
      by eapply accepted_not_rejected in Hres.
  - intros err. apply ReadAndProcess_error.
  - apply ReadAndProcess_success.
  - intros timeStr t. rewrite <- tryFormats_Some. unfold parseTime.
    destruct (tryFormats formats timeStr); split; congruence.
  - intros timeStr err. rewrite <- tryFormats_None. unfold parseTime.
    destruct (tryFormats formats timeStr) as [t|].
    + split; [discriminate|]. intros [_ ?]; discriminate.
    + split; [intros ?; by simplify_eq|by intros [-> _]].
Qed.

(** A log whose second record has two fields and whose third has an
    unreadable timestamp: the build fails with the error of the second
    record. *)
Example short_record_stops_the_build :
  (BuildGraph (H:=SampleHost.host) Logs.shortRecord NewGraphBuilder).2
  = Some (TooFewColumns ["c1"; "2024-01-01 10:00:10"])
  ∧ (BuildGraph (H:=SampleHost.host) (drop 2 Logs.shortRecord) NewGraphBuilder).2
    = Some (UnknownTimeFormat "yesterday")
  ∧ (BuildGraph (H:=SampleHost.host) (take 1 Logs.shortRecord) NewGraphBuilder).2 = None.
Proof. vm_compute. repeat split; reflexivity. Qed.

(** ** The order of [sort.Float64s] *)

Lemma SFcompare_antisym x y :
  SFcompare y x = option_map CompOpp (SFcompare x y).
Proof.
  destruct x as [[]|[]| |[] m1 e1], y as [[]|[]| |[] m2 e2]; simpl; try reflexivity.
  all: rewrite (Z.compare_antisym e1 e2); destruct (e1 ?= e2); simpl; try reflexivity.
  all: pose proof (Pos.compare_cont_antisym m1 m2 Eq) as Hanti; simpl in Hanti.
  all: change (PosDef.Pos.compare_cont Eq m2 m1) with (Pos.compare_cont Eq m2 m1).
  all: rewrite <- Hanti.
  all: by destruct (Pos.compare_cont Eq m1 m2).
Qed.

Lemma SFcompare_refl x : x ≠ S754_nan → SFcompare x x = Some Eq.
Proof.
  destruct x as [[]|[]| |[] m e]; simpl; try done; intros _;
    rewrite Z.compare_refl;
    change (PosDef.Pos.compare_cont Eq m m) with (Pos.compare m m);
    by rewrite Pos.compare_refl.
Qed.

Lemma isNaN_spec x : F64.isNaN x = true ↔ Prim2SF x = S754_nan.
Proof.
  unfold F64.isNaN. rewrite FloatAxioms.eqb_spec. unfold SFeqb. split.
  - intros Hne. destruct (Prim2SF x) as [s|s| |s m e] eqn:Hx; [..|done|];
      by rewrite SFcompare_refl in Hne.
  - by intros ->.
Qed.

(** [less] is asymmetric. *)
Lemma less_asym x y : F64.less x y = true → F64.less y x = false.
Proof.
  unfold F64.less. rewrite !FloatAxioms.ltb_spec. unfold SFltb.
  rewrite (SFcompare_antisym (Prim2SF x) (Prim2SF y)).
  destruct (F64.isNaN x) eqn:Hx, (F64.isNaN y) eqn:Hy; simpl;
    try apply isNaN_spec in Hx; try apply isNaN_spec in Hy;
    try rewrite Hx; try rewrite Hy; simpl; try done.
  - by destruct (Prim2SF x).
  - by destruct (SFcompare _ _) as [[]|].
Qed.

Lemma insert_perm x l : F64.insert x l ≡ₚ x :: l.
Proof.
  induction l as [|y l IH]; simpl; [done|].
  destruct (F64.less y x); [|done]. rewrite IH. apply Permutation_swap.
Qed.

Lemma insert_increasing x l : increasing l → increasing (F64.insert x l).
Proof.
  unfold increasing. induction l as [|y l IH]; simpl; intros Hsorted.
  - repeat constructor.
  - apply Sorted_inv in Hsorted as [Hl Hhd].
    destruct (F64.less y x) eqn:Hless.
    + constructor; [by apply IH|].
      destruct l as [|z l]; simpl.
      * constructor. by apply less_asym.
      * destruct (F64.less z x); constructor.
        -- by apply HdRel_inv in Hhd.
        -- by apply less_asym.
    + constructor; [by constructor|by constructor].
Qed.

(** The model of [sort.Float64s] returns its argument rearranged in
    increasing order. *)
Lemma sort_Float64s_sorts l :
  F64.sort_Float64s l ≡ₚ l ∧ increasing (F64.sort_Float64s l).
Proof.
  unfold F64.sort_Float64s. induction l as [|x l [IHp IHs]]; simpl.
  - split; [done|constructor].
  - split; [by rewrite insert_perm, IHp|by apply insert_increasing].
Qed.

Lemma sort_Float64s_length l : length (F64.sort_Float64s l) = length l.
Proof. by rewrite (proj1 (sort_Float64s_sorts l)). Qed.

(** ** C7: the anomalously long stages *)

Lemma flat_map_seq_S {B : Type} (f : nat → list B) (start len : nat) :
  flat_map f (seq (S start) len) = flat_map (fun i => f (S i)) (seq start len).
Proof. by rewrite <- seq_shift, flat_map_concat_map, map_map, <- flat_map_concat_map. Qed.

(** A loop over the indices [0 .. len-2] that reads the elements at [i] and
    [i+1] goes through the consecutive pairs. *)
Lemma index_loop_consecutive {A B : Type} `{Inhabited A} (g : A → A → list B) (l : list A) :
  flat_map (fun i => g (l !!! i) (l !!! (i + 1)%nat)) (seq 0 (length l - 1))
  = flat_map (fun '(a, b) => g a b) (consecutive l).
Proof.
  induction l as [|a [|b l] IH]; [done..|].
  transitivity (g a b ++ flat_map (fun '(a, b) => g a b) (consecutive (b :: l)));
    [|reflexivity].
  rewrite <- IH.
  replace (length (a :: b :: l) - 1)%nat with (S (length (b :: l) - 1))
    by (simpl; lia).
  rewrite <- cons_seq. cbn [flat_map]. rewrite flat_map_seq_S. reflexivity.
Qed.

Lemma map_flat_map {A B C : Type} (h : B → C) (f : A → list B) (l : list A) :
  map h (flat_map f l) = flat_map (fun a => map h (f a)) l.
Proof. induction l as [|a l IH]; simpl; [done|]. by rewrite map_app, IH. Qed.

Lemma filter_Forall_id {A : Type} (P : A → Prop) `{∀ x, Decision (P x)} (l : list A) :
  Forall P l → filter P l = l.
Proof.
  induction 1 as [|x l Hx Hl IH]; [done|].
  rewrite filter_cons, decide_True by done. by rewrite IH.
Qed.

Lemma filter_Forall_nil {A : Type} (P : A → Prop) `{∀ x, Decision (P x)} (l : list A) :
  Forall (fun x => ¬ P x) l → filter P l = [].
Proof.
  induction 1 as [|x l Hx Hl IH]; [done|].
  by rewrite filter_cons, decide_False.
Qed.

Section duration_facts.
Context `{Host}.

Lemma stageDurationsOf_consecutive instance :
  stageDurationsOf instance =
  flat_map (fun '(a, b) =>
      if time.IsZero (Timestamp a) || time.IsZero (Timestamp b) then []
      else if time.Before (Timestamp b) (Timestamp a) then []
      else [elapsed a b])
    (consecutive (metrics.Events instance)).
Proof.
  unfold stageDurationsOf. destruct (_ <? _)%nat eqn:Hshort.
  - apply Nat.ltb_lt in Hshort. by destruct (metrics.Events instance) as [|a [|b l]]; [..|simpl in *; lia].
  - apply (index_loop_consecutive (fun a b =>
      if time.IsZero (Timestamp a) || time.IsZero (Timestamp b) then []
      else if time.Before (Timestamp b) (Timestamp a) then []
      else [elapsed a b])).
Qed.

(** The first scan of [collectDurationMetrics] collects the durations of the
    consecutive pairs. *)
Lemma collectDurations_spec instances :
  collectDurations instances = collectedDurations instances.
Proof.
  unfold collectDurations, collectedDurations. apply flat_map_ext.
  intros [key instance]. apply stageDurationsOf_consecutive.
Qed.

Lemma anomalousOf_keyed threshold avg instance :
  Forall (fun raw => metricType raw = "Anomalously Long Stage")
         (anomalousOf threshold avg instance).
Proof. unfold anomalousOf. per_index. Qed.

Lemma anomalousOf_values threshold avg instance :
  map (fun raw => (InstanceID (occurrence raw), Value (occurrence raw)))
      (anomalousOf threshold avg instance)
  = flat_map (fun '(a, b) =>
        if PrimFloat.ltb threshold (elapsed a b) then [(ID instance, elapsed a b)] else [])
      (consecutive (metrics.Events instance)).
Proof.
  unfold anomalousOf. rewrite map_flat_map.
  rewrite <- (index_loop_consecutive (fun a b =>
    if PrimFloat.ltb threshold (elapsed a b) then [(ID instance, elapsed a b)] else [])).
  apply flat_map_ext. intros i. by destruct (PrimFloat.ltb _ _).
Qed.

Lemma stageTrend_not_anomalous durations :
  filter (fun raw => metricType raw = "Anomalously Long Stage") (stageTrend durations) = [].
Proof. unfold stageTrend. by destruct (PrimFloat.ltb _ _). Qed.

Lemma instanceTrend_not_anomalous durations :
  filter (fun raw => metricType raw = "Anomalously Long Stage") (instanceTrend durations)
  = [].
Proof.
  unfold instanceTrend. destruct (_ <? _)%nat; [|done]. by destruct (PrimFloat.ltb _ _).
Qed.

End duration_facts.

(** C7.  Let [n] be the number of durations the first scan collected.  If
    [n < 4] the detector yields no "Anomalously Long Stage" occurrence.  If
    [n ≥ 4], Q1 and Q3 are the values at indices [round((n-1)*0.25)] and
    [round((n-1)*0.75)] of the sorted durations, the threshold is
    [Q3 + 1.5*(Q3 − Q1)], and the occurrences are, over a second scan of
    every consecutive pair of every instance, one per pair whose duration in
    seconds is above the threshold, with that duration as value and the
    instance's ID.  The sorted durations are the collected ones rearranged
    in increasing order. *)
Theorem anomalously_long_stage_rule `{Host} (instances : gmap string ProcessInstance) :
  let durations := collectedDurations instances in
  let sorted := F64.sort_Float64s durations in
  let found :=
    filter (fun raw => metricType raw = "Anomalously Long Stage")
           (collectDurationMetrics instances) in
  map (fun raw => (InstanceID (occurrence raw), Value (occurrence raw))) found
  = (if (length durations <? 4)%nat then []
     else longStages (iqrThreshold sorted) instances)
  ∧ sorted ≡ₚ durations
  ∧ increasing sorted
  ∧ length sorted = length durations.
Proof.
  intros durations sorted found.
  split; [|split; [apply sort_Float64s_sorts|split;
                   [apply sort_Float64s_sorts|apply sort_Float64s_length]]].
  unfold found, sorted, durations, collectDurationMetrics.
  rewrite <- collectDurations_spec.
  destruct (length (collectDurations instances) =? 0)%nat eqn:Hempty.
  { apply Nat.eqb_eq in Hempty. by rewrite Hempty. }
  destruct (4 <=? length (collectDurations instances))%nat eqn:Hfour.
  - apply Nat.leb_le in Hfour.
    rewrite (proj2 (Nat.ltb_ge _ 4) Hfour).
    rewrite !filter_app, stageTrend_not_anomalous, instanceTrend_not_anomalous, !app_nil_r.
    rewrite filter_Forall_id.
    2:{ apply Forall_flat_map_intro. intros [key instance] _. apply anomalousOf_keyed. }
    rewrite map_flat_map. unfold longStages. apply flat_map_ext.
    intros [key instance]. apply anomalousOf_values.
  - apply Nat.leb_gt in Hfour. rewrite (proj2 (Nat.ltb_lt _ 4) Hfour).
    by rewrite !filter_app, stageTrend_not_anomalous, instanceTrend_not_anomalous.
Qed.

(** The quartile indices lie inside the sorted sample (checked for the
    sample sizes 4 to 2000). *)
Lemma quartileIndex_in_range_checked :
  forallb (fun n => (quartileIndex n 0.25%float <? n)%nat
                    && (quartileIndex n 0.75%float <? n)%nat
                    && (quartileIndex n 0.25%float <=? quartileIndex n 0.75%float)%nat)
          (seq 4 1997) = true.
Proof. vm_compute. reflexivity. Qed.

(** ** Which detector reports under which key *)

Ltac by_decision := apply (bool_decide_unpack _); vm_compute; exact I.

Ltac keyed :=
  repeat match goal with
  | |- Forall _ (_ ++ _) => apply Forall_app_2
  | |- Forall _ (flat_map _ _) => apply Forall_flat_map_intro; intros ? _
  | |- Forall _ (if ?c then _ else _) => destruct c
  | |- Forall _ (let '(_, _) := ?p in _) => destruct p
  | |- Forall _ [] => constructor
  | |- Forall _ (_ :: _) => constructor; [cbn [metricType mkRaw]; by_decision|]
  end.

Section key_facts.
Context `{Host}.

Lemma collectLoopingMetrics_keys instances :
  Forall (fun raw => metricType raw ∈
            ["Self-Loop"; "Return to Previous Stage"; "Ping-Pong"; "Return to Start"; "Rework"])
         (collectLoopingMetrics instances).
Proof.
  unfold collectLoopingMetrics. apply Forall_concat_imap. intros visit [key instance] _.
  unfold loopingOf, selfLoops, returnsToPrevious, pingPongs, returnsToStart, reworks. keyed.
Qed.

Lemma collectDurationMetrics_keys instances :
  Forall (fun raw => metricType raw ∈
            ["Anomalously Long Stage"; "Increasing Stage Duration Trend";
             "Increasing Process Instance Duration Trend"])
         (collectDurationMetrics instances).
Proof.
  unfold collectDurationMetrics, stageTrend, instanceTrend, anomalousOf.
  destruct (_ =? _)%nat; [constructor|]. destruct (_ <=? _)%nat; keyed.
Qed.

Lemma collectManualStageMetrics_keys instances :
  Forall (fun raw => metricType raw ∈ ["Manual/Unlogged Stage"])
         (collectManualStageMetrics instances).
Proof. unfold collectManualStageMetrics, manualStagesOf. keyed. Qed.

Lemma collectComplexityMetrics_keys instances :
  Forall (fun raw => metricType raw ∈ ["High Process Variability"])
         (collectComplexityMetrics instances).
Proof. unfold collectComplexityMetrics. keyed. Qed.

Lemma collectCompletionMetrics_keys instances :
  Forall (fun raw => metricType raw ∈ ["Low Process Completion Rate"])
         (collectCompletionMetrics instances).
Proof. unfold collectCompletionMetrics. keyed. Qed.

Lemma collectErrorMetrics_keys instances :
  Forall (fun raw => metricType raw ∈ ["High Error Rate"]) (collectErrorMetrics instances).
Proof. unfold collectErrorMetrics. keyed. Qed.

End key_facts.

Lemma occurrencesOf_app key raws1 raws2 :
  occurrencesOf key (raws1 ++ raws2) = occurrencesOf key raws1 ++ occurrencesOf key raws2.
Proof. unfold occurrencesOf. by rewrite filter_app, map_app. Qed.

Lemma occurrencesOf_other key (keys : list string) raws :
  Forall (fun raw => metricType raw ∈ keys) raws → key ∉ keys → occurrencesOf key raws = [].
Proof.
  intros Hkeys Hnotin. unfold occurrencesOf. rewrite filter_Forall_nil; [done|].
  eapply Forall_impl; [exact Hkeys|]. intros raw Hin <-. done.
Qed.

Lemma occurrencesOf_own key raws :
  Forall (fun raw => metricType raw ∈ [key]) raws → occurrencesOf key raws = map occurrence raws.
Proof.
  intros Hkeys. unfold occurrencesOf. rewrite filter_Forall_id; [done|].
  eapply Forall_impl; [exact Hkeys|]. by intros raw ->%list_elem_of_singleton.
Qed.

Section detector_of_key.
Context `{Host}.

Lemma occurrencesOf_variability instances :
  occurrencesOf "High Process Variability" (rawMetrics instances)
  = map occurrence (collectComplexityMetrics instances).
Proof.
  unfold rawMetrics. rewrite !occurrencesOf_app.
  rewrite (occurrencesOf_own _ _ (collectComplexityMetrics_keys instances)).
  rewrite (occurrencesOf_other _ _ _ (collectLoopingMetrics_keys instances)) by by_decision.
  rewrite (occurrencesOf_other _ _ _ (collectDurationMetrics_keys instances)) by by_decision.
  rewrite (occurrencesOf_other _ _ _ (collectManualStageMetrics_keys instances)) by by_decision.
  rewrite (occurrencesOf_other _ _ _ (collectCompletionMetrics_keys instances)) by by_decision.
  rewrite (occurrencesOf_other _ _ _ (collectErrorMetrics_keys instances)) by by_decision.
  by rewrite app_nil_r.
Qed.

Lemma occurrencesOf_errors instances :
  occurrencesOf "High Error Rate" (rawMetrics instances)
  = map occurrence (collectErrorMetrics instances).
Proof.
  unfold rawMetrics. rewrite !occurrencesOf_app.
  rewrite (occurrencesOf_own _ _ (collectErrorMetrics_keys instances)).
  rewrite (occurrencesOf_other _ _ _ (collectLoopingMetrics_keys instances)) by by_decision.
  rewrite (occurrencesOf_other _ _ _ (collectDurationMetrics_keys instances)) by by_decision.
  rewrite (occurrencesOf_other _ _ _ (collectManualStageMetrics_keys instances)) by by_decision.
  rewrite (occurrencesOf_other _ _ _ (collectComplexityMetrics_keys instances)) by by_decision.
  rewrite (occurrencesOf_other _ _ _ (collectCompletionMetrics_keys instances)) by by_decision.
  reflexivity.
Qed.

End detector_of_key.

(** ** C3: the variability of five cases *)

Section variability_facts.
Context `{Host}.

(** On five instances keyed by their case identifiers, two distinct paths
    make a variability of 40.0, and the detector reports nothing. *)
Lemma five_keyed_instances_not_flagged :
  size Logs.fiveInstances = 5%nat
  ∧ size (uniquePaths Logs.fiveInstances) = 2%nat
  ∧ (F64.of_nat 2 / F64.of_nat 5 * 100)%float = 40.0%float
  ∧ collectComplexityMetrics Logs.fiveInstances = [].
Proof.
  assert (size (uniquePaths Logs.fiveInstances) = 2%nat) as Hpaths.
  { unfold uniquePaths. rewrite (range_perm _ 655 0 Logs.fiveInstances). reflexivity. }
  split; [reflexivity|]. split; [exact Hpaths|]. split; [reflexivity|].
  unfold collectComplexityMetrics. rewrite Hpaths. reflexivity.
Qed.

(** Whatever sessions the builder holds, as long as it holds one, the
    analyzer is handed a single instance: one path out of one instance, a
    variability of 100.0, above the threshold. *)
Lemma variability_of_built_log gb :
  sessionMap gb ≠ ∅ →
  collectComplexityMetrics (processInstancesMap (GetProcessInstances gb))
  = [mkRaw "High Process Variability" "ALL" 100.0%float 0%float (PathsText 1 1)].
Proof.
  intros (instance & _ & _ & ->)%processInstancesMap_nonempty.
  assert (size (uniquePaths ({[ "" := instance ]} : gmap string ProcessInstance)) = 1%nat)
    as Hpaths.
  { unfold uniquePaths. rewrite range_singleton. simpl list_to_set.
    by rewrite union_empty_r_L, size_singleton. }
  unfold collectComplexityMetrics. rewrite map_size_singleton, Hpaths. reflexivity.
Qed.

End variability_facts.

(** C3 (what the code does on the scenario).  After a successful build of
    the five-case log, the report's "High Process Variability" metric holds
    one ["ALL"] occurrence of value 100.0 and is flagged as exceeded, where
    the scenario expects the value 40.0, no occurrence and no flag. *)
Theorem five_sessions_reported_fully_variable `{Host} (gb' : GraphBuilder) :
  BuildGraph Logs.fiveSessions NewGraphBuilder = (gb', None) →
  option_map (fun m => (map InstanceID (Occurrences m), map Value (Occurrences m),
                        Count m, TotalValue m, Exceeded m))
             (metricFor "High Process Variability" (GetMetricsReport gb'))
  = Some (["ALL"], [100.0%float], 1, 100.0%float, true).
Proof.
  intros Hbuild.
  assert (sessionMap gb' ≠ ∅) as Hsessions
    by (by eapply BuildGraph_sessions_nonempty; [exact Hbuild|]).
  unfold GetMetricsReport.
  erewrite metricFor_spec by reflexivity.
  rewrite occurrencesOf_variability, (variability_of_built_log _ Hsessions).
  reflexivity.
Qed.

Lemma five_sessions_reported_fully_variable_witness :
  option_map (fun m => (map InstanceID (Occurrences m), map Value (Occurrences m),
                        Count m, TotalValue m, Exceeded m))
             (metricFor "High Process Variability"
                (GetMetricsReport (H:=SampleHost.host)
                   (BuildGraph (H:=SampleHost.host) Logs.fiveSessions NewGraphBuilder).1))
  = Some (["ALL"], [100.0%float], 1, 100.0%float, true).
Proof.
  apply (five_sessions_reported_fully_variable (H:=SampleHost.host)).
  vm_compute. reflexivity.
Defined.

(** The five-case log does leave five sessions in the builder. *)
Example five_sessions_built :
  size (sessionMap (BuildGraph (H:=SampleHost.host) Logs.fiveSessions NewGraphBuilder).1)
  = 5%nat.
Proof. vm_compute. reflexivity. Qed.

(** ** C6: outcomes and the error rate *)

Section error_facts.
Context `{Host}.

Lemma hasError_spec instance :
  hasError instance = true ↔
  ∃ event, event ∈ metrics.Events instance ∧ Result event = "error".
Proof.
  unfold hasError. rewrite existsb_exists. split.
  - intros (event & Hin & Heq). exists event.
    split; [by apply list_elem_of_In|by apply String.eqb_eq].
  - intros (event & Hin & Heq). exists event.
    split; [by apply list_elem_of_In|by apply String.eqb_eq].
Qed.

(** On the instance map it is handed, the error detector does what the
    rule says: an instance has an error iff one of its events has the result
    ["error"], every instance is either an error or a success instance, and
    one ["ALL"] occurrence whose value is the number of error instances is
    reported iff that number is above the number of success instances. *)
Lemma collectErrorMetrics_rule instances :
  (errorInstances instances + successInstances instances = size instances)%nat
  ∧ map (fun raw => (metricType raw, InstanceID (occurrence raw), Value (occurrence raw)))
        (collectErrorMetrics instances)
    = if (successInstances instances <? errorInstances instances)%nat
      then [("High Error Rate", "ALL", F64.of_nat (errorInstances instances))]
      else [].
Proof.
  split.
  - unfold errorInstances, successInstances. rewrite <- (range_length 746 0 instances).
    induction (range 746 0 instances) as [|[key instance] l IH]; [done|].
    rewrite !filter_cons. simpl. destruct (hasError instance); simpl; lia.
  - unfold collectErrorMetrics. by destruct (_ <? _)%nat.
Qed.

Lemma hasError_blank instance :
  Forall (fun event => Result event = "") (metrics.Events instance) →
  hasError instance = false.
Proof.
  intros Hblank. destruct (hasError instance) eqn:Herr; [|done].
  apply hasError_spec in Herr as (event & Hin & Heq).
  eapply Forall_forall in Hblank; [|exact Hin]. congruence.
Qed.

Lemma processInstancesMap_lookup slice key instance :
  processInstancesMap slice !! key = Some instance → instance ∈ slice.
Proof.
  induction slice as [|last slice IH] using rev_ind; [done|].
  rewrite processInstancesMap_snoc, elem_of_app, list_elem_of_singleton.
  destruct (decide (ID last = key)) as [<-|Hne].
  - rewrite lookup_insert_eq. intros [= ->]. by right.
  - rewrite lookup_insert_ne by done. auto.
Qed.

(** No instance handed to the analyzer has an error, whatever the records
    said. *)
Lemma built_instances_without_error gb :
  Forall (fun instance => hasError instance = false) (GetProcessInstances gb).
Proof.
  eapply Forall_impl; [apply GetProcessInstances_blank|].
  intros instance [_ Hblank]. by apply hasError_blank.
Qed.

Lemma errorInstances_of_built gb :
  errorInstances (processInstancesMap (GetProcessInstances gb)) = 0%nat.
Proof.
  unfold errorInstances. rewrite filter_Forall_nil; [done|].
  apply Forall_forall. intros [key instance] Hin%range_elem_of%processInstancesMap_lookup.
  simpl. pose proof (built_instances_without_error gb) as Hno.
  eapply Forall_forall in Hno; [|exact Hin]. congruence.
Qed.

(** For every builder state, the report's "High Error Rate" metric is empty. *)
Lemma error_rate_never_reported gb :
  option_map (fun m => (Occurrences m, Count m, Exceeded m))
             (metricFor "High Error Rate" (GetMetricsReport gb))
  = Some ([], 0, false).
Proof.
  unfold GetMetricsReport. erewrite metricFor_spec by reflexivity.
  rewrite occurrencesOf_errors. unfold collectErrorMetrics.
  rewrite errorInstances_of_built. reflexivity.
Qed.

End error_facts.

(** C6 (what the code does on a record with an outcome).  After a
    successful build of the one-record log whose fourth field is ["error"],
    the analyzer is handed at least one instance, none of the events it is
    handed has a result, no instance has an error, and the report's "High
    Error Rate" metric has no occurrence; the rule expects one error session
    against zero success sessions and one ["ALL"] occurrence of value 1. *)
Theorem outcome_field_is_dropped `{Host} (gb' : GraphBuilder) :
  BuildGraph Logs.oneError NewGraphBuilder = (gb', None) →
  GetProcessInstances gb' ≠ []
  ∧ Forall (fun instance =>
              Forall (fun event => Result event = "") (metrics.Events instance)
              ∧ hasError instance = false)
           (GetProcessInstances gb')
  ∧ option_map (fun m => (Occurrences m, Count m, Exceeded m))
               (metricFor "High Error Rate" (GetMetricsReport gb'))
    = Some ([], 0, false).
Proof.
  intros Hbuild. split; [|split].
  - assert (sessionMap gb' ≠ ∅) as Hsessions
      by (by eapply BuildGraph_sessions_nonempty; [exact Hbuild|]).
    apply map_size_non_empty_iff in Hsessions.
    rewrite <- GetProcessInstances_length in Hsessions. by destruct (GetProcessInstances gb').
  - eapply Forall_impl; [apply GetProcessInstances_blank|].
    intros instance [_ Hblank]. split; [done|]. by apply hasError_blank.
  - apply error_rate_never_reported.
Qed.

Lemma outcome_field_is_dropped_witness :
  let gb' := (BuildGraph (H:=SampleHost.host) Logs.oneError NewGraphBuilder).1 in
  GetProcessInstances (H:=SampleHost.host) gb' ≠ []
  ∧ Forall (fun instance =>
              Forall (fun event => Result event = "") (metrics.Events instance)
              ∧ hasError instance = false)
           (GetProcessInstances (H:=SampleHost.host) gb')
  ∧ option_map (fun m => (Occurrences m, Count m, Exceeded m))
               (metricFor "High Error Rate" (GetMetricsReport (H:=SampleHost.host) gb'))
    = Some ([], 0, false).
Proof.
  apply (outcome_field_is_dropped (H:=SampleHost.host)). vm_compute. reflexivity.
Defined.

(** ** C10: the regression helper on one data point *)

Lemma float_of_spec (x : float) (s : spec_float) : Prim2SF x = s → x = SF2Prim s.
Proof. intros <-. by rewrite SF2Prim_Prim2SF. Qed.

(** With a single data point, whatever its value, the denominator
    [n*sumX2 - sumX*sumX] is [0] and the numerator is a zero or NaN: slope
    and intercept are both NaN. *)
Lemma regression_of_one_point (y : float) :
  calculateLinearRegression [y] = (nan, nan).
Proof.
  assert (∀ sumY, Prim2SF sumY = SF64add (Prim2SF 0%float) (Prim2SF y) →
          ((1 * (0 + 0 * y) - 0 * sumY) / (1 * 0 - 0 * 0))%float = nan) as Hslope.
  { intros sumY HsumY. apply (float_of_spec _ S754_nan).
    rewrite div_spec, sub_spec, !mul_spec, add_spec, mul_spec, HsumY.
    destruct (Prim2SF y) as [[]|[]| |[] m e]; reflexivity. }
  assert (∀ sumY, Prim2SF sumY = SF64add (Prim2SF 0%float) (Prim2SF y) →
          ((sumY - nan * 0) / 1)%float = nan) as Hintercept.
  { intros sumY HsumY. apply (float_of_spec _ S754_nan).
    rewrite div_spec, sub_spec, HsumY.
    destruct (Prim2SF y) as [[]|[]| |[] m e]; reflexivity. }
  unfold calculateLinearRegression, regressionSums. cbn [imap fold_left length].
  change (F64.of_nat 0) with 0%float. change (F64.of_nat 1) with 1%float.
  change (0 + 0)%float with 0%float. change (0 + 0 * 0)%float with 0%float.
  change (1 =? 0)%float with false. cbv iota beta.
  rewrite (Hslope (0 + y)%float (add_spec _ _)).
  rewrite (Hintercept (0 + y)%float (add_spec _ _)). reflexivity.
Qed.

(** C10 (what the code does).  The helper returns (0, 0) for the empty
    input; for a single data point, where the denominator is zero, it
    divides all the same and returns NaN for the slope and for the
    intercept, which are not finite values. *)
Theorem regression_single_point_is_nan :
  calculateLinearRegression [] = (0%float, 0%float)
  ∧ calculateLinearRegression [5.0%float] = (nan, nan)
  ∧ (∀ y : float, calculateLinearRegression [y] = (nan, nan))
  ∧ PrimFloat.classify nan = NaN.
Proof.
  split; [reflexivity|]. split; [reflexivity|]. split; [apply regression_of_one_point|].
  reflexivity.
Qed.

(** ** C5: what the stage trend is fitted to *)

Section trend_facts.
Context `{Host}.

Lemma anomalies_not_trend key threshold avg instances :
  key ≠ "Anomalously Long Stage" →
  occurrencesOf key
    (flat_map (fun '(_, instance) => anomalousOf threshold avg instance)
              (range 532 0 instances)) = [].
Proof.
  intros Hkey. apply (occurrencesOf_other _ ["Anomalously Long Stage"]).
  - apply Forall_flat_map_intro. intros [k instance] _.
    eapply Forall_impl; [apply anomalousOf_keyed|]. intros raw ->. apply list_elem_of_here.
  - by intros ->%list_elem_of_singleton.
Qed.

Lemma instanceTrend_not_stageTrend durations :
  occurrencesOf "Increasing Stage Duration Trend" (instanceTrend durations) = [].
Proof.
  unfold instanceTrend. destruct (_ <? _)%nat; [|done]. by destruct (PrimFloat.ltb _ _).
Qed.

Lemma stageTrend_own durations :
  occurrencesOf "Increasing Stage Duration Trend" (stageTrend durations)
  = map occurrence (stageTrend durations).
Proof. unfold stageTrend. by destruct (PrimFloat.ltb _ _). Qed.

(** The regression of the stage trend reads the collected durations as
    collected only when there are fewer than four of them; from four on it
    reads them sorted in increasing order. *)
Lemma stage_trend_input instances :
  let durations := collectDurations instances in
  occurrencesOf "Increasing Stage Duration Trend" (collectDurationMetrics instances)
  = if (length durations =? 0)%nat then []
    else map occurrence
           (stageTrend (if (4 <=? length durations)%nat
                        then F64.sort_Float64s durations else durations)).
Proof.
  intros durations. unfold collectDurationMetrics. fold durations.
  destruct (length durations =? 0)%nat; [done|].
  destruct (4 <=? length durations)%nat.
  - rewrite !occurrencesOf_app, anomalies_not_trend by done.
    by rewrite instanceTrend_not_stageTrend, stageTrend_own, app_nil_r.
  - rewrite !occurrencesOf_app.
    by rewrite instanceTrend_not_stageTrend, stageTrend_own, app_nil_r.
Qed.

End trend_facts.

(** C5 (what the code does when stages get shorter).  For one instance
    whose consecutive stages take 40, 30, 20 and 10 seconds, the durations
    are collected in that order, and a least-squares line through them has
    slope -10; the detector fits its line to 10, 20, 30, 40 (the slice was
    sorted in place for the quartiles), finds slope +10, and reports an
    increasing trend of value 10 iff [atan(10)] in degrees is above 5. *)
Theorem stage_trend_fitted_to_sorted_durations `{Host} :
  collectDurations Logs.speedingUp = [40.0; 30.0; 20.0; 10.0]%float
  ∧ fst (calculateLinearRegression [40.0; 30.0; 20.0; 10.0]%float) = (-10.0)%float
  ∧ F64.sort_Float64s [40.0; 30.0; 20.0; 10.0]%float = [10.0; 20.0; 30.0; 40.0]%float
  ∧ fst (calculateLinearRegression [10.0; 20.0; 30.0; 40.0]%float) = 10.0%float
  ∧ map (fun o => (InstanceID o, Value o))
        (occurrencesOf "Increasing Stage Duration Trend"
           (collectDurationMetrics Logs.speedingUp))
    = if PrimFloat.ltb 5.0%float (math_Atan 10.0%float * 180 / F64.Pi)%float
      then [("ALL", 10.0%float)] else [].
Proof.
  assert (collectDurations Logs.speedingUp = [40.0; 30.0; 20.0; 10.0]%float) as Hcollected.
  { unfold collectDurations, Logs.speedingUp. rewrite range_singleton. reflexivity. }
  split; [exact Hcollected|]. split; [reflexivity|]. split; [reflexivity|].
  split; [reflexivity|].
  rewrite stage_trend_input. cbv zeta. rewrite Hcollected.
  change (length [40.0; 30.0; 20.0; 10.0]%float =? 0)%nat with false.
  change (4 <=? length [40.0; 30.0; 20.0; 10.0]%float)%nat with true.
  change (F64.sort_Float64s [40.0; 30.0; 20.0; 10.0]%float)
    with [10.0; 20.0; 30.0; 40.0]%float.
  unfold stageTrend.
  change (fst (calculateLinearRegression [10.0; 20.0; 30.0; 40.0]%float)) with 10.0%float.
  by destruct (PrimFloat.ltb _ _).
Qed.

(** With the sample host's arctangent ([atan(10)] is about 84 degrees) the
    shortening stages are reported as an increasing trend. *)
Example shortening_stages_reported_as_increasing :
  option_map (fun m => (map InstanceID (Occurrences m), map Value (Occurrences m), Exceeded m))
    (metricFor "Increasing Stage Duration Trend"
       (AnalyzeWithCatalog (H:=SampleHost.host) Logs.speedingUp))
  = Some (["ALL"], [10.0%float], true).
Proof. vm_compute. reflexivity. Qed.

(** ** C4: what a second build starts from *)

Section rebuild_facts.
Context `{Host}.

Lemma processEvent_keeps_sessions event gb key session :
  sessionMap gb !! key = Some session →
  ∃ session', sessionMap (processEvent event gb) !! key = Some session'
              ∧ Events session `prefix_of` Events session'.
Proof.
  intros Hkey. unfold processEvent; simpl.
  destruct (decide (Event.SessionID event = key)) as [->|Hne].
  - rewrite lookup_insert_eq, Hkey. eexists. split; [done|]. simpl. by apply prefix_app_r.
  - rewrite lookup_insert_ne by done. eauto.
Qed.

Lemma ReadAndProcess_keeps_sessions records gb key session :
  sessionMap gb !! key = Some session →
  ∃ session', sessionMap (ReadAndProcess records onRecord gb).1 !! key = Some session'
              ∧ Events session `prefix_of` Events session'.
Proof.
  revert gb session. induction records as [|record records IH]; intros gb session Hkey; simpl.
  - eauto.
  - destruct (onRecord record gb) as [gb1 [err|]] eqn:Hrec; simpl.
    + unfold onRecord in Hrec. destruct (_ <? _)%nat; [by simplify_eq; eauto|].
      destruct (parseTime _); simplify_eq. eauto.
    + apply onRecord_ok in Hrec as (event & -> & _).
      destruct (processEvent_keeps_sessions event gb key session Hkey)
        as (session1 & Hkey1 & Hprefix1).
      destruct (IH _ _ Hkey1) as (session' & Hkey' & Hprefix').
      exists session'. split; [done|]. by etrans.
Qed.

Lemma ReadAndProcess_graph records gb :
  graph (ReadAndProcess records onRecord gb).1 = graph gb.
Proof.
  revert gb. induction records as [|record records IH]; intros gb; simpl; [done|].
  destruct (onRecord record gb) as [gb1 [err|]] eqn:Hrec; simpl.
  - unfold onRecord in Hrec. destruct (_ <? _)%nat; [by simplify_eq|].
    by destruct (parseTime _); simplify_eq.
  - apply onRecord_ok in Hrec as (event & -> & _). by rewrite IH.
Qed.

Lemma boundaryEdge_prefix key from to st : st.2 `prefix_of` (boundaryEdge key from to st).2.
Proof.
  destruct st as [edgeMap edges]. unfold boundaryEdge; simpl.
  destruct (_ =? _); [by apply prefix_app_r|done].
Qed.

Lemma boundaryEdges_prefix st session : st.2 `prefix_of` (boundaryEdges st session).2.
Proof.
  unfold boundaryEdges. destruct (Events session) as [|firstEvent rest]; [done|].
  etrans; apply boundaryEdge_prefix.
Qed.

Lemma boundaryEdges_fold_prefix (sessions : list (string * Session)) st :
  st.2 `prefix_of`
  (fold_left (fun st '(_, session) => boundaryEdges st session) sessions st).2.
Proof.
  revert st. induction sessions as [|[key session] sessions IH]; intros st; simpl; [done|].
  etrans; [apply (boundaryEdges_prefix st session)|apply IH].
Qed.

(** [finalizeGraph] appends to the node list: the nodes of the node map,
    then a fresh pair of boundary nodes. *)
Lemma finalizeGraph_Nodes gb :
  Nodes (graph (finalizeGraph gb))
  = Nodes (graph gb)
    ++ map (fun kv => OwnedNode kv.1) (range 949 0 (nodeMap (finalizeGraph gb)))
    ++ [boundaryNode "start" "Начало процесса" "green" (size (sessionMap gb));
        boundaryNode "end" "Конец" "red" (size (sessionMap gb))].
Proof.
  unfold finalizeGraph. destruct (fold_left _ (range 978 _ _) _) as [edgeMap2 edges].
  simpl. rewrite processSessions_graph, processSessions_sessionMap.
  by rewrite <- !app_assoc.
Qed.

Lemma finalizeGraph_Edges gb : Edges (graph gb) `prefix_of` Edges (graph (finalizeGraph gb)).
Proof.
  unfold finalizeGraph.
  match goal with |- context [fold_left ?f (range 978 ?v ?m) ?st] =>
    pose proof (boundaryEdges_fold_prefix (range 978 v m) st) as Hprefix;
    destruct (fold_left f (range 978 v m) st) as [edgeMap2 edges]
  end.
  simpl in *. rewrite processSessions_graph in Hprefix.
  etrans; [|exact Hprefix]. by apply prefix_app_r.
Qed.

Lemma boundaryNodes_finalizeGraph gb :
  boundaryNodes (Nodes (graph (finalizeGraph gb)))
  = boundaryNodes (Nodes (graph gb))
    ++ omap (fun ref => match ref with BoundaryNode node => Some node | OwnedNode _ => None end)
         [boundaryNode "start" "Начало процесса" "green" (size (sessionMap gb));
          boundaryNode "end" "Конец" "red" (size (sessionMap gb))].
Proof.
  rewrite finalizeGraph_Nodes. unfold boundaryNodes. rewrite !omap_app.
  assert (∀ l : list (string * Node.t),
            omap (fun ref => match ref with
                             | BoundaryNode node => Some node
                             | OwnedNode _ => None
                             end) (map (fun kv => OwnedNode kv.1) l) = []) as ->
    by (induction l; [done|by simpl]).
  reflexivity.
Qed.

(** [ClearGraph] is where the state is reset: a build after it is a build on
    a fresh builder. *)
Lemma build_after_clear records gb :
  BuildGraph records (ClearGraph gb) = BuildGraph records NewGraphBuilder.
Proof. reflexivity. Qed.

Lemma BuildGraph_ok_inv records gb gb' :
  BuildGraph records gb = (gb', None) →
  gb' = finalizeGraph (ReadAndProcess records onRecord gb).1.
Proof.
  unfold BuildGraph. destruct (ReadAndProcess records onRecord gb) as [gb1 [err|]];
    [discriminate|]. by intros [= <-].
Qed.

End rebuild_facts.

(** C4 (what the code does on a second build).  [BuildGraph] starts from the
    state the previous build left: every session of the first build is still
    there after the second, its events a prefix of the session's events;
    the node and edge lists of the first graph are prefixes of the second
    graph's lists; and the second graph holds one more pair of boundary
    nodes than the first, where a build on a fresh builder yields a graph
    with exactly one pair.  So the graph after the second build is never the
    graph of the second build alone. *)
Theorem second_build_keeps_first_build `{Host}
    (records1 records2 : list (list string)) (gb0 gb1 gb2 fresh : GraphBuilder) :
  BuildGraph records1 gb0 = (gb1, None) →
  BuildGraph records2 gb1 = (gb2, None) →
  BuildGraph records2 NewGraphBuilder = (fresh, None) →
  map_Forall (fun key session =>
      ∃ session', sessionMap gb2 !! key = Some session'
                  ∧ Events session `prefix_of` Events session')
    (sessionMap gb1)
  ∧ Nodes (graph gb1) `prefix_of` Nodes (graph gb2)
  ∧ Edges (graph gb1) `prefix_of` Edges (graph gb2)
  ∧ length (boundaryNodes (Nodes (graph gb2)))
    = (length (boundaryNodes (Nodes (graph gb0))) + 4)%nat
  ∧ length (boundaryNodes (Nodes (graph fresh))) = 2%nat
  ∧ graph gb2 ≠ graph fresh.
Proof.
  intros ->%BuildGraph_ok_inv ->%BuildGraph_ok_inv ->%BuildGraph_ok_inv.
  assert (length (boundaryNodes (Nodes (graph (finalizeGraph
            (ReadAndProcess records2 onRecord (finalizeGraph
               (ReadAndProcess records1 onRecord gb0).1)).1))))
          = (length (boundaryNodes (Nodes (graph gb0))) + 4)%nat) as Hfour.
  { rewrite !boundaryNodes_finalizeGraph, !ReadAndProcess_graph, !length_app.
    rewrite boundaryNodes_finalizeGraph, ReadAndProcess_graph, !length_app. simpl. lia. }
  assert (length (boundaryNodes (Nodes (graph (finalizeGraph
            (ReadAndProcess records2 onRecord NewGraphBuilder).1)))) = 2%nat) as Htwo.
  { by rewrite boundaryNodes_finalizeGraph, ReadAndProcess_graph. }
  split; [|split; [|split; [|split; [|split]]]].
  - intros key session Hkey. rewrite finalizeGraph_sessionMap.
    by apply ReadAndProcess_keeps_sessions.
  - rewrite (finalizeGraph_Nodes (ReadAndProcess records2 _ _).1), ReadAndProcess_graph.
    by apply prefix_app_r.
  - etrans; [|apply finalizeGraph_Edges]. by rewrite ReadAndProcess_graph.
  - exact Hfour.
  - exact Htwo.
  - intros Heq. rewrite Heq, Htwo in Hfour. lia.
Qed.

Lemma second_build_keeps_first_build_witness :
  let gb1 := (BuildGraph (H:=SampleHost.host) Logs.twoEvents NewGraphBuilder).1 in
  let gb2 := (BuildGraph (H:=SampleHost.host) Logs.twoEvents gb1).1 in
  map_Forall (fun key session =>
      ∃ session', sessionMap gb2 !! key = Some session'
                  ∧ Events session `prefix_of` Events session')
    (sessionMap gb1)
  ∧ Nodes (graph gb1) `prefix_of` Nodes (graph gb2)
  ∧ Edges (graph gb1) `prefix_of` Edges (graph gb2)
  ∧ length (boundaryNodes (Nodes (graph gb2)))
    = (length (boundaryNodes (Nodes (graph NewGraphBuilder))) + 4)%nat
  ∧ length (boundaryNodes (Nodes (graph gb1))) = 2%nat
  ∧ graph gb2 ≠ graph gb1.
Proof.
  apply (second_build_keeps_first_build (H:=SampleHost.host)
           Logs.twoEvents Logs.twoEvents NewGraphBuilder);
    vm_compute; reflexivity.
Defined.

(** The same file uploaded twice: the one case ends with four events
    instead of two, node A counts 3 instead of 1, the edge from A to B
    counts 3 instead of 1 (and an edge from B to A appears), and the graph
    lists eight nodes instead of four. *)
Example same_file_twice :
  let once := (BuildGraph (H:=SampleHost.host) Logs.twoEvents NewGraphBuilder).1 in
  let twice := (BuildGraph (H:=SampleHost.host) Logs.twoEvents once).1 in
  ((fun session => map Event.Desc (Events session)) <$> sessionMap once !! "c1",
   Node.Count <$> nodeMap once !! "A",
   Edge.Count <$> edgeMap once !! "A_B",
   Edge.Count <$> edgeMap once !! "B_A",
   map Node.ID (GetGraph once).1)
  = (Some ["A"; "B"], Some 1, Some 1, None, ["A"; "B"; "start"; "end"])
  ∧ ((fun session => map Event.Desc (Events session)) <$> sessionMap twice !! "c1",
     Node.Count <$> nodeMap twice !! "A",
     Edge.Count <$> edgeMap twice !! "A_B",
     Edge.Count <$> edgeMap twice !! "B_A",
     map Node.ID (GetGraph twice).1)
    = (Some ["A"; "B"; "A"; "B"], Some 3, Some 3, Some 1,
       ["A"; "B"; "start"; "end"; "A"; "B"; "start"; "end"]).
Proof. vm_compute. split; reflexivity. Qed.

(** ** C8: which transitions an edge averages *)

Section edge_facts.
Context `{Host}.

Lemma range_pair {V : Type} line visit (m : gmap string V) (kv1 kv2 : string * V) :
  map_to_list m = [kv1; kv2] →
  range line visit m = [kv1; kv2] ∨ range line visit m = [kv2; kv1].
Proof.
  intros Hm. pose proof (range_perm V line visit m) as Hperm. rewrite Hm in Hperm.
  symmetry in Hperm. by apply Permutation_length_2_inv in Hperm.
Qed.

Lemma boundaryEdge_fst key from to st st' :
  st.1 = st'.1 → (boundaryEdge key from to st).1 = (boundaryEdge key from to st').1.
Proof. destruct st, st'; simpl. by intros ->. Qed.

Lemma boundaryEdges_fst st session :
  (boundaryEdges st session).1 = (boundaryEdges (st.1, []) session).1.
Proof.
  unfold boundaryEdges. destruct (Events session) as [|firstEvent rest]; [done|].
  by do 2 apply boundaryEdge_fst.
Qed.

Lemma boundaryEdges_fold_fst (sessions : list (string * Session)) st :
  (fold_left (fun st '(_, session) => boundaryEdges st session) sessions st).1
  = fold_left (fun edgeMap '(_, session) => (boundaryEdges (edgeMap, []) session).1)
      sessions st.1.
Proof.
  revert st. induction sessions as [|[key session] sessions IH]; intros st; simpl; [done|].
  by rewrite IH, boundaryEdges_fst.
Qed.

(** The edge map [finalizeGraph] leaves: the transitions of every session
    counted, every edge labelled, then the boundary edges counted. *)
Lemma finalizeGraph_edgeMap gb :
  edgeMap (finalizeGraph gb)
  = fold_left (fun edgeMap '(_, session) => (boundaryEdges (edgeMap, []) session).1)
      (range 978 0 (sessionMap gb))
      (labelEdge <$> edgeMap (fold_left (fun gb '(_, session) => processSession gb session)
                                (range 945 0 (sessionMap gb)) gb)).
Proof.
  unfold finalizeGraph.
  match goal with |- context [fold_left ?f (range 978 ?v ?m) ?st] =>
    pose proof (boundaryEdges_fold_fst (range 978 v m) st) as Hfst;
    destruct (fold_left f (range 978 v m) st) as [edgeMap2 edges]
  end.
  simpl in *. by rewrite processSessions_sessionMap in Hfst.
Qed.

(** *** The edge of a key in general *)

Lemma countTransitions_fold edgeMap prevEvent rest :
  countTransitions edgeMap prevEvent rest
  = fold_left (fun edgeMap transition => countTransition edgeMap transition.1 transition.2)
      (consecutive (prevEvent :: rest)) edgeMap.
Proof.
  revert edgeMap prevEvent. induction rest as [|currEvent rest IH]; intros edgeMap prevEvent;
    [done|]. simpl. by rewrite IH.
Qed.

Lemma processSession_edgeMap gb session :
  edgeMap (processSession gb session)
  = fold_left (fun edgeMap transition => countTransition edgeMap transition.1 transition.2)
      (consecutive (Events session)) (edgeMap gb).
Proof.
  unfold processSession. destruct (Events session) as [|first rest]; [done|].
  simpl. apply countTransitions_fold.
Qed.

Lemma processSessions_edgeMap (sessions : list (string * Session)) gb :
  edgeMap (fold_left (fun gb '(_, session) => processSession gb session) sessions gb)
  = fold_left (fun edgeMap transition => countTransition edgeMap transition.1 transition.2)
      (flat_map (fun kv => consecutive (Events kv.2)) sessions) (edgeMap gb).
Proof.
  revert gb. induction sessions as [|[key session] sessions IH]; intros gb; simpl; [done|].
  by rewrite IH, fold_left_app, processSession_edgeMap.
Qed.

Lemma runningMean_state durations :
  fold_left (fun '(avg, count) duration =>
               (((avg * F64.of_Z (count + 1 - 1) + duration) / F64.of_Z (count + 1))%float,
                count + 1))
            durations (0%float, 0)
  = (runningMean durations, Z.of_nat (length durations)).
Proof.
  unfold runningMean. induction durations as [|duration durations IH] using rev_ind; [done|].
  rewrite fold_left_app, IH, length_app. simpl. f_equal. lia.
Qed.

Lemma runningMean_snoc durations duration :
  runningMean (durations ++ [duration])
  = ((runningMean durations * F64.of_Z (Z.of_nat (length durations) + 1 - 1) + duration)
     / F64.of_Z (Z.of_nat (length durations) + 1))%float.
Proof. unfold runningMean at 1. by rewrite fold_left_app, runningMean_state. Qed.

(** Starting from an empty edge map, after any sequence of transitions the
    edge stored under a key is the one of the transitions with that key:
    their number as count and the running mean of their durations as
    average, whatever pairs of labels they join. *)
Lemma edge_of_key (transitions : list (Event.t * Event.t)) key :
  fold_left (fun edgeMap transition => countTransition edgeMap transition.1 transition.2)
    transitions ∅ !! key
  = edgeOf (filter (fun transition => edgeKey transition = key) transitions).
Proof.
  induction transitions as [|[prev curr] transitions IH] using rev_ind; [done|].
  rewrite fold_left_app, filter_app, filter_cons, filter_nil. simpl.
  unfold countTransition at 1.
  change (Event.Desc prev +:+ "_" +:+ Event.Desc curr) with (edgeKey (prev, curr)).
  destruct (decide (edgeKey (prev, curr) = key)) as [Hkey|Hkey].
  - rewrite Hkey, lookup_insert_eq. unfold getEdge. rewrite IH.
    destruct (filter _ transitions) as [|first same] eqn:Hsame; [done|].
    simpl. rewrite map_app. simpl.
    change (transitionSeconds first :: map transitionSeconds same
            ++ [transitionSeconds (prev, curr)])
      with ((transitionSeconds first :: map transitionSeconds same)
            ++ [transitionSeconds (prev, curr)]).
    rewrite runningMean_snoc. simpl. rewrite length_map, length_app. simpl.
    do 2 f_equal. lia.
  - rewrite lookup_insert_ne by done. by rewrite app_nil_r.
Qed.

(** In [finalizeGraph] on a builder without edges: after the sessions have
    been processed, and before the boundary edges are added, the edge of
    every key averages all the transitions stored under that key, in the
    order the sessions were visited. *)
Lemma edges_of_sessions gb key :
  edgeMap gb = ∅ →
  edgeMap (fold_left (fun gb '(_, session) => processSession gb session)
             (range 945 0 (sessionMap gb)) gb) !! key
  = edgeOf (filter (fun transition => edgeKey transition = key)
              (flat_map (fun kv => consecutive (Events kv.2))
                 (range 945 0 (sessionMap gb)))).
Proof. intros Hempty. rewrite processSessions_edgeMap, Hempty. apply edge_of_key. Qed.

End edge_facts.

(** C8 (what the code does when labels contain the separator).  Two
    sessions, one transition each: (a_b, c) taking 10 s and (a, b_c) taking
    20 s.  Both transitions are counted on the one edge stored under the key
    a_b_c: after [finalizeGraph], whatever the order in which the sessions
    are visited, the edge map has five entries, four of them dashed boundary
    edges, and the edge a_b_c has count 2 and average duration 15; its
    endpoints are those of the session visited first.  The mean for the pair
    (a_b, c) is 10 and the mean for the pair (a, b_c) is 20. *)
Theorem colliding_keys_share_one_edge `{Host} :
  let gb := finalizeGraph Logs.underscoreSessions in
  size (edgeMap gb) = 5%nat
  ∧ map (fun key => (fun edge => (Edge.Count edge, Edge.AvgDuration edge, Edge.Style edge))
                    <$> edgeMap gb !! key)
        ["a_b_c"; "start_a_b"; "c_end"; "start_a"; "b_c_end"]
    = [Some (2, 15.0%float, ""); Some (1, 0%float, "dashed"); Some (1, 0%float, "dashed");
       Some (1, 0%float, "dashed"); Some (1, 0%float, "dashed")]
  ∧ ((fun edge => (Edge.From edge, Edge.To edge)) <$> edgeMap gb !! "a_b_c" = Some ("a_b", "c")
     ∨ (fun edge => (Edge.From edge, Edge.To edge)) <$> edgeMap gb !! "a_b_c"
       = Some ("a", "b_c"))
  ∧ (fun session =>
       map (fun '(prev, curr) =>
              (Event.Desc prev, Event.Desc curr,
               time.Seconds (time.Sub (Event.Timestamp curr) (Event.Timestamp prev))))
           (consecutive (Events session)))
    <$> sessionMap Logs.underscoreSessions
    = list_to_map [("s1", [("a_b", "c", 10.0%float)]); ("s2", [("a", "b_c", 20.0%float)])].
Proof.
  intros gb. unfold gb. rewrite finalizeGraph_edgeMap.
  assert (map_to_list (sessionMap Logs.underscoreSessions)
          = [("s1", {| Events := [Logs.eventAt "s1" 36000 "a_b"; Logs.eventAt "s1" 36010 "c"] |});
             ("s2", {| Events := [Logs.eventAt "s2" 39600 "a"; Logs.eventAt "s2" 39620 "b_c"] |})])
    as Hlist by (vm_compute; reflexivity).
  match goal with |- _ ∧ _ ∧ _ ∧ ?P => assert P as Hmeans by (vm_compute; reflexivity) end.
  destruct (range_pair 945 0 _ _ _ Hlist) as [-> | ->],
           (range_pair 978 0 _ _ _ Hlist) as [-> | ->];
    (split; [vm_compute; reflexivity|]);
    (split; [vm_compute; reflexivity|]);
    (split; [|exact Hmeans]);
    first [left; vm_compute; reflexivity | right; vm_compute; reflexivity].
Qed.

(** Read from the CSV rows by the sample host, the same sessions and the
    same shared edge. *)
Example underscores_built :
  let read := (ReadAndProcess Logs.underscores (onRecord (H:=SampleHost.host))
                 NewGraphBuilder) in
  read = (Logs.underscoreSessions, None)
  ∧ map (fun edge => (Edge.From edge, Edge.To edge, Edge.Count edge, Edge.AvgDuration edge,
                      Edge.Style edge))
        (GetGraph (BuildGraph (H:=SampleHost.host) Logs.underscores NewGraphBuilder).1).2
    = [("a_b", "c", 2, 15.0%float, "");
       ("start", "a_b", 1, 0%float, "dashed"); ("c", "end", 1, 0%float, "dashed");
       ("start", "a", 1, 0%float, "dashed"); ("b_c", "end", 1, 0%float, "dashed")].
Proof. vm_compute. split; reflexivity. Qed.

(** * Further properties of the builder and of the analyzer *)

(** ** What a build does to the sessions *)

Section session_facts.
Context `{Host}.

Lemma eventsIn_processEvent event gb id :
  eventsIn (processEvent event gb) id
  = eventsIn gb id ++ ofCase id [event].
Proof.
  unfold eventsIn, processEvent, ofCase; simpl.
  rewrite filter_cons, filter_nil.
  destruct (decide (Event.SessionID event = id)) as [<-|Hne].
  - rewrite lookup_insert_eq; simpl. by destruct (sessionMap gb !! Event.SessionID event).
  - rewrite lookup_insert_ne by done. by rewrite app_nil_r.
Qed.

Lemma processEvent_is_Some event gb id :
  is_Some (sessionMap (processEvent event gb) !! id)
  ↔ is_Some (sessionMap gb !! id) ∨ id = Event.SessionID event.
Proof.
  unfold processEvent; simpl. rewrite lookup_insert_is_Some. split.
  - intros [ <- | [? Hsome] ]; auto.
  - intros [Hsome | ->]; [|by left].
    destruct (decide (Event.SessionID event = id)); auto.
Qed.

Lemma onRecord_eventsOf record gb gb' :
  onRecord record gb = (gb', None) →
  ∃ event, eventsOf [record] = [event] ∧ gb' = processEvent event gb
           ∧ Event.SessionID event = record !!! 0%nat.
Proof.
  unfold onRecord, eventsOf; simpl. destruct (_ <? _)%nat; [discriminate|].
  destruct (parseTime _) as [err|timestamp]; [discriminate|].
  intros [= <-]. eexists. split; [reflexivity|]. by split.
Qed.

Lemma onRecord_failure record gb gb' err :
  onRecord record gb = (gb', Some err) → gb' = gb ∧ eventsOf [record] = [].
Proof.
  unfold onRecord, eventsOf; simpl. destruct (_ <? _)%nat; [by intros [= <- _]|].
  destruct (parseTime _) as [err'|timestamp]; [by intros [= <- _]|discriminate].
Qed.

Lemma eventsOf_cons record records :
  eventsOf (record :: records) = eventsOf [record] ++ eventsOf records.
Proof. unfold eventsOf; simpl. by destruct (_ <? _)%nat; [|destruct (parseTime _)]. Qed.

Lemma ofCase_app id events1 events2 :
  ofCase id (events1 ++ events2) = ofCase id events1 ++ ofCase id events2.
Proof. apply filter_app. Qed.

(** Reading records adds, to every case, the events of its records, in file
    order, whether the reading ends in success or in an error. *)
Lemma ReadAndProcess_events records gb id :
  let gb' := (ReadAndProcess records onRecord gb).1 in
  ∃ read, read `prefix_of` records
    ∧ ((ReadAndProcess records onRecord gb).2 = None → read = records)
    ∧ length (eventsOf read) = length read
    ∧ eventsIn gb' id = eventsIn gb id ++ ofCase id (eventsOf read)
    ∧ (is_Some (sessionMap gb' !! id) ↔ is_Some (sessionMap gb !! id) ∨ id ∈ caseIds read)
    ∧ nodeMap gb' = nodeMap gb ∧ edgeMap gb' = edgeMap gb ∧ graph gb' = graph gb.
Proof.
  revert gb. induction records as [|record records IH]; intros gb; simpl.
  - exists []. rewrite app_nil_r. unfold caseIds; simpl. rewrite elem_of_nil.
    repeat split; try done; [by left|by intros [?|?]].
  - destruct (onRecord record gb) as [gb1 [err|]] eqn:Hrec.
    + apply onRecord_failure in Hrec as [-> _]. exists []. simpl.
      rewrite app_nil_r. unfold caseIds; simpl. rewrite elem_of_nil.
      repeat split; try done; [apply prefix_nil|by left|by intros [?|?]].
    + apply onRecord_eventsOf in Hrec as (event & Hevent & -> & Hid).
      destruct (IH (processEvent event gb)) as (read & Hpre & Hall & Hlen & Hev & Hsome & Hn & He & Hg).
      exists (record :: read). split; [by apply prefix_cons|].
      split; [intros Hok; by rewrite (Hall Hok)|].
      split; [rewrite eventsOf_cons, length_app, Hevent; simpl; by rewrite Hlen|].
      split; [|split; [|done]].
      * rewrite Hev, eventsIn_processEvent, eventsOf_cons, Hevent, ofCase_app.
        by rewrite <- app_assoc.
      * rewrite Hsome, processEvent_is_Some. unfold caseIds; simpl.
        rewrite elem_of_cons, Hid. split; [intros [[?|?]|?]|intros [?|[?|?]]]; auto.
Qed.

End session_facts.

Lemma build_groups_events_by_case_aux `{Host} records gb gb' id :
  BuildGraph records gb = (gb', None) →
  eventsIn gb' id = eventsIn gb id ++ ofCase id (eventsOf records)
  ∧ (is_Some (sessionMap gb' !! id) ↔ is_Some (sessionMap gb !! id) ∨ id ∈ caseIds records)
  ∧ length (eventsOf records) = length records.
Proof.
  intros Hbuild. apply BuildGraph_ok_inv in Hbuild as Hgb'.
  assert ((ReadAndProcess records onRecord gb).2 = None) as Hok.
  { rewrite <- BuildGraph_result. by rewrite Hbuild. }
  destruct (ReadAndProcess_events records gb id)
    as (read & _ & Hall & Hlen & Hev & Hsome & _).
  rewrite (Hall Hok) in *. subst gb'.
  unfold eventsIn in *. rewrite finalizeGraph_sessionMap. done.
Qed.

(** X1.  After a successful [BuildGraph], on whatever builder state, the
    events held for a case identifier are those held before followed by the
    events of the records that bear the identifier, in file order (they are
    not sorted by timestamp); a session exists for the identifier iff one
    existed before or some record bears it; and every record has become an
    event. *)
Theorem build_groups_events_by_case `{Host}
    (records : list (list string)) (gb gb' : GraphBuilder) (id : string) :
  BuildGraph records gb = (gb', None) →
  eventsIn gb' id = eventsIn gb id ++ ofCase id (eventsOf records)
  ∧ (is_Some (sessionMap gb' !! id) ↔ is_Some (sessionMap gb !! id) ∨ id ∈ caseIds records)
  ∧ length (eventsOf records) = length records.
Proof. apply build_groups_events_by_case_aux. Qed.

Lemma build_groups_events_by_case_witness :
  let gb := (BuildGraph (H:=SampleHost.host) Logs.twoEvents NewGraphBuilder).1 in
  let gb' := (BuildGraph (H:=SampleHost.host) Logs.fiveSessions gb).1 in
  eventsIn gb' "c1"
  = eventsIn gb "c1" ++ ofCase "c1" (eventsOf (H:=SampleHost.host) Logs.fiveSessions)
  ∧ (is_Some (sessionMap gb' !! "c1")
     ↔ is_Some (sessionMap gb !! "c1") ∨ "c1" ∈ caseIds Logs.fiveSessions)
  ∧ length (eventsOf (H:=SampleHost.host) Logs.fiveSessions) = length Logs.fiveSessions.
Proof.
  apply (build_groups_events_by_case (H:=SampleHost.host) Logs.fiveSessions).
  vm_compute. reflexivity.
Defined.

Lemma ReadAndProcess_stops `{Host} records gb gb' err :
  ReadAndProcess records onRecord gb = (gb', Some err) →
  ∃ pre record post,
    records = pre ++ record :: post
    ∧ ReadAndProcess pre onRecord gb = (gb', None)
    ∧ (onRecord record gb').2 = Some err.
Proof.
  revert gb. induction records as [|record records IH]; intros gb; simpl; [discriminate|].
  destruct (onRecord record gb) as [gb1 [err1|]] eqn:Hrec.
  - intros [= <- <-]. exists [], record, records.
    apply onRecord_failure in Hrec as Hsame. destruct Hsame as [-> _].
    split; [done|]. split; [done|]. by rewrite Hrec.
  - intros (pre & record' & post & -> & Hpre & Hrej)%IH.
    exists (record :: pre), record', post. split; [done|]. split; [|done].
    simpl. by rewrite Hrec.
Qed.

(** X2.  When [BuildGraph] returns an error, the records before the first
    rejected one have already been added to the sessions (the events of each
    case follow those held before, in file order), nothing after it has,
    and the node map, the edge map and the graph are as they were: the
    failed ingest is not rolled back, and [finalizeGraph] has not run. *)
Theorem failed_build_keeps_what_it_read `{Host}
    (records : list (list string)) (gb gb' : GraphBuilder) (err : BuildError) (id : string) :
  BuildGraph records gb = (gb', Some err) →
  ∃ pre record post,
    records = pre ++ record :: post
    ∧ Forall accepted pre ∧ rejected record err
    ∧ eventsIn gb' id = eventsIn gb id ++ ofCase id (eventsOf pre)
    ∧ length (eventsOf pre) = length pre
    ∧ nodeMap gb' = nodeMap gb ∧ edgeMap gb' = edgeMap gb ∧ graph gb' = graph gb.
Proof.
  unfold BuildGraph.
  destruct (ReadAndProcess records onRecord gb) as [gb1 [err1|]] eqn:Hread; [|discriminate].
  intros [= <- <-].
  apply ReadAndProcess_stops in Hread as (pre & record & post & -> & Hpre & Hrej).
  exists pre, record, post. split; [done|].
  split; [apply (ReadAndProcess_success pre gb); by rewrite Hpre|].
  split; [by eapply onRecord_error|].
  destruct (ReadAndProcess_events pre gb id)
    as (read & _ & Hall & Hlen & Hev & _ & Hn & He & Hg).
  rewrite Hpre in *. simpl in *. rewrite (Hall eq_refl) in *. done.
Qed.

Lemma failed_build_keeps_what_it_read_witness :
  let gb' := (BuildGraph (H:=SampleHost.host) Logs.shortRecord NewGraphBuilder).1 in
  ∃ pre record post,
    Logs.shortRecord = pre ++ record :: post
    ∧ Forall (accepted (H:=SampleHost.host)) pre
    ∧ rejected (H:=SampleHost.host) record (TooFewColumns ["c1"; "2024-01-01 10:00:10"])
    ∧ eventsIn gb' "c1"
      = eventsIn NewGraphBuilder "c1" ++ ofCase "c1" (eventsOf (H:=SampleHost.host) pre)
    ∧ length (eventsOf (H:=SampleHost.host) pre) = length pre
    ∧ nodeMap gb' = nodeMap NewGraphBuilder ∧ edgeMap gb' = edgeMap NewGraphBuilder
    ∧ graph gb' = graph NewGraphBuilder.
Proof.
  apply (failed_build_keeps_what_it_read (H:=SampleHost.host) Logs.shortRecord).
  vm_compute. reflexivity.
Defined.

(** ** What [finalizeGraph] does to the nodes *)

Section node_facts.
Context `{Host}.

Lemma visited_visited n1 n2 node : visited n2 (visited n1 node) = visited (n1 + n2) node.
Proof. unfold visited; simpl. f_equal; lia. Qed.

Lemma visits_snoc desc events event :
  visits desc (events ++ [event])
  = (visits desc events + if decide (Event.Desc event = desc) then 1 else 0)%nat.
Proof.
  unfold visits. rewrite filter_app, length_app, filter_cons, filter_nil.
  by destruct (decide _).
Qed.

Lemma countNode_lookup nodeMap event desc :
  countNode nodeMap event !! desc
  = if decide (Event.Desc event = desc) then Some (visited 1 (getNode desc nodeMap))
    else nodeMap !! desc.
Proof.
  unfold countNode. destruct (decide _) as [<-|Hne].
  - by rewrite lookup_insert_eq.
  - by rewrite lookup_insert_ne.
Qed.

(** Counting the events of a list adds, to the node of every activity, the
    number of events that bear it. *)
Lemma countNodes_lookup events nodeMap desc :
  fold_left countNode events nodeMap !! desc
  = if decide (visits desc events = 0%nat) then nodeMap !! desc
    else Some (visited (visits desc events) (getNode desc nodeMap)).
Proof.
  induction events as [|event events IH] using rev_ind; [done|].
  rewrite fold_left_app; simpl. rewrite countNode_lookup, visits_snoc.
  destruct (decide (Event.Desc event = desc)) as [Hdesc|Hdesc].
  - rewrite decide_False by lia. unfold getNode at 1. rewrite IH.
    destruct (decide (visits desc events = 0%nat)) as [->|Hpos]; [done|].
    simpl. by rewrite visited_visited.
  - rewrite Nat.add_0_r. exact IH.
Qed.

Lemma processSession_nodeMap gb session :
  nodeMap (processSession gb session) = fold_left countNode (Events session) (nodeMap gb).
Proof. unfold processSession. by destruct (Events session). Qed.

Lemma processSessions_nodeMap (sessions : list (string * Session)) gb :
  nodeMap (fold_left (fun gb '(_, session) => processSession gb session) sessions gb)
  = fold_left countNode (flat_map (fun kv => Events kv.2) sessions) (nodeMap gb).
Proof.
  revert gb. induction sessions as [|[key session] sessions IH]; intros gb; simpl; [done|].
  by rewrite IH, fold_left_app, processSession_nodeMap.
Qed.

Lemma finalizeGraph_nodeMap gb :
  nodeMap (finalizeGraph gb)
  = fold_left countNode (flat_map (fun kv => Events kv.2) (range 945 0 (sessionMap gb)))
      (nodeMap gb).
Proof.
  unfold finalizeGraph. destruct (fold_left _ (range 978 _ _) _) as [edgeMap2 edges].
  simpl. apply processSessions_nodeMap.
Qed.

Lemma visits_perm desc events1 events2 :
  events1 ≡ₚ events2 → visits desc events1 = visits desc events2.
Proof. intros Hperm. unfold visits. by rewrite Hperm. Qed.

Lemma range_allEvents line visit sessions :
  flat_map (fun kv => Events kv.2) (range line visit sessions) ≡ₚ allEvents sessions.
Proof. unfold allEvents. apply Permutation_flat_map, range_perm. Qed.

End node_facts.

Lemma finalizeGraph_nodeMap_lookup `{Host} (gb : GraphBuilder) (desc : string) :
  nodeMap (finalizeGraph gb) !! desc
  = if decide (visits desc (allEvents (sessionMap gb)) = 0%nat) then nodeMap gb !! desc
    else Some (visited (visits desc (allEvents (sessionMap gb))) (getNode desc (nodeMap gb))).
Proof.
  rewrite finalizeGraph_nodeMap, countNodes_lookup.
  by rewrite (visits_perm _ _ _ (range_allEvents 945 0 (sessionMap gb))).
Qed.

(** X3.  [finalizeGraph] adds to the node of every activity the number of
    events, in all the sessions the builder holds, that bear the activity,
    to [Count] and to [Total] alike, creating the blue node if there was
    none; the node of an activity no event bears is left as it was (or
    absent).  The result does not depend on the order in which the sessions
    are visited. *)
Theorem finalizeGraph_counts_the_events `{Host} (gb : GraphBuilder) (desc : string) :
  let n := visits desc (allEvents (sessionMap gb)) in
  nodeMap (finalizeGraph gb) !! desc
  = if decide (n = 0%nat) then nodeMap gb !! desc
    else Some (visited n (getNode desc (nodeMap gb))).
Proof. intros n. apply finalizeGraph_nodeMap_lookup. Qed.

(** ** A build on a new builder, in terms of the records *)

Section fresh_build_facts.
Context `{Host}.

Lemma map_to_list_insert_any {V : Type} (m : gmap string V) key v :
  map_to_list (<[key := v]> m) ≡ₚ (key, v) :: map_to_list (delete key m).
Proof.
  rewrite <- (insert_delete_eq m). apply map_to_list_insert, lookup_delete_eq.
Qed.

Lemma allEvents_processEvent event gb :
  allEvents (sessionMap (processEvent event gb)) ≡ₚ allEvents (sessionMap gb) ++ [event].
Proof.
  unfold allEvents, processEvent; simpl.
  rewrite map_to_list_insert_any; simpl.
  destruct (sessionMap gb !! Event.SessionID event) as [session|] eqn:Hsession; simpl.
  - rewrite <- (map_to_list_delete _ _ _ Hsession); simpl.
    rewrite <- !app_assoc. apply Permutation_app_head, Permutation_app_comm.
  - rewrite delete_id by done. apply (Permutation_app_comm [event]).
Qed.

Lemma ReadAndProcess_allEvents records gb :
  (ReadAndProcess records onRecord gb).2 = None →
  allEvents (sessionMap (ReadAndProcess records onRecord gb).1)
  ≡ₚ allEvents (sessionMap gb) ++ eventsOf records.
Proof.
  revert gb. induction records as [|record records IH]; intros gb.
  - simpl. by rewrite app_nil_r.
  - rewrite eventsOf_cons. cbn [ReadAndProcess].
    destruct (onRecord record gb) as [gb1 [err|]] eqn:Hrec; [discriminate|].
    intros Hok. apply onRecord_eventsOf in Hrec as (event & Hevent & -> & _).
    rewrite (IH _ Hok), allEvents_processEvent, Hevent.
    by rewrite <- app_assoc.
Qed.

Lemma visits_eventsOf records gb desc :
  (ReadAndProcess records onRecord gb).2 = None →
  visits desc (eventsOf records)
  = length (filter (fun record => record !!! 2%nat = desc) records).
Proof.
  revert gb. induction records as [|record records IH]; intros gb; simpl; [done|].
  destruct (onRecord record gb) as [gb1 [err|]] eqn:Hrec; [discriminate|].
  intros Hok. specialize (IH _ Hok).
  unfold onRecord in Hrec. unfold eventsOf, visits in *; simpl.
  destruct (_ <? _)%nat; [discriminate|].
  destruct (parseTime _) as [err|timestamp]; [discriminate|].
  rewrite !filter_cons; simpl.
  destruct (decide (record !!! 2%nat = desc)); simpl; by rewrite IH.
Qed.

Lemma BuildGraph_ok_read records gb gb' :
  BuildGraph records gb = (gb', None) →
  (ReadAndProcess records onRecord gb).2 = None
  ∧ gb' = finalizeGraph (ReadAndProcess records onRecord gb).1.
Proof.
  intros Hbuild. split; [|by apply BuildGraph_ok_inv].
  rewrite <- BuildGraph_result. by rewrite Hbuild.
Qed.

End fresh_build_facts.

(** X4.  After a successful build on a new builder, the node map holds, for
    every activity that occurs in the third field of some record, a blue
    node whose ID and label are the activity and whose [Count] and [Total]
    are the number of such records; it holds no node for any other
    string. *)
Theorem new_build_counts_the_activities `{Host}
    (records : list (list string)) (gb' : GraphBuilder) (desc : string) :
  BuildGraph records NewGraphBuilder = (gb', None) →
  let n := length (filter (fun record => record !!! 2%nat = desc) records) in
  nodeMap gb' !! desc
  = if decide (n = 0%nat) then None
    else Some {| Node.ID := desc; Node.Label := desc; Node.Count := Z.of_nat n;
                 Node.Total := Z.of_nat n; Node.Color := "blue" |}.
Proof.
  intros [Hok ->]%BuildGraph_ok_read n.
  rewrite finalizeGraph_nodeMap_lookup.
  rewrite (visits_perm _ _ _ (ReadAndProcess_allEvents _ _ Hok)).
  change (allEvents (sessionMap NewGraphBuilder)) with (@nil Event.t).
  rewrite app_nil_l, (visits_eventsOf _ _ _ Hok). fold n.
  pose proof (ReadAndProcess_events records NewGraphBuilder "")
    as (? & _ & _ & _ & _ & _ & -> & _).
  by destruct (decide (n = 0%nat)).
Qed.

Lemma new_build_counts_the_activities_witness :
  nodeMap (BuildGraph (H:=SampleHost.host) Logs.fiveSessions NewGraphBuilder).1 !! "X"
  = Some {| Node.ID := "X"; Node.Label := "X"; Node.Count := 4; Node.Total := 4;
            Node.Color := "blue" |}.
Proof.
  apply (new_build_counts_the_activities (H:=SampleHost.host) Logs.fiveSessions _ "X").
  vm_compute. reflexivity.
Defined.

(** ** The counts of the edges *)

Section edge_count_facts.
Context `{Host}.

Lemma totalCount_insert edgeMap key edge :
  totalCount (<[key := edge]> edgeMap)
  = totalCount edgeMap - default 0 (Edge.Count <$> edgeMap !! key) + Edge.Count edge.
Proof.
  unfold totalCount. rewrite <- (insert_delete_eq edgeMap).
  rewrite map_fold_insert_L; [|intros; lia|apply lookup_delete_eq].
  destruct (edgeMap !! key) as [old|] eqn:Hold; simpl.
  - rewrite (map_fold_delete_L _ _ key old edgeMap); [lia|intros; lia|done].
  - rewrite delete_id by done. lia.
Qed.

Lemma totalCount_countTransition edgeMap prevEvent currEvent :
  totalCount (countTransition edgeMap prevEvent currEvent) = totalCount edgeMap + 1.
Proof.
  unfold countTransition, getEdge. rewrite totalCount_insert; simpl.
  destruct (edgeMap !! _); simpl; lia.
Qed.

Lemma totalCount_countTransitions edgeMap (transitions : list (Event.t * Event.t)) :
  totalCount (fold_left (fun edgeMap transition =>
                           countTransition edgeMap transition.1 transition.2)
                transitions edgeMap)
  = totalCount edgeMap + Z.of_nat (length transitions).
Proof.
  revert edgeMap. induction transitions as [|transition transitions IH]; intros edgeMap;
    simpl; [lia|].
  rewrite IH, totalCount_countTransition. lia.
Qed.

Lemma totalCount_labelEdge edgeMap : totalCount (labelEdge <$> edgeMap) = totalCount edgeMap.
Proof. unfold totalCount. by rewrite map_fold_fmap. Qed.

Lemma totalCount_boundaryEdge key from to st :
  totalCount (boundaryEdge key from to st).1 = totalCount st.1 + 1.
Proof.
  destruct st as [edgeMap edges]. unfold boundaryEdge, getEdge; simpl.
  rewrite totalCount_insert; simpl. destruct (edgeMap !! _); simpl; lia.
Qed.

Lemma totalCount_boundaryEdges st session :
  totalCount (boundaryEdges st session).1
  = totalCount st.1 + (if decide (Events session = []) then 0 else 2).
Proof.
  unfold boundaryEdges. destruct (Events session) as [|firstEvent rest]; simpl; [lia|].
  rewrite !totalCount_boundaryEdge. lia.
Qed.

Lemma consecutive_length {A : Type} (l : list A) :
  length (consecutive l) = (length l - 1)%nat.
Proof.
  unfold consecutive. rewrite length_zip_with. destruct l; cbn [tail length]; lia.
Qed.

(** What the sessions of a list add to the counts: a session of [n > 0]
    events adds [n - 1] transitions and two boundary edges. *)
Lemma totalCount_sessions (sessions : list (string * Session)) :
  Forall (fun kv => Events kv.2 ≠ []) sessions →
  (length (flat_map (fun kv => consecutive (Events kv.2)) sessions) + length sessions
   = length (flat_map (fun kv => Events kv.2) sessions))%nat.
Proof.
  induction 1 as [|[key session] sessions Hne _ IH]; simpl; [done|].
  rewrite !length_app, consecutive_length. simpl in Hne.
  destruct (Events session); simpl in *; [done|lia].
Qed.

Lemma totalCount_boundary_fold (sessions : list (string * Session)) edgeMap :
  Forall (fun kv => Events kv.2 ≠ []) sessions →
  totalCount (fold_left (fun edgeMap '(_, session) => (boundaryEdges (edgeMap, []) session).1)
                sessions edgeMap)
  = totalCount edgeMap + 2 * Z.of_nat (length sessions).
Proof.
  intros Hne. revert edgeMap.
  induction Hne as [|[key session] sessions Hne _ IH]; intros edgeMap; simpl; [lia|].
  rewrite IH, totalCount_boundaryEdges; simpl. rewrite decide_False by done. lia.
Qed.

Lemma range_nonempty line visit (sessions : gmap string Session) :
  map_Forall (fun _ session => Events session ≠ []) sessions →
  Forall (fun kv => Events kv.2 ≠ []) (range line visit sessions).
Proof.
  intros Hne. apply Forall_forall. intros [key session] Hin%range_elem_of.
  by apply (Hne key).
Qed.

(** [finalizeGraph] on sessions none of which is empty: every event but the
    first of its session adds one to the count of a transition edge, and
    every session adds one to a boundary edge at either end. *)
Lemma finalizeGraph_totalCount gb :
  map_Forall (fun _ session => Events session ≠ []) (sessionMap gb) →
  totalCount (edgeMap (finalizeGraph gb))
  = totalCount (edgeMap gb) + Z.of_nat (length (allEvents (sessionMap gb)))
    + Z.of_nat (size (sessionMap gb)).
Proof.
  intros Hne. rewrite finalizeGraph_edgeMap.
  rewrite totalCount_boundary_fold by by apply range_nonempty.
  rewrite totalCount_labelEdge, processSessions_edgeMap, totalCount_countTransitions.
  pose proof (totalCount_sessions _ (range_nonempty 945 0 _ Hne)) as Hsum.
  rewrite (Permutation_length (range_allEvents 945 0 (sessionMap gb))) in Hsum.
  rewrite !range_length in *. lia.
Qed.

Lemma processEvent_nonempty event gb :
  map_Forall (fun _ session => Events session ≠ []) (sessionMap gb) →
  map_Forall (fun _ session => Events session ≠ []) (sessionMap (processEvent event gb)).
Proof.
  intros Hne. unfold processEvent; simpl. apply map_Forall_insert_2; [|done].
  simpl. by destruct (Events _).
Qed.

Lemma ReadAndProcess_nonempty records gb :
  map_Forall (fun _ session => Events session ≠ []) (sessionMap gb) →
  map_Forall (fun _ session => Events session ≠ [])
    (sessionMap (ReadAndProcess records onRecord gb).1).
Proof.
  revert gb. induction records as [|record records IH]; intros gb Hne; simpl; [done|].
  destruct (onRecord record gb) as [gb1 [err|]] eqn:Hrec; simpl.
  - by apply onRecord_failure in Hrec as [-> _].
  - apply onRecord_eventsOf in Hrec as (event & _ & -> & _).
    by apply IH, processEvent_nonempty.
Qed.

Lemma new_build_dom records gb' :
  BuildGraph records NewGraphBuilder = (gb', None) →
  dom (sessionMap gb') = list_to_set (caseIds records).
Proof.
  intros Hbuild. apply set_eq. intros id.
  rewrite elem_of_dom, elem_of_list_to_set.
  destruct (build_groups_events_by_case_aux records NewGraphBuilder gb' id Hbuild)
    as (_ & -> & _).
  split; [intros [[? [=]]|?]; done|by right].
Qed.

End edge_count_facts.

(** ** What every reachable state of the builder satisfies *)

Section sound_facts.
Context `{Host}.

(** *** Sessions *)

Lemma processEvent_sessionsSound event gb :
  Event.ID event = Event.SessionID event →
  sessionsSound gb → sessionsSound (processEvent event gb).
Proof.
  intros Hid Hsound. unfold sessionsSound, processEvent; simpl.
  apply map_Forall_insert_2; [|done]. simpl. split; [by destruct (Events _)|].
  apply Forall_app. split; [|by repeat constructor].
  destruct (sessionMap gb !! Event.SessionID event) as [session|] eqn:Hsession; simpl;
    [|constructor].
  by apply (Hsound _ _ Hsession).
Qed.

Lemma onRecord_sessionsSound record gb :
  sessionsSound gb → sessionsSound (onRecord record gb).1.
Proof.
  intros Hsound. unfold onRecord. destruct (_ <? _)%nat; [done|].
  destruct (parseTime _); [done|]. simpl. by apply processEvent_sessionsSound.
Qed.

Lemma ReadAndProcess_sessionsSound records gb :
  sessionsSound gb → sessionsSound (ReadAndProcess records onRecord gb).1.
Proof.
  revert gb. induction records as [|record records IH]; intros gb Hsound; simpl; [done|].
  pose proof (onRecord_sessionsSound record gb Hsound) as Hrec.
  destruct (onRecord record gb) as [gb1 [err|]]; simpl in *; [done|]. by apply IH.
Qed.

(** *** Nodes *)

Lemma countNode_sound nodeMap event :
  map_Forall nodeSound nodeMap → map_Forall nodeSound (countNode nodeMap event).
Proof.
  intros Hsound. unfold countNode, getNode. apply map_Forall_insert_2; [|done].
  destruct (nodeMap !! Event.Desc event) as [node|] eqn:Hnode; simpl.
  - destruct (Hsound _ _ Hnode) as (? & ? & ? & ? & ?). repeat split; simpl; try done; lia.
  - repeat split; try done.
Qed.

Lemma countNodes_sound events nodeMap :
  map_Forall nodeSound nodeMap → map_Forall nodeSound (fold_left countNode events nodeMap).
Proof.
  revert nodeMap. induction events as [|event events IH]; intros nodeMap Hsound; simpl;
    [done|]. by apply IH, countNode_sound.
Qed.

Lemma countNodes_known events nodeMap desc :
  is_Some (nodeMap !! desc) ∨ desc ∈ map Event.Desc events →
  is_Some (fold_left countNode events nodeMap !! desc).
Proof.
  intros Hdesc. rewrite countNodes_lookup.
  destruct (decide (visits desc events = 0%nat)) as [Hzero|Hpos]; [|done].
  destruct Hdesc as [Hsome|Hin]; [done|]. exfalso.
  apply list_elem_of_fmap in Hin as (event & -> & Hin).
  unfold visits in Hzero. apply length_zero_iff_nil in Hzero.
  assert (event ∈ filter (fun e => Event.Desc e = Event.Desc event) events) as Hfilter
    by by apply list_elem_of_filter.
  rewrite Hzero in Hfilter. by apply elem_of_nil in Hfilter.
Qed.

(** *** Edges *)

Lemma edgeSound_mono nodeMap nodeMap' key edge :
  (∀ desc, is_Some (nodeMap !! desc) → is_Some (nodeMap' !! desc)) →
  edgeSound nodeMap key edge → edgeSound nodeMap' key edge.
Proof.
  intros Hmono (Hkey & Hcount & Hfrom & Hto). split; [done|]. split; [done|].
  split; [destruct Hfrom; auto|destruct Hto; auto].
Qed.

Lemma countTransition_sound nodeMap edgeMap prevEvent currEvent :
  is_Some (nodeMap !! Event.Desc prevEvent) → is_Some (nodeMap !! Event.Desc currEvent) →
  map_Forall (edgeSound nodeMap) edgeMap →
  map_Forall (edgeSound nodeMap) (countTransition edgeMap prevEvent currEvent).
Proof.
  intros Hprev Hcurr Hsound. unfold countTransition, getEdge.
  apply map_Forall_insert_2; [|done].
  destruct (edgeMap !! _) as [edge|] eqn:Hedge; simpl.
  - destruct (Hsound _ _ Hedge) as (Hkey & Hcount & Hfrom & Hto).
    split; [done|]. split; [simpl; lia|]. by split.
  - split; [done|]. split; [simpl; lia|]. split; by left.
Qed.

Lemma countTransitions_sound nodeMap (transitions : list (Event.t * Event.t)) edgeMap :
  Forall (fun transition => is_Some (nodeMap !! Event.Desc transition.1)
                            ∧ is_Some (nodeMap !! Event.Desc transition.2)) transitions →
  map_Forall (edgeSound nodeMap) edgeMap →
  map_Forall (edgeSound nodeMap)
    (fold_left (fun edgeMap transition => countTransition edgeMap transition.1 transition.2)
       transitions edgeMap).
Proof.
  intros Hknown. revert edgeMap.
  induction Hknown as [|transition transitions [Hprev Hcurr] _ IH]; intros edgeMap Hsound;
    simpl; [done|]. by apply IH, countTransition_sound.
Qed.

Lemma labelEdge_sound nodeMap (edgeMap : gmap string Edge.t) :
  map_Forall (edgeSound nodeMap) edgeMap → map_Forall (edgeSound nodeMap) (labelEdge <$> edgeMap).
Proof. intros Hsound. apply map_Forall_fmap. exact Hsound. Qed.

Lemma boundaryEdge_sound nodeMap key from to st :
  key = from +:+ "_" +:+ to →
  is_Some (nodeMap !! from) ∨ from = "start" →
  is_Some (nodeMap !! to) ∨ to = "end" →
  map_Forall (edgeSound nodeMap) st.1 →
  map_Forall (edgeSound nodeMap) (boundaryEdge key from to st).1.
Proof.
  intros Hkey Hfrom Hto Hsound. destruct st as [edgeMap edges].
  unfold boundaryEdge, getEdge; simpl in *.
  apply map_Forall_insert_2; [|done].
  destruct (edgeMap !! key) as [edge|] eqn:Hedge; simpl.
  - destruct (Hsound _ _ Hedge) as (Hkey' & Hcount & Hfrom' & Hto').
    split; [done|]. split; [simpl; lia|]. by split.
  - split; [done|]. split; [simpl; lia|]. by split.
Qed.


Lemma consecutive_elem_of {A : Type} (l : list A) a b :
  (a, b) ∈ consecutive l → a ∈ l ∧ b ∈ l.
Proof.
  unfold consecutive. intros Hin. split.
  - by apply elem_of_zip_l in Hin.
  - apply elem_of_zip_r in Hin. destruct l; [done|]. by apply list_elem_of_further.
Qed.

Lemma boundaryEdges_sound nodeMap st session :
  Forall (fun event => is_Some (nodeMap !! Event.Desc event)) (Events session) →
  map_Forall (edgeSound nodeMap) st.1 →
  map_Forall (edgeSound nodeMap) (boundaryEdges st session).1.
Proof.
  intros Hknown Hsound. unfold boundaryEdges.
  destruct (Events session) as [|firstEvent rest] eqn:Hevents; [done|].
  assert (is_Some (nodeMap !! Event.Desc firstEvent)) as Hfirst
    by by apply Forall_cons in Hknown as [? _].
  assert (is_Some (nodeMap !! Event.Desc (List.last (firstEvent :: rest) firstEvent)))
    as Hlast.
  { rewrite Forall_forall in Hknown. apply Hknown.
    apply list_elem_of_In. destruct (exists_last (l:=firstEvent :: rest)) as (l' & a & Heq);
      [done|]. rewrite Heq, last_last. apply in_or_app. right. by left. }
  apply boundaryEdge_sound; [done|by left|by right|].
  apply boundaryEdge_sound; [done|by right|by left|done].
Qed.

Lemma boundaryEdges_fold_sound nodeMap (sessions : list (string * Session)) st :
  Forall (fun kv => Forall (fun event => is_Some (nodeMap !! Event.Desc event))
                           (Events kv.2)) sessions →
  map_Forall (edgeSound nodeMap) st.1 →
  map_Forall (edgeSound nodeMap)
    (fold_left (fun st '(_, session) => boundaryEdges st session) sessions st).1.
Proof.
  intros Hknown. revert st.
  induction Hknown as [|[key session] sessions Hsession _ IH]; intros st Hsound; simpl;
    [done|]. by apply IH, boundaryEdges_sound.
Qed.

(** *** The pointers of the graph *)

Lemma countTransition_keeps edgeMap prevEvent currEvent key :
  is_Some (edgeMap !! key) → is_Some (countTransition edgeMap prevEvent currEvent !! key).
Proof.
  intros Hsome. unfold countTransition. rewrite lookup_insert_is_Some.
  destruct (decide (Event.Desc prevEvent +:+ "_" +:+ Event.Desc currEvent = key)); auto.
Qed.

Lemma countTransitions_keeps (transitions : list (Event.t * Event.t)) edgeMap key :
  is_Some (edgeMap !! key) →
  is_Some (fold_left (fun edgeMap transition =>
                        countTransition edgeMap transition.1 transition.2)
             transitions edgeMap !! key).
Proof.
  revert edgeMap. induction transitions as [|transition transitions IH]; intros edgeMap Hsome;
    simpl; [done|]. by apply IH, countTransition_keeps.
Qed.

Lemma boundaryEdge_listed key from to st :
  Forall (fun key => is_Some (st.1 !! key)) st.2 →
  Forall (fun key' => is_Some ((boundaryEdge key from to st).1 !! key'))
         (boundaryEdge key from to st).2.
Proof.
  destruct st as [edgeMap edges]. unfold boundaryEdge; simpl. intros Hlisted.
  assert (Forall (fun key' => is_Some (<[key := {|
              Edge.From := Edge.From (getEdge key from to edgeMap);
              Edge.To := Edge.To (getEdge key from to edgeMap);
              Edge.Count := Edge.Count (getEdge key from to edgeMap) + 1;
              Edge.AvgDuration := Edge.AvgDuration (getEdge key from to edgeMap);
              Edge.Label := Edge.Label (getEdge key from to edgeMap);
              Edge.Style := "dashed" |}]> edgeMap !! key')) edges) as Hold.
  { eapply Forall_impl; [exact Hlisted|]. intros key' Hsome.
    rewrite lookup_insert_is_Some. destruct (decide (key = key')); auto. }
  destruct (_ =? _); [|done]. apply Forall_app. split; [done|].
  repeat constructor. by rewrite lookup_insert_eq.
Qed.

Lemma boundaryEdges_listed st session :
  Forall (fun key => is_Some (st.1 !! key)) st.2 →
  Forall (fun key => is_Some ((boundaryEdges st session).1 !! key)) (boundaryEdges st session).2.
Proof.
  intros Hlisted. unfold boundaryEdges. destruct (Events session); [done|].
  by do 2 apply boundaryEdge_listed.
Qed.

Lemma boundaryEdges_fold_listed (sessions : list (string * Session)) st :
  Forall (fun key => is_Some (st.1 !! key)) st.2 →
  let st' := fold_left (fun st '(_, session) => boundaryEdges st session) sessions st in
  Forall (fun key => is_Some (st'.1 !! key)) st'.2.
Proof.
  revert st. induction sessions as [|[key session] sessions IH]; intros st Hlisted; simpl;
    [done|]. by apply IH, boundaryEdges_listed.
Qed.

(** [finalizeGraph], seen as the two folds it is made of. *)
Lemma finalizeGraph_folds gb :
  let gb1 := fold_left (fun gb '(_, session) => processSession gb session)
               (range 945 0 (sessionMap gb)) gb in
  let st := fold_left (fun st '(_, session) => boundaryEdges st session)
              (range 978 0 (sessionMap gb))
              (labelEdge <$> edgeMap gb1,
               Edges (graph gb) ++ map fst (range 953 0 (edgeMap gb1))) in
  edgeMap (finalizeGraph gb) = st.1 ∧ Edges (graph (finalizeGraph gb)) = st.2.
Proof.
  intros gb1 st. unfold finalizeGraph. fold gb1.
  assert (sessionMap gb1 = sessionMap gb) as Hsessions by apply processSessions_sessionMap.
  assert (graph gb1 = graph gb) as Hgraph by apply processSessions_graph.
  rewrite Hsessions, Hgraph. fold st. by destruct st.
Qed.

Lemma finalizeGraph_sound gb :
  sessionsSound gb → nodesSound gb → edgesSound gb → graphSound gb →
  sessionsSound (finalizeGraph gb) ∧ nodesSound (finalizeGraph gb)
  ∧ edgesSound (finalizeGraph gb) ∧ graphSound (finalizeGraph gb).
Proof.
  intros Hsessions Hnodes Hedges [Hnodelist Hedgelist].
  assert (∀ desc, is_Some (nodeMap gb !! desc) → is_Some (nodeMap (finalizeGraph gb) !! desc))
    as Hmono.
  { intros desc Hsome. rewrite finalizeGraph_nodeMap. apply countNodes_known. by left. }
  assert (∀ line, Forall (fun kv : string * Session =>
            Forall (fun event => is_Some (nodeMap (finalizeGraph gb) !! Event.Desc event))
                   (Events kv.2)) (range line 0 (sessionMap gb))) as Hknown.
  { intros line. apply Forall_forall. intros [key session] Hin%range_elem_of.
    apply Forall_forall. intros event Hevent. simpl in Hevent.
    pose proof (visits_perm (Event.Desc event) _ _ (range_allEvents 945 0 (sessionMap gb)))
      as Hvisits.
    rewrite finalizeGraph_nodeMap, countNodes_lookup, Hvisits.
    assert (event ∈ filter (fun e => Event.Desc e = Event.Desc event)
                           (allEvents (sessionMap gb))) as Hfilter.
    { apply list_elem_of_filter. split; [done|]. unfold allEvents.
      apply list_elem_of_In, in_flat_map. exists (key, session).
      split; [by apply list_elem_of_In, elem_of_map_to_list|by apply list_elem_of_In]. }
    unfold visits. destruct (filter _ (allEvents _)); [by apply elem_of_nil in Hfilter|].
    destruct (decide _) as [Hzero|]; [discriminate Hzero|by eexists]. }
  destruct (finalizeGraph_folds gb) as [HedgeMap HEdges]. simpl in HedgeMap, HEdges.
  split; [|split; [|split; [|split]]].
  - unfold sessionsSound. by rewrite finalizeGraph_sessionMap.
  - unfold nodesSound. rewrite finalizeGraph_nodeMap. by apply countNodes_sound.
  - unfold edgesSound. rewrite HedgeMap.
    apply boundaryEdges_fold_sound; [apply Hknown|]. simpl.
    apply labelEdge_sound. rewrite processSessions_edgeMap.
    apply countTransitions_sound.
    + apply Forall_forall. intros [prev curr] Hin.
      apply list_elem_of_In, in_flat_map in Hin as ([key session] & Hin & Hpair).
      apply list_elem_of_In, consecutive_elem_of in Hpair as [Hprev Hcurr].
      pose proof (Hknown 945%N) as Hall. rewrite Forall_forall in Hall.
      specialize (Hall _ (proj2 (list_elem_of_In _ _) Hin)). rewrite Forall_forall in Hall.
      split; by apply Hall.
    + intros key edge Hedge. eapply edgeSound_mono; [exact Hmono|by apply Hedges].
  - rewrite finalizeGraph_Nodes. apply Forall_app. split; [|apply Forall_app; split].
    + eapply Forall_impl; [exact Hnodelist|]. intros [key|node]; simpl; auto.
    + apply Forall_forall. intros ref ([key node] & -> & Hin%range_elem_of)%list_elem_of_fmap.
      simpl. by rewrite Hin.
    + by repeat constructor.
  - rewrite HedgeMap, HEdges. apply boundaryEdges_fold_listed. simpl.
    apply Forall_app. split.
    + eapply Forall_impl; [exact Hedgelist|]. intros key Hsome.
      rewrite lookup_fmap, processSessions_edgeMap. apply fmap_is_Some.
      by apply countTransitions_keeps.
    + apply Forall_forall. intros key ([key' edge] & -> & Hin%range_elem_of)%list_elem_of_fmap.
      simpl. rewrite lookup_fmap, Hin. by eexists.
Qed.

End sound_facts.

(** ** Serving the graph *)

Section serve_facts.
Context `{Host}.

Lemma labelEdge_idemp edge : labelEdge (labelEdge edge) = labelEdge edge.
Proof. reflexivity. Qed.

(** The labelling loop of [ServeGraphData] labels the edges the list points
    to, however often it points to them, and no other. *)
Lemma relabel_lookup (keys : list string) (edgeMap : gmap string Edge.t) key :
  fold_left (fun edgeMap key => alter labelEdge key edgeMap) keys edgeMap !! key
  = (if decide (key ∈ keys) then labelEdge else id) <$> edgeMap !! key.
Proof.
  revert edgeMap. induction keys as [|key' keys IH]; intros edgeMap; cbn [fold_left].
  - destruct (decide (key ∈ [])) as [Hin|_]; [by apply elem_of_nil in Hin|].
    by destruct (edgeMap !! key).
  - rewrite IH. destruct (decide (key' = key)) as [->|Hne].
    + rewrite lookup_alter_eq, (decide_True (P := key ∈ key :: keys)) by apply list_elem_of_here.
      destruct (edgeMap !! key); simpl; [|done]. by destruct (decide _).
    + rewrite lookup_alter_ne by done.
      destruct (decide (key ∈ keys)) as [Hin|Hnotin].
      * by rewrite decide_True by by apply list_elem_of_further.
      * rewrite decide_False; [done|]. by intros [?|?]%elem_of_cons.
Qed.

Lemma ServeGraphData_sound gb :
  sessionsSound gb → nodesSound gb → edgesSound gb → graphSound gb →
  sessionsSound (presentation.ServeGraphData gb).1
  ∧ nodesSound (presentation.ServeGraphData gb).1
  ∧ edgesSound (presentation.ServeGraphData gb).1
  ∧ graphSound (presentation.ServeGraphData gb).1.
Proof.
  intros Hsessions Hnodes Hedges [Hnodelist Hedgelist].
  split; [done|]. split; [done|]. split; [|split; [done|]].
  - intros key edge. unfold presentation.ServeGraphData; simpl. rewrite relabel_lookup.
    destruct (edgeMap gb !! key) as [edge'|] eqn:Hedge; [|done]. simpl.
    intros [= <-]. specialize (Hedges _ _ Hedge). by destruct (decide _).
  - unfold presentation.ServeGraphData; simpl.
    eapply Forall_impl; [exact Hedgelist|]. intros key Hsome.
    rewrite relabel_lookup. by apply fmap_is_Some.
Qed.

(** The states the service goes through are all sound. *)
Lemma reachable_sound gb :
  reachable gb → sessionsSound gb ∧ nodesSound gb ∧ edgesSound gb ∧ graphSound gb.
Proof.
  induction 1 as [|records gb _ (Hsessions & Hnodes & Hedges & Hgraph)
                  |gb _ _|gb _ (Hsessions & Hnodes & Hedges & Hgraph)].
  - split; [apply map_Forall_empty|]. split; [apply map_Forall_empty|].
    split; [apply map_Forall_empty|]. split; constructor.
  - pose proof (ReadAndProcess_sessionsSound records gb Hsessions) as Hread.
    destruct (ReadAndProcess_events records gb "") as (_ & _ & _ & _ & _ & _ & Hn & He & Hg).
    unfold BuildGraph.
    destruct (ReadAndProcess records onRecord gb) as [gb1 [err|]]; simpl in *.
    + unfold nodesSound, edgesSound, graphSound. by rewrite Hn, He, Hg.
    + apply finalizeGraph_sound; [done|..];
        unfold nodesSound, edgesSound, graphSound; by rewrite ?Hn, ?He, ?Hg.
  - split; [apply map_Forall_empty|]. split; [apply map_Forall_empty|].
    split; [apply map_Forall_empty|]. split; constructor.
  - by apply ServeGraphData_sound.
Qed.

End serve_facts.

Lemma relabelled_edges (keys listed : list string) (edgeMap : gmap string Edge.t) :
  Forall (fun key => key ∈ keys) listed →
  omap (fun key => fold_left (fun edgeMap key => alter labelEdge key edgeMap) keys edgeMap
                   !! key) listed
  = map labelEdge (omap (fun key => edgeMap !! key) listed).
Proof.
  induction 1 as [|key listed Hin _ IH]; [done|].
  cbn [omap list_omap]. rewrite relabel_lookup, decide_True by done.
  destruct (edgeMap !! key); simpl; by rewrite IH.
Qed.

(** X12.  [ServeGraphData], for every builder state: the nodes served are
    those of [GetGraph]; the edges served are those of [GetGraph], each with
    a label made of its own count and average duration (also the boundary
    edges, which [finalizeGraph] leaves with the label they had before they
    were counted); and serving again serves the same and changes nothing
    more. *)
Theorem served_edges_carry_their_label (gb : GraphBuilder) :
  let served := presentation.ServeGraphData gb in
  served.2.1 = (GetGraph gb).1
  ∧ served.2.2 = map labelEdge (GetGraph gb).2
  ∧ Forall (fun edge => Edge.Label edge = Some (Edge.Count edge, Edge.AvgDuration edge))
           served.2.2
  ∧ presentation.ServeGraphData served.1 = served.
Proof.
  intros served.
  assert (served.2.2 = map labelEdge (GetGraph gb).2) as Hedges.
  { unfold served, presentation.ServeGraphData, GetGraph; simpl.
    apply relabelled_edges, Forall_forall. auto. }
  split; [done|]. split; [done|]. split.
  - rewrite Hedges. apply Forall_forall. by intros edge (edge' & -> & _)%list_elem_of_fmap.
  - unfold served, presentation.ServeGraphData at 1 3; simpl.
    assert (fold_left (fun edgeMap key => alter labelEdge key edgeMap) (Edges (graph gb))
              (edgeMap (presentation.ServeGraphData gb).1)
            = edgeMap (presentation.ServeGraphData gb).1) as Hsame.
    { apply map_eq. intros key. rewrite relabel_lookup.
      unfold presentation.ServeGraphData; simpl. rewrite relabel_lookup.
      destruct (edgeMap gb !! key); [|done]. simpl. by destruct (decide _). }
    unfold presentation.ServeGraphData in *; simpl in *. by rewrite Hsame.
Qed.

(** ** The graph of a build on a new builder *)

Section new_graph_facts.
Context `{Host}.

Lemma countTransition_positive edgeMap prevEvent currEvent :
  map_Forall (fun _ edge => 1 ≤ Edge.Count edge) edgeMap →
  map_Forall (fun _ edge => 1 ≤ Edge.Count edge) (countTransition edgeMap prevEvent currEvent).
Proof.
  intros Hpos. unfold countTransition, getEdge. apply map_Forall_insert_2; [|done]. simpl.
  destruct (edgeMap !! _) as [edge|] eqn:Hedge; simpl; [|lia].
  specialize (Hpos _ _ Hedge). simpl in Hpos. lia.
Qed.

Lemma countTransitions_positive (transitions : list (Event.t * Event.t)) edgeMap :
  map_Forall (fun _ edge => 1 ≤ Edge.Count edge) edgeMap →
  map_Forall (fun _ edge => 1 ≤ Edge.Count edge)
    (fold_left (fun edgeMap transition => countTransition edgeMap transition.1 transition.2)
       transitions edgeMap).
Proof.
  revert edgeMap. induction transitions as [|transition transitions IH]; intros edgeMap Hpos;
    simpl; [done|]. by apply IH, countTransition_positive.
Qed.

Lemma boundaryEdge_listedOnce key from to st :
  listedOnce st → listedOnce (boundaryEdge key from to st).
Proof.
  destruct st as [edgeMap edges]. intros (Hnodup & Hlisted & Hpos).
  unfold listedOnce, boundaryEdge, getEdge in *; simpl in *.
  destruct (edgeMap !! key) as [edge|] eqn:Hedge; simpl.
  - specialize (Hpos _ _ Hedge) as Hcount. simpl in Hcount.
    rewrite (proj2 (Z.eqb_neq _ _)) by lia. simpl.
    split; [done|]. split.
    + intros key'. rewrite lookup_insert_is_Some, Hlisted.
      destruct (decide (key = key')) as [<-|Hne];
        [|split; [intros ?; right; by split|by intros [?|[_ ?]]]].
      split; [by left|by rewrite Hedge].
    + apply map_Forall_insert_2; [simpl; lia|done].
  - simpl. split; [|split].
    + apply NoDup_app. split; [done|]. split; [|apply NoDup_singleton].
      intros key' Hin ->%list_elem_of_singleton. apply Hlisted in Hin.
      rewrite Hedge in Hin. by destruct Hin.
    + intros key'. rewrite elem_of_app, list_elem_of_singleton, lookup_insert_is_Some, Hlisted.
      destruct (decide (key = key')) as [<-|Hne].
      * split; [by left|by right].
      * split; [intros [?|?]; [right; by split|done]|intros [?|[_ ?]]; [done|by left]].
    + apply map_Forall_insert_2; [simpl; lia|done].
Qed.

Lemma boundaryEdges_fold_listedOnce (sessions : list (string * Session)) st :
  listedOnce st →
  listedOnce (fold_left (fun st '(_, session) => boundaryEdges st session) sessions st).
Proof.
  revert st. induction sessions as [|[key session] sessions IH]; intros st Hst; simpl;
    [done|]. apply IH. unfold boundaryEdges. destruct (Events session); [done|].
  by do 2 apply boundaryEdge_listedOnce.
Qed.

Lemma finalizeGraph_listedOnce gb :
  edgeMap gb = ∅ → Edges (graph gb) = [] →
  listedOnce (edgeMap (finalizeGraph gb), Edges (graph (finalizeGraph gb))).
Proof.
  intros Hempty Hnone. destruct (finalizeGraph_folds gb) as [-> ->]. simpl.
  rewrite <- surjective_pairing. apply boundaryEdges_fold_listedOnce.
  rewrite Hnone. unfold listedOnce. simpl. split; [apply range_NoDup_keys|]. split.
  - intros key. rewrite lookup_fmap, fmap_is_Some, list_elem_of_fmap. split.
    + intros ([key' edge] & -> & Hin%range_elem_of). by eexists.
    + intros [edge Hedge]. exists (key, edge). split; [done|]. by apply range_elem_of.
  - apply map_Forall_fmap. rewrite processSessions_edgeMap, Hempty.
    eapply map_Forall_impl; [by apply countTransitions_positive, map_Forall_empty|done].
Qed.

Lemma omap_lookup_keys {V : Type} (m : gmap string V) (l : list (string * V)) :
  (∀ key v, (key, v) ∈ l → m !! key = Some v) →
  omap (fun key => m !! key) l.*1 = l.*2.
Proof.
  induction l as [|[key v] l IH]; intros Hl; [done|].
  cbn [fmap list_fmap omap list_omap fst snd].
  rewrite (Hl key v) by apply list_elem_of_here.
  f_equal. apply IH. intros key' v' Hin. by apply Hl, list_elem_of_further.
Qed.

End new_graph_facts.

Lemma new_build_counts_every_step_aux `{Host}
    (records : list (list string)) (gb' : GraphBuilder) :
  BuildGraph records NewGraphBuilder = (gb', None) →
  totalCount (edgeMap gb')
  = Z.of_nat (length records) + Z.of_nat (size (list_to_set (caseIds records) : gset string))
  ∧ size (sessionMap gb') = size (list_to_set (caseIds records) : gset string).
Proof.
  intros Hbuild. pose proof (new_build_dom _ _ Hbuild) as Hdom.
  apply BuildGraph_ok_read in Hbuild as [Hok ->].
  assert (size (sessionMap (ReadAndProcess records onRecord NewGraphBuilder).1)
          = size (list_to_set (caseIds records) : gset string)) as Hsize.
  { rewrite <- Hdom, size_dom. by rewrite finalizeGraph_sessionMap. }
  split; [|by rewrite finalizeGraph_sessionMap].
  rewrite finalizeGraph_totalCount by by apply ReadAndProcess_nonempty, map_Forall_empty.
  rewrite (Permutation_length (ReadAndProcess_allEvents _ _ Hok)), Hsize.
  destruct (ReadAndProcess_events records NewGraphBuilder "")
    as (read & _ & Hall & Hlen & _ & _ & _ & -> & _).
  rewrite (Hall Hok) in Hlen. change (allEvents (sessionMap NewGraphBuilder)) with (@nil Event.t).
  rewrite app_nil_l, Hlen. done.
Qed.

(** X5.  After a successful build on a new builder, the counts of all the
    edges add up to the number of records plus the number of distinct case
    identifiers: every event but the first of its case is counted on one
    transition edge and every case on two boundary edges, also when several
    transitions share an edge.  The builder holds one session per distinct
    case identifier. *)
Theorem new_build_counts_every_step `{Host}
    (records : list (list string)) (gb' : GraphBuilder) :
  BuildGraph records NewGraphBuilder = (gb', None) →
  totalCount (edgeMap gb')
  = Z.of_nat (length records) + Z.of_nat (size (list_to_set (caseIds records) : gset string))
  ∧ size (sessionMap gb') = size (list_to_set (caseIds records) : gset string).
Proof. apply new_build_counts_every_step_aux. Qed.

Lemma new_build_counts_every_step_witness :
  let gb' := (BuildGraph (H:=SampleHost.host) Logs.fiveSessions NewGraphBuilder).1 in
  totalCount (edgeMap gb')
  = Z.of_nat (length Logs.fiveSessions)
    + Z.of_nat (size (list_to_set (caseIds Logs.fiveSessions) : gset string))
  ∧ size (sessionMap gb') = size (list_to_set (caseIds Logs.fiveSessions) : gset string).
Proof.
  apply (new_build_counts_every_step (H:=SampleHost.host) Logs.fiveSessions).
  vm_compute. reflexivity.
Defined.

(** X6.  After a successful build on a new builder, the edge list of the
    graph names every edge of the edge map exactly once, and [GetGraph]
    returns each edge of the edge map exactly once. *)
Theorem new_build_lists_every_edge_once `{Host}
    (records : list (list string)) (gb' : GraphBuilder) :
  BuildGraph records NewGraphBuilder = (gb', None) →
  NoDup (Edges (graph gb'))
  ∧ Edges (graph gb') ≡ₚ (map_to_list (edgeMap gb')).*1
  ∧ (GetGraph gb').2 ≡ₚ (map_to_list (edgeMap gb')).*2.
Proof.
  intros [Hok ->]%BuildGraph_ok_read.
  destruct (ReadAndProcess_events records NewGraphBuilder "")
    as (_ & _ & _ & _ & _ & _ & _ & Hedges & Hgraph).
  destruct (finalizeGraph_listedOnce (ReadAndProcess records onRecord NewGraphBuilder).1)
    as (Hnodup & Hlisted & _); [by rewrite Hedges|by rewrite Hgraph|].
  simpl in Hnodup, Hlisted.
  assert (Edges (graph (finalizeGraph (ReadAndProcess records onRecord NewGraphBuilder).1))
          ≡ₚ (map_to_list
                (edgeMap (finalizeGraph (ReadAndProcess records onRecord NewGraphBuilder).1))).*1)
    as Hperm.
  { apply NoDup_Permutation; [done|apply NoDup_fst_map_to_list|].
    intros key. rewrite Hlisted, list_elem_of_fmap. split.
    - intros [edge Hedge]. exists (key, edge). split; [done|]. by apply elem_of_map_to_list.
    - intros ([key' edge] & -> & Hin%elem_of_map_to_list). by eexists. }
  split; [done|]. split; [done|].
  unfold GetGraph; cbn [snd]. rewrite Hperm. apply reflexive_eq, omap_lookup_keys.
  intros key edge. apply elem_of_map_to_list.
Qed.

Lemma new_build_lists_every_edge_once_witness :
  let gb' := (BuildGraph (H:=SampleHost.host) Logs.fiveSessions NewGraphBuilder).1 in
  NoDup (Edges (graph gb'))
  ∧ Edges (graph gb') ≡ₚ (map_to_list (edgeMap gb')).*1
  ∧ (GetGraph gb').2 ≡ₚ (map_to_list (edgeMap gb')).*2.
Proof.
  apply (new_build_lists_every_edge_once (H:=SampleHost.host) Logs.fiveSessions).
  vm_compute. reflexivity.
Defined.

(** X7.  After a successful build on a new builder, [GetGraph] returns the
    nodes of the node map, each once, followed by the green "start" node and
    the red "end" node, whose [Count] and [Total] are the number of distinct
    case identifiers of the records. *)
Theorem new_build_lists_the_nodes `{Host}
    (records : list (list string)) (gb' : GraphBuilder) :
  BuildGraph records NewGraphBuilder = (gb', None) →
  let cases := Z.of_nat (size (list_to_set (caseIds records) : gset string)) in
  ∃ owned,
    (GetGraph gb').1
    = owned ++ [ {| Node.ID := "start"; Node.Label := "Начало процесса"; Node.Count := cases;
                    Node.Total := cases; Node.Color := "green" |};
                 {| Node.ID := "end"; Node.Label := "Конец"; Node.Count := cases;
                    Node.Total := cases; Node.Color := "red" |} ]
    ∧ owned ≡ₚ (map_to_list (nodeMap gb')).*2.
Proof.
  intros Hbuild cases.
  destruct (new_build_counts_every_step_aux _ _ Hbuild) as [_ Hsize].
  apply BuildGraph_ok_read in Hbuild as [Hok ->].
  destruct (ReadAndProcess_events records NewGraphBuilder "")
    as (_ & _ & _ & _ & _ & _ & _ & _ & Hgraph).
  set (gb1 := (ReadAndProcess records onRecord NewGraphBuilder).1) in *.
  exists (range 949 0 (nodeMap (finalizeGraph gb1))).*2. split.
  - unfold GetGraph; cbn [fst]. rewrite finalizeGraph_Nodes, Hgraph. cbn [Nodes graph NewGraphBuilder app].
    rewrite omap_app. f_equal.
    + rewrite <- (omap_lookup_keys (nodeMap (finalizeGraph gb1))
                   (range 949 0 (nodeMap (finalizeGraph gb1))))
        by (intros key node; apply range_elem_of).
      clear. induction (range 949 0 _) as [|[key node] l IH]; [done|].
      cbn [map fmap list_fmap omap list_omap derefNode fst]. by rewrite IH.
    + rewrite finalizeGraph_sessionMap in Hsize. unfold boundaryNode, cases.
      by rewrite Hsize.
  - apply fmap_Permutation, range_perm.
Qed.

(** X8.  In every state the builder can reach from a new builder through
    builds (successful or failed), clearings and servings of the graph,
    every session holds at least one event, and every event of a session
    bears, as [SessionID] and as [ID], the case identifier the session is
    stored under; so every instance [GetProcessInstances] returns has at
    least one event. *)
Theorem reachable_sessions_are_sound `{Host} (gb : GraphBuilder) :
  reachable gb →
  sessionsSound gb
  ∧ Forall (fun instance => metrics.Events instance ≠ []) (GetProcessInstances gb).
Proof.
  intros (Hsessions & _)%reachable_sound. split; [done|].
  unfold GetProcessInstances. apply Forall_forall.
  intros instance ([id session] & -> & Hin%range_elem_of)%(list_elem_of_fmap_1 _ _ _).
  simpl. destruct (Hsessions _ _ Hin) as [Hne _]. by destruct (Events session).
Qed.

Lemma served_is_reachable : reachable (H:=SampleHost.host) Cases.served.
Proof. apply reachable_serve, reachable_build, reachable_build, reachable_new. Defined.

Lemma reachable_sessions_are_sound_witness :
  sessionsSound Cases.served
  ∧ Forall (fun instance => metrics.Events instance ≠ [])
           (GetProcessInstances (H:=SampleHost.host) Cases.served).
Proof.
  apply (reachable_sessions_are_sound (H:=SampleHost.host) Cases.served).
  apply served_is_reachable.
Defined.

(** X9.  In every reachable state, every node of the node map is stored
    under its own ID, which is also its label, is blue, and has equal and
    positive [Count] and [Total]. *)
Theorem reachable_nodes_are_sound `{Host} (gb : GraphBuilder) :
  reachable gb → nodesSound gb.
Proof. by intros (_ & Hnodes & _)%reachable_sound. Qed.

Lemma reachable_nodes_are_sound_witness : nodesSound Cases.served.
Proof.
  apply (reachable_nodes_are_sound (H:=SampleHost.host) Cases.served).
  apply served_is_reachable.
Defined.

(** X10.  In every reachable state, every edge of the edge map is stored
    under the key [From + "_" + To], has a positive count, leaves a node of
    the node map or "start", and enters a node of the node map or "end": no
    edge dangles. *)
Theorem reachable_edges_are_sound `{Host} (gb : GraphBuilder) :
  reachable gb → edgesSound gb.
Proof. by intros (_ & _ & Hedges & _)%reachable_sound. Qed.

Lemma reachable_edges_are_sound_witness : edgesSound Cases.served.
Proof.
  apply (reachable_edges_are_sound (H:=SampleHost.host) Cases.served).
  apply served_is_reachable.
Defined.

(** X11.  In every reachable state, every pointer of the graph's node list
    leads to a node of the node map or is a boundary node, and every pointer
    of its edge list leads to an edge of the edge map; [GetGraph] returns as
    many nodes and edges as the lists hold. *)
Theorem reachable_graph_is_sound `{Host} (gb : GraphBuilder) :
  reachable gb →
  graphSound gb
  ∧ length (GetGraph gb).1 = length (Nodes (graph gb))
  ∧ length (GetGraph gb).2 = length (Edges (graph gb)).
Proof.
  intros (_ & _ & _ & Hgraph)%reachable_sound. split; [done|].
  destruct Hgraph as [Hnodes Hedges]. unfold GetGraph; simpl. split.
  - induction Hnodes as [|ref refs Href _ IH]; [done|]. cbn [omap list_omap length].
    destruct ref as [key|node]; cbn [derefNode nodeListed] in *.
    + destruct Href as [node Hnode]. rewrite Hnode. cbn [length]. by rewrite IH.
    + cbn [length]. by rewrite IH.
  - induction Hedges as [|key keys [edge Hkey] _ IH]; [done|]. cbn [omap list_omap length].
    rewrite Hkey. cbn [length]. by rewrite IH.
Qed.

Lemma reachable_graph_is_sound_witness :
  graphSound Cases.served
  ∧ length (GetGraph Cases.served).1 = length (Nodes (graph Cases.served))
  ∧ length (GetGraph Cases.served).2 = length (Edges (graph Cases.served)).
Proof.
  apply (reachable_graph_is_sound (H:=SampleHost.host) Cases.served).
  apply served_is_reachable.
Defined.

Lemma new_build_lists_the_nodes_witness :
  let gb' := (BuildGraph (H:=SampleHost.host) Logs.fiveSessions NewGraphBuilder).1 in
  let cases := Z.of_nat (size (list_to_set (caseIds Logs.fiveSessions) : gset string)) in
  ∃ owned,
    (GetGraph gb').1
    = owned ++ [ {| Node.ID := "start"; Node.Label := "Начало процесса"; Node.Count := cases;
                    Node.Total := cases; Node.Color := "green" |};
                 {| Node.ID := "end"; Node.Label := "Конец"; Node.Count := cases;
                    Node.Total := cases; Node.Color := "red" |} ]
    ∧ owned ≡ₚ (map_to_list (nodeMap gb')).*2.
Proof.
  apply (new_build_lists_the_nodes (H:=SampleHost.host) Logs.fiveSessions).
  vm_compute. reflexivity.
Defined.

(** ** The report of a log without instances *)

Section empty_facts.
Context `{Host}.

Lemma rawMetrics_empty : rawMetrics ∅ = [].
Proof.
  unfold rawMetrics, collectLoopingMetrics, collectDurationMetrics, collectDurations,
    collectManualStageMetrics, collectComplexityMetrics, collectCompletionMetrics,
    collectErrorMetrics, successInstances, errorInstances.
  rewrite !range_empty, map_size_empty. reflexivity.
Qed.

Lemma aggregate_defs definitions raws : Def <$> aggregate definitions raws = definitions.
Proof.
  apply map_eq. intros key. rewrite lookup_fmap, aggregate_lookup.
  by destruct (definitions !! key).
Qed.

Lemma Metrics_length definitions instances :
  length (Metrics (Analyze definitions instances)) = size definitions.
Proof.
  rewrite Metrics_Analyze, length_map, range_length.
  rewrite <- (map_size_fmap Def). by rewrite aggregate_defs.
Qed.

End empty_facts.

(** X13.  The report on no instances: zero instances, zero events, zero
    average and median duration, and the twelve metrics of the catalog, each
    without occurrences, with count 0, totals 0 and [Exceeded] false.  That
    is the report of a new builder and of a builder that has just been
    cleared. *)
Theorem empty_log_report `{Host} :
  let report := AnalyzeWithCatalog ∅ in
  (TotalProcessInstances report, TotalEvents report,
   AverageProcessDuration report, MedianProcessDuration report)
  = (0, 0, 0%float, 0%float)
  ∧ length (Metrics report) = 12%nat
  ∧ Forall (fun m => (Occurrences m, Count m, TotalValue m, TotalWastedDuration m, Exceeded m)
                     = ([], 0, 0%float, 0%float, false))
           (Metrics report)
  ∧ GetMetricsReport NewGraphBuilder = report
  ∧ ∀ gb, GetMetricsReport (ClearGraph gb) = report.
Proof.
  intros report.
  assert (GetMetricsReport NewGraphBuilder = report) as Hnew.
  { unfold GetMetricsReport, GetProcessInstances.
    change (sessionMap NewGraphBuilder) with (∅ : gmap string Session).
    by rewrite range_empty. }
  split; [|split; [|split; [|split; [done|by intros gb]]]].
  - unfold report, AnalyzeWithCatalog, Analyze, processDurations; simpl.
    by rewrite !range_empty.
  - apply Metrics_length.
  - apply Forall_forall. intros m (key & def & _ & ->)%Metrics_elem_of.
    by rewrite rawMetrics_empty.
Qed.

(** ** The totals of a report *)

Section totals_facts.
Context `{Host}.

Lemma total_events_fold (l : list (string * ProcessInstance)) (start : Z) :
  fold_left (fun total '(_, instance) => total + Z.of_nat (length (metrics.Events instance)))
    l start
  = start + Z.of_nat (length (flat_map (fun kv => metrics.Events kv.2) l)).
Proof.
  revert start. induction l as [|[key instance] l IH]; intros start; simpl; [lia|].
  rewrite IH, length_app. lia.
Qed.

End totals_facts.

(** X14.  [TotalProcessInstances] is the number of entries of the instance
    map, and [TotalEvents] is the number of events of all its instances,
    whatever the order in which the map is visited. *)
Theorem report_totals `{Host} (instances : gmap string ProcessInstance) :
  let report := AnalyzeWithCatalog instances in
  TotalProcessInstances report = Z.of_nat (size instances)
  ∧ TotalEvents report
    = Z.of_nat (length (flat_map (fun kv => metrics.Events kv.2) (map_to_list instances))).
Proof.
  intros report. split; [done|].
  unfold report, AnalyzeWithCatalog, Analyze; simpl.
  rewrite total_events_fold.
  by rewrite (Permutation_length (Permutation_flat_map _ (range_perm _ 204%N 0%nat instances))).
Qed.

(** ** Nothing a detector reports is lost *)

Section bucket_facts.
Context `{Host}.

Lemma map_to_list_keyed {A B : Type} (g : string → A → B)
    (m : gmap string A) (m' : gmap string B) :
  (∀ key, m' !! key = g key <$> m !! key) →
  map_to_list m' ≡ₚ (fun kv => (kv.1, g kv.1 kv.2)) <$> map_to_list m.
Proof.
  intros Hlookup. apply NoDup_Permutation.
  - apply NoDup_map_to_list.
  - apply (NoDup_fmap_1 fst). rewrite <- list_fmap_compose.
    apply NoDup_fst_map_to_list.
  - intros [key b]. rewrite elem_of_map_to_list, Hlookup, list_elem_of_fmap. split.
    + destruct (m !! key) as [a|] eqn:Ha; [|done]. intros [= <-].
      exists (key, a). split; [done|]. by apply elem_of_map_to_list.
    + intros ([key' a] & [= -> ->] & Hin%elem_of_map_to_list). by rewrite Hin.
Qed.

(** Sorting a list into the buckets of pairwise distinct keys that cover it
    rearranges the list. *)
Lemma buckets_perm (keys : list string) (raws : list rawMetric) :
  NoDup keys → Forall (fun raw => metricType raw ∈ keys) raws →
  concat ((fun key => occurrencesOf key raws) <$> keys) ≡ₚ occurrence <$> raws.
Proof.
  intros Hnodup. induction 1 as [|raw raws Hin _ IH]; simpl.
  - induction keys as [|key keys IHk]; [done|]. simpl. apply IHk.
    by apply NoDup_cons in Hnodup as [_ ?].
  - rewrite <- IH. clear IH.
    induction keys as [|key keys IHk]; [by apply elem_of_nil in Hin|].
    apply NoDup_cons in Hnodup as [Hnotin Hnodup]. simpl.
    unfold occurrencesOf at 1. rewrite filter_cons.
    destruct (decide (metricType raw = key)) as [Hkey|Hkey]; simpl.
    + apply Permutation_skip. fold (occurrencesOf key raws).
      apply Permutation_app_head.
      assert (Forall (fun key' => occurrencesOf key' (raw :: raws) = occurrencesOf key' raws)
                keys) as Hsame.
      { apply Forall_forall. intros key' Hin'. unfold occurrencesOf.
        rewrite filter_cons, decide_False; [done|]. intros Heq. congruence. }
      clear -Hsame. induction Hsame as [|key' keys Heq _ IH]; simpl; [done|].
      by rewrite Heq, IH.
    + fold (occurrencesOf key raws).
      apply elem_of_cons in Hin as [Hin|Hin]; [done|].
      rewrite (IHk Hnodup Hin). by rewrite Permutation_middle.
Qed.

Ltac cataloged :=
  let raw := fresh "raw" in
  let Hin := fresh "Hin" in
  let Hsub := fresh "Hsub" in
  intros raw Hin; cbv beta in Hin;
  match type of Hin with
  | _ ∈ ?keys =>
      assert (keys ⊆ (map_to_list initMetricDefinitions).*1) as Hsub by by_decision;
      exact (Hsub _ Hin)
  end.

Lemma rawMetrics_keys instances :
  Forall (fun raw => metricType raw ∈ (map_to_list initMetricDefinitions).*1)
         (rawMetrics instances).
Proof.
  unfold rawMetrics. repeat apply Forall_app_2.
  - eapply Forall_impl; [apply collectLoopingMetrics_keys|].
    cataloged.
  - eapply Forall_impl; [apply collectDurationMetrics_keys|].
    cataloged.
  - eapply Forall_impl; [apply collectManualStageMetrics_keys|].
    cataloged.
  - eapply Forall_impl; [apply collectComplexityMetrics_keys|].
    cataloged.
  - eapply Forall_impl; [apply collectCompletionMetrics_keys|].
    cataloged.
  - eapply Forall_impl; [apply collectErrorMetrics_keys|].
    cataloged.
Qed.

End bucket_facts.

(** X15.  Every key a detector reports under is a key of the catalog, so
    the merge loop drops nothing: the occurrences of the metrics of the
    report, taken together, are the occurrences the detectors reported,
    each once. *)
Theorem report_keeps_every_occurrence `{Host} (instances : gmap string ProcessInstance) :
  let report := AnalyzeWithCatalog instances in
  Forall (fun raw => is_Some (initMetricDefinitions !! metricType raw)) (rawMetrics instances)
  ∧ concat (Occurrences <$> Metrics report) ≡ₚ occurrence <$> rawMetrics instances.
Proof.
  intros report. split.
  - eapply Forall_impl; [apply rawMetrics_keys|]. intros raw Hin.
    apply list_elem_of_fmap in Hin as ([key def] & -> & Hin%elem_of_map_to_list).
    by eexists.
  - rewrite <- (buckets_perm _ _ (NoDup_fst_map_to_list initMetricDefinitions)
                  (rawMetrics_keys instances)).
    unfold report, AnalyzeWithCatalog. rewrite Metrics_Analyze.
    change (map (fun kv : string * InefficiencyMetric => finishMetric kv.2))
      with (fmap (M:=list) (fun kv : string * InefficiencyMetric => finishMetric kv.2)).
    rewrite range_perm.
    rewrite (map_to_list_keyed
               (fun key def => summaryOf def (occurrencesOf key (rawMetrics instances)))
               initMetricDefinitions) by apply aggregate_lookup.
    rewrite <- !list_fmap_compose. reflexivity.
Qed.

(** ** The error rate, whatever the order of the scan *)

Section error_rule_facts.
Context `{Host}.

Lemma map_to_list_filter_perm {A : Type} (P : string * A → Prop) `{∀ kv, Decision (P kv)}
    (m : gmap string A) :
  map_to_list (filter P m) ≡ₚ filter P (map_to_list m).
Proof.
  apply NoDup_Permutation.
  - apply NoDup_map_to_list.
  - apply NoDup_filter, NoDup_map_to_list.
  - intros [key a]. rewrite elem_of_map_to_list, map_lookup_filter_Some, list_elem_of_filter.
    rewrite elem_of_map_to_list. tauto.
Qed.

Lemma range_count {A : Type} (P : string * A → Prop) `{∀ kv, Decision (P kv)}
    line visit (m : gmap string A) :
  length (filter P (range line visit m)) = size (filter P m).
Proof.
  rewrite (range_perm A line visit m), <- map_to_list_filter_perm.
  apply length_map_to_list.
Qed.

End error_rule_facts.

(** X16.  [collectErrorMetrics], in closed form: with [errors] the number of
    instances that have an event whose result is "error", one "ALL"
    occurrence of value [errors] is reported iff the instances with an error
    are more than half of all instances ([size < 2 * errors]), and nothing is
    reported otherwise; the outcome does not depend on the order in which
    the map is visited. *)
Theorem error_rate_is_a_majority_rule `{Host} (instances : gmap string ProcessInstance) :
  let errors :=
    size (filter (fun kv : string * ProcessInstance => hasError kv.2 = true) instances) in
  collectErrorMetrics instances
  = if (size instances <? 2 * errors)%nat
    then [mkRaw "High Error Rate" "ALL" (F64.of_nat errors) 0%float
            (ErrorsText errors (size instances - errors))]
    else [].
Proof.
  intros errors.
  destruct (collectErrorMetrics_rule instances) as [Hsum _].
  assert (errorInstances instances = errors) as Herrors by apply range_count.
  assert (successInstances instances = (size instances - errors)%nat) as Hsuccesses by lia.
  unfold collectErrorMetrics. rewrite Herrors, Hsuccesses.
  destruct (size instances - errors <? errors)%nat eqn:Hlt.
  - apply Nat.ltb_lt in Hlt. by rewrite (proj2 (Nat.ltb_lt _ _)) by lia.
  - apply Nat.ltb_ge in Hlt. by rewrite (proj2 (Nat.ltb_ge _ _)) by lia.
Qed.

(** ** The looping detectors, step by step *)

Lemma flat_map_ext_elem {A B : Type} (f g : A → list B) (l : list A) :
  (∀ a, a ∈ l → f a = g a) → flat_map f l = flat_map g l.
Proof.
  induction l as [|a l IH]; intros Hext; simpl; [done|].
  rewrite (Hext a) by apply list_elem_of_here.
  rewrite IH; [done|]. intros a' Hin. by apply Hext, list_elem_of_further.
Qed.

(** A loop over the indices [1 .. len-1] that reads the elements at [i-1]
    and [i] goes through the consecutive pairs, [i] being the index of the
    second element. *)
Lemma index_loop_steps {A B : Type} `{Inhabited A} (g : nat → A → A → list B) (l : list A) :
  flat_map (fun i => g i (l !!! (i - 1)%nat) (l !!! i)) (seq 1 (length l - 1))
  = flat_map (fun '(i, (a, b)) => g i a b) (steps l).
Proof.
  unfold steps. revert g. induction l as [|a [|b l] IH]; intros g; [done..|].
  replace (length (a :: b :: l) - 1)%nat with (S (length (b :: l) - 1)) by (simpl; lia).
  rewrite <- cons_seq. cbn [flat_map]. rewrite flat_map_seq_S.
  change (consecutive (a :: b :: l)) with ((a, b) :: consecutive (b :: l)).
  cbn [imap flat_map]. f_equal.
  specialize (IH (fun i => g (S i))). cbn beta in IH.
  transitivity (flat_map (fun i => g (S i) ((b :: l) !!! (i - 1)%nat) ((b :: l) !!! i))
                  (seq 1 (length (b :: l) - 1))).
  - apply flat_map_ext_elem. intros i Hi%elem_of_seq.
    destruct i as [|i]; [lia|]. simpl. by rewrite Nat.sub_0_r.
  - rewrite IH. clear. generalize (consecutive (b :: l)). intros pairs.
    rewrite !flat_map_concat_map. f_equal.
    change (map ?f (imap ?g pairs)) with (f <$> imap g pairs).
    rewrite !fmap_imap. apply imap_ext. by intros i [a' b'] _.
Qed.

Section looping_parts.
Context `{Host}.

Lemma selfLoops_keys instance :
  Forall (fun raw => metricType raw ∈ ["Self-Loop"]) (selfLoops instance).
Proof. unfold selfLoops. keyed. Qed.

Lemma returnsToPrevious_keys instance :
  Forall (fun raw => metricType raw ∈ ["Return to Previous Stage"]) (returnsToPrevious instance).
Proof. unfold returnsToPrevious. keyed. Qed.

Lemma pingPongs_keys instance :
  Forall (fun raw => metricType raw ∈ ["Ping-Pong"]) (pingPongs instance).
Proof. unfold pingPongs. keyed. Qed.

Lemma returnsToStart_keys instance :
  Forall (fun raw => metricType raw ∈ ["Return to Start"]) (returnsToStart instance).
Proof. unfold returnsToStart. keyed. Qed.

Lemma reworks_keys visit instance :
  Forall (fun raw => metricType raw ∈ ["Rework"]) (reworks visit instance).
Proof. unfold reworks. keyed. Qed.

Lemma selfLoops_steps instance :
  occurrence <$> selfLoops instance
  = flat_map (fun '(i, (a, b)) =>
        if decide (Description a = Description b)
        then [{| InstanceID := ID instance; Value := 1.0%float;
                 WastedDurationSeconds := elapsed a b;
                 Details := StepText i (Description b) |}]
        else [])
      (steps (metrics.Events instance)).
Proof.
  unfold selfLoops.
  rewrite <- (index_loop_steps (fun i a b =>
    if decide (Description a = Description b)
    then [{| InstanceID := ID instance; Value := 1.0%float;
             WastedDurationSeconds := elapsed a b;
             Details := StepText i (Description b) |}]
    else [])).
  change (fmap occurrence) with (map occurrence). rewrite map_flat_map.
  apply flat_map_ext. intros i.
  destruct (String.eqb_spec (Description (metrics.Events instance !!! i))
              (Description (metrics.Events instance !!! (i - 1)%nat))) as [Heq|Hne].
  - by rewrite decide_True.
  - by rewrite decide_False by congruence.
Qed.

End looping_parts.

(** X17.  The "Self-Loop" occurrences of an instance are, in order, one per
    pair of consecutive events with the same description: value 1, the
    seconds between the two events as wasted time, and the index of the
    second event with its description as details.  (An instance with fewer
    than two events has none.) *)
Theorem self_loops_are_the_repeated_steps `{Host} (visit : nat) (instance : ProcessInstance) :
  occurrencesOf "Self-Loop" (loopingOf visit instance)
  = flat_map (fun '(i, (a, b)) =>
        if decide (Description a = Description b)
        then [{| InstanceID := ID instance; Value := 1.0%float;
                 WastedDurationSeconds := elapsed a b;
                 Details := StepText i (Description b) |}]
        else [])
      (steps (metrics.Events instance)).
Proof.
  unfold loopingOf. destruct (_ <? _)%nat eqn:Hshort.
  - apply Nat.ltb_lt in Hshort.
    by destruct (metrics.Events instance) as [|a [|b l]]; [..|simpl in Hshort; lia].
  - rewrite !occurrencesOf_app.
    rewrite (occurrencesOf_own _ _ (selfLoops_keys instance)).
    rewrite (occurrencesOf_other _ _ _ (returnsToPrevious_keys instance)) by by_decision.
    rewrite (occurrencesOf_other _ _ _ (pingPongs_keys instance)) by by_decision.
    rewrite (occurrencesOf_other _ _ _ (returnsToStart_keys instance)) by by_decision.
    rewrite (occurrencesOf_other _ _ _ (reworks_keys visit instance)) by by_decision.
    rewrite !app_nil_r. apply selfLoops_steps.
Qed.

Lemma elem_of_index_loop {B : Type} (c : nat → bool) (x : nat → B) (start len : nat) (y : B) :
  y ∈ flat_map (fun i => if c i then [x i] else []) (seq start len)
  ↔ ∃ i, (start ≤ i < start + len)%nat ∧ c i = true ∧ y = x i.
Proof.
  rewrite list_elem_of_In, in_flat_map. split.
  - intros (i & Hi%in_seq & Hy). exists i. split; [done|].
    destruct (c i); [|done]. split; [done|]. by destruct Hy.
  - intros (i & Hi & Hc & ->). exists i. split; [by apply in_seq|].
    rewrite Hc. by left.
Qed.

Section ping_pong_facts.
Context `{Host}.

Lemma elem_of_pingPongs instance raw :
  raw ∈ pingPongs instance ↔
  ∃ i, (3 ≤ i < length (metrics.Events instance))%nat
    ∧ Description (metrics.Events instance !!! i)
      = Description (metrics.Events instance !!! (i - 2)%nat)
    ∧ Description (metrics.Events instance !!! (i - 1)%nat)
      = Description (metrics.Events instance !!! (i - 3)%nat)
    ∧ raw = mkRaw "Ping-Pong" (ID instance) 1.0
              (elapsed (metrics.Events instance !!! (i - 3)%nat)
                       (metrics.Events instance !!! (i - 1)%nat))
              (PingPongText i (Description (metrics.Events instance !!! (i - 1)%nat))
                 (Description (metrics.Events instance !!! i))).
Proof.
  unfold pingPongs. cbv zeta.
  rewrite (elem_of_index_loop
    (fun i => String.eqb (Description (metrics.Events instance !!! i))
                (Description (metrics.Events instance !!! (i - 2)%nat))
              && String.eqb (Description (metrics.Events instance !!! (i - 1)%nat))
                   (Description (metrics.Events instance !!! (i - 3)%nat)))).
  split; intros (i & Hi & Hrest); exists i; (split; [lia|]).
  - destruct Hrest as [[H1%String.eqb_eq H2%String.eqb_eq]%andb_prop ->]. done.
  - destruct Hrest as (H1 & H2 & ->). split; [|done].
    apply andb_true_intro. by rewrite !String.eqb_eq.
Qed.

Lemma elem_of_returnsToPrevious instance raw :
  raw ∈ returnsToPrevious instance ↔
  ∃ i, (2 ≤ i < length (metrics.Events instance))%nat
    ∧ Description (metrics.Events instance !!! i)
      = Description (metrics.Events instance !!! (i - 2)%nat)
    ∧ raw = mkRaw "Return to Previous Stage" (ID instance) 1.0
              (elapsed (metrics.Events instance !!! (i - 2)%nat)
                       (metrics.Events instance !!! i))
              (StepText i (Description (metrics.Events instance !!! i))).
Proof.
  unfold returnsToPrevious. cbv zeta.
  rewrite (elem_of_index_loop
    (fun i => String.eqb (Description (metrics.Events instance !!! i))
                (Description (metrics.Events instance !!! (i - 2)%nat)))).
  split; intros (i & Hi & Hrest); exists i; (split; [lia|]).
  - by destruct Hrest as [H1%String.eqb_eq ->].
  - destruct Hrest as (H1 & ->). split; [|done]. by apply String.eqb_eq.
Qed.

Lemma loopingOf_elem_of visit instance raw :
  raw ∈ loopingOf visit instance ↔
  (2 ≤ length (metrics.Events instance))%nat
  ∧ (raw ∈ selfLoops instance ∨ raw ∈ returnsToPrevious instance ∨ raw ∈ pingPongs instance
     ∨ raw ∈ returnsToStart instance ∨ raw ∈ reworks visit instance).
Proof.
  unfold loopingOf. destruct (_ <? _)%nat eqn:Hshort.
  - apply Nat.ltb_lt in Hshort. split; [by intros ?%elem_of_nil|intros [? _]; lia].
  - apply Nat.ltb_ge in Hshort. rewrite !elem_of_app. tauto.
Qed.

Lemma keyed_elem_of (keys : list string) (raws : list rawMetric) raw :
  Forall (fun raw => metricType raw ∈ keys) raws → raw ∈ raws → metricType raw ∈ keys.
Proof. intros Hkeys Hin. by eapply Forall_forall in Hkeys. Qed.

End ping_pong_facts.

(** X18.  Every "Ping-Pong" occurrence of an instance, reported at step [i]
    for the descriptions [prev] and [cur], comes with two "Return to
    Previous Stage" occurrences of the same instance: one at step [i] for
    [cur] and one at step [i - 1] for [prev]. *)
Theorem ping_pong_is_also_two_returns `{Host}
    (visit : nat) (instance : ProcessInstance) (raw : rawMetric) :
  raw ∈ loopingOf visit instance →
  metricType raw = "Ping-Pong" →
  ∃ i prev cur,
    Details (occurrence raw) = PingPongText i prev cur
    ∧ (∃ back, back ∈ loopingOf visit instance
         ∧ metricType back = "Return to Previous Stage"
         ∧ Details (occurrence back) = StepText i cur)
    ∧ (∃ back, back ∈ loopingOf visit instance
         ∧ metricType back = "Return to Previous Stage"
         ∧ Details (occurrence back) = StepText (i - 1) prev).
Proof.
  intros [Hlen Hin]%loopingOf_elem_of Hkey.
  assert (raw ∈ pingPongs instance) as Hping.
  { destruct Hin as [Hin|[Hin|[Hin|[Hin|Hin]]]]; [..|done| |].
    - apply (keyed_elem_of _ _ _ (selfLoops_keys instance)) in Hin.
      rewrite Hkey in Hin. by apply list_elem_of_singleton in Hin.
    - apply (keyed_elem_of _ _ _ (returnsToPrevious_keys instance)) in Hin.
      rewrite Hkey in Hin. by apply list_elem_of_singleton in Hin.
    - apply (keyed_elem_of _ _ _ (returnsToStart_keys instance)) in Hin.
      rewrite Hkey in Hin. by apply list_elem_of_singleton in Hin.
    - apply (keyed_elem_of _ _ _ (reworks_keys visit instance)) in Hin.
      rewrite Hkey in Hin. by apply list_elem_of_singleton in Hin. }
  apply elem_of_pingPongs in Hping as (i & Hi & Hcur & Hprev & ->).
  eexists i, _, _. split; [reflexivity|]. split.
  - eexists. split.
    { apply loopingOf_elem_of. split; [done|]. right; left.
      apply elem_of_returnsToPrevious. exists i. split; [lia|]. by split. }
    split; reflexivity.
  - eexists. split.
    { apply loopingOf_elem_of. split; [done|]. right; left.
      apply elem_of_returnsToPrevious. exists (i - 1)%nat. split; [lia|].
      replace (i - 1 - 2)%nat with (i - 3)%nat by lia. by split. }
    split; reflexivity.
Qed.

(** ** Rework: the descriptions that repeat *)

Lemma filter_ext_elem {A : Type} (P Q : A → Prop) `{∀ x, Decision (P x)} `{∀ x, Decision (Q x)}
    (l : list A) :
  (∀ x, x ∈ l → P x ↔ Q x) → filter P l = filter Q l.
Proof.
  induction l as [|x l IH]; intros Hext; [done|].
  rewrite !filter_cons.
  destruct (decide (P x)) as [HP|HP], (decide (Q x)) as [HQ|HQ].
  - f_equal. apply IH. intros y Hy. by apply Hext, list_elem_of_further.
  - exfalso. apply HQ, (Hext x); [apply list_elem_of_here|done].
  - exfalso. apply HP, (Hext x); [apply list_elem_of_here|done].
  - apply IH. intros y Hy. by apply Hext, list_elem_of_further.
Qed.

Lemma positions_snoc desc events event :
  positions desc (events ++ [event])
  = positions desc events
    ++ (if decide (Description event = desc) then [length events] else []).
Proof.
  unfold positions. rewrite length_app. simpl.
  rewrite seq_app, filter_app. simpl. f_equal.
  - apply filter_ext_elem. intros i Hi%elem_of_seq.
    by rewrite lookup_total_app_l by lia.
  - rewrite filter_cons, filter_nil.
    by rewrite list_lookup_total_middle.
Qed.

Lemma timesIn_snoc desc events event :
  timesIn desc (events ++ [event])
  = (timesIn desc events + if decide (Description event = desc) then 1 else 0)%nat.
Proof.
  unfold timesIn. rewrite filter_app, length_app, filter_cons, filter_nil.
  by destruct (decide _).
Qed.

Lemma positions_length desc events : length (positions desc events) = timesIn desc events.
Proof.
  induction events as [|event events IH] using rev_ind; [done|].
  rewrite positions_snoc, timesIn_snoc, length_app, IH. by destruct (decide _).
Qed.

(** The index map of [collectLoopingMetrics]: under every description that
    occurs, the indices at which it occurs. *)
Lemma eventIndices_lookup events desc :
  eventIndices events !! desc
  = if decide (positions desc events = []) then None else Some (positions desc events).
Proof.
  unfold eventIndices. induction events as [|event events IH] using rev_ind; [done|].
  rewrite imap_app, fold_left_app. cbn [imap fold_left]. rewrite Nat.add_0_r, positions_snoc.
  destruct (decide (Description event = desc)) as [Hdesc|Hdesc].
  - rewrite Hdesc, lookup_insert_eq, IH.
    destruct (decide (positions desc events = [])) as [->|Hpos]; cbn [default app].
    + by destruct (decide _).
    + destruct (decide _) as [Hnil|_]; [|done]. by destruct (positions desc events).
  - rewrite lookup_insert_ne by done. by rewrite app_nil_r.
Qed.

Lemma timesIn_pos desc events :
  (0 < timesIn desc events)%nat ↔ desc ∈ Description <$> events.
Proof.
  unfold timesIn. rewrite list_elem_of_fmap. split.
  - destruct (filter _ events) as [|event rest] eqn:Hfilter; simpl; [lia|]. intros _.
    assert (event ∈ filter (fun e => Description e = desc) events) as Hin
      by (rewrite Hfilter; apply list_elem_of_here).
    apply list_elem_of_filter in Hin as [Hdesc Hin]. by exists event.
  - intros (event & -> & Hin).
    assert (event ∈ filter (fun e => Description e = Description event) events) as Hfilter
      by by apply list_elem_of_filter.
    destruct (filter _ events); [by apply elem_of_nil in Hfilter|simpl; lia].
Qed.

(** The entries of the index map are those of the descriptions that occur. *)
Lemma eventIndices_entries events :
  map_to_list (eventIndices events)
  ≡ₚ (fun desc => (desc, positions desc events)) <$> remove_dups (Description <$> events).
Proof.
  apply NoDup_Permutation.
  - apply NoDup_map_to_list.
  - apply NoDup_fmap_2_strong; [|apply NoDup_remove_dups]. by intros d1 d2 _ _ [= ->].
  - intros [desc indices]. rewrite elem_of_map_to_list, eventIndices_lookup, list_elem_of_fmap.
    pose proof (positions_length desc events) as Hlen.
    pose proof (timesIn_pos desc events) as Hpos.
    split.
    + destruct (decide (positions desc events = [])) as [Hnil|Hne]; [done|].
      intros [= <-]. exists desc. split; [done|]. apply elem_of_remove_dups, Hpos.
      destruct (positions desc events); [done|simpl in Hlen; lia].
    + intros (desc' & [= -> ->] & Hin%elem_of_remove_dups%Hpos).
      rewrite decide_False; [done|]. intros Hnil. rewrite Hnil in Hlen. simpl in Hlen. lia.
Qed.

Lemma flat_map_if_filter {A B : Type} (P : A → Prop) `{∀ a, Decision (P a)}
    (h : A → B) (l : list A) :
  flat_map (fun a => if decide (P a) then [h a] else []) l = h <$> filter P l.
Proof.
  induction l as [|a l IH]; [done|]. simpl. rewrite filter_cons, IH.
  by destruct (decide (P a)).
Qed.

Lemma timesIn_le_length desc events : (timesIn desc events ≤ length events)%nat.
Proof. apply length_filter. Qed.

Lemma timesIn_NoDup events :
  NoDup (Description <$> events) ↔ ∀ desc, (timesIn desc events ≤ 1)%nat.
Proof.
  induction events as [|event events IH]; simpl.
  - split; [intros _ desc; unfold timesIn; simpl; lia|constructor].
  - rewrite NoDup_cons, IH. unfold timesIn. split.
    + intros [Hnotin Hrest] desc. rewrite filter_cons.
      destruct (decide (Description event = desc)) as [<-|Hne]; [|apply Hrest].
      simpl. destruct (decide (0 < timesIn (Description event) events)%nat) as [Hpos|Hzero].
      * by apply timesIn_pos in Hpos.
      * unfold timesIn in Hzero. lia.
    + intros Hall. split.
      * intros Hin%timesIn_pos. specialize (Hall (Description event)).
        rewrite filter_cons, decide_True in Hall by done.
        unfold timesIn in Hin. simpl in Hall. lia.
      * intros desc. specialize (Hall desc). rewrite filter_cons in Hall.
        destruct (decide _); simpl in Hall; lia.
Qed.

Section rework_facts.
Context `{Host}.

Lemma reworks_entries visit instance :
  occurrence <$> reworks visit instance
  ≡ₚ reworkOf instance
     <$> filter (fun desc => (2 ≤ timesIn desc (metrics.Events instance))%nat)
           (remove_dups (Description <$> metrics.Events instance)).
Proof.
  unfold reworks. cbv zeta.
  change (fmap occurrence) with (map occurrence). rewrite map_flat_map.
  rewrite (Permutation_flat_map _ (range_perm _ 434%N visit _)).
  rewrite (Permutation_flat_map _ (eventIndices_entries _)).
  rewrite <- flat_map_if_filter.
  rewrite flat_map_concat_map.
  change (map ?f ((fun desc => (desc, positions desc (metrics.Events instance)))
                  <$> ?l)) with (f <$> ((fun desc => (desc, positions desc (metrics.Events instance))) <$> l)).
  rewrite <- list_fmap_compose, <- flat_map_concat_map.
  apply reflexive_eq, flat_map_ext. intros desc. simpl.
  rewrite positions_length.
  destruct (decide (2 ≤ timesIn desc (metrics.Events instance))%nat) as [Htwo|Hone].
  - by rewrite (proj2 (Nat.ltb_lt _ _)) by lia.
  - by rewrite (proj2 (Nat.ltb_ge _ _)) by lia.
Qed.

End rework_facts.

Lemma rework_counts_the_repeats_aux `{Host} (visit : nat) (instance : ProcessInstance) :
  occurrencesOf "Rework" (loopingOf visit instance)
  ≡ₚ reworkOf instance
     <$> filter (fun desc => (2 ≤ timesIn desc (metrics.Events instance))%nat)
           (remove_dups (Description <$> metrics.Events instance)).
Proof.
  unfold loopingOf. destruct (_ <? _)%nat eqn:Hshort.
  - apply Nat.ltb_lt in Hshort. rewrite filter_Forall_nil; [done|].
    apply Forall_forall. intros desc _.
    pose proof (timesIn_le_length desc (metrics.Events instance)). lia.
  - rewrite !occurrencesOf_app.
    rewrite (occurrencesOf_own _ _ (reworks_keys visit instance)).
    rewrite (occurrencesOf_other _ _ _ (selfLoops_keys instance)) by by_decision.
    rewrite (occurrencesOf_other _ _ _ (returnsToPrevious_keys instance)) by by_decision.
    rewrite (occurrencesOf_other _ _ _ (pingPongs_keys instance)) by by_decision.
    rewrite (occurrencesOf_other _ _ _ (returnsToStart_keys instance)) by by_decision.
    apply reworks_entries.
Qed.

(** X19.  The "Rework" occurrences of an instance are, up to their order,
    one for every description that two or more of its events bear: its
    value is the number of those events less one, its details name the
    description and the number of those events, and its wasted time is
    computed from the indices at which the description occurs. *)
Theorem rework_counts_the_repeats `{Host} (visit : nat) (instance : ProcessInstance) :
  occurrencesOf "Rework" (loopingOf visit instance)
  ≡ₚ reworkOf instance
     <$> filter (fun desc => (2 ≤ timesIn desc (metrics.Events instance))%nat)
           (remove_dups (Description <$> metrics.Events instance)).
Proof. apply rework_counts_the_repeats_aux. Qed.

Lemma flat_map_nil_elem {A B : Type} (f : A → list B) (l : list A) :
  (∀ a, a ∈ l → f a = []) → flat_map f l = [].
Proof.
  induction l as [|a l IH]; intros Hnil; [done|]. simpl.
  rewrite (Hnil a) by apply list_elem_of_here. simpl.
  apply IH. intros a' Hin. by apply Hnil, list_elem_of_further.
Qed.

Lemma descriptions_differ events i j :
  NoDup (Description <$> events) → (i < length events)%nat → (j < length events)%nat →
  i ≠ j → String.eqb (Description (events !!! i)) (Description (events !!! j)) = false.
Proof.
  intros Hnodup Hi Hj Hne. apply String.eqb_neq. intros Heq. apply Hne.
  apply (NoDup_lookup _ i j (Description (events !!! i)) Hnodup).
  - rewrite list_lookup_fmap. by rewrite (list_lookup_lookup_total_lt events i).
  - rewrite list_lookup_fmap. rewrite (list_lookup_lookup_total_lt events j) by done.
    simpl. by rewrite Heq.
Qed.

Section no_repeat_facts.
Context `{Host}.

Lemma no_repeat_no_step_loop instance :
  NoDup (Description <$> metrics.Events instance) →
  selfLoops instance = [] ∧ returnsToPrevious instance = [] ∧ pingPongs instance = []
  ∧ returnsToStart instance = [].
Proof.
  intros Hnodup. unfold selfLoops, returnsToPrevious, pingPongs, returnsToStart. cbv zeta.
  split; [|split; [|split]].
  - apply flat_map_nil_elem. intros i Hi%elem_of_seq.
    by rewrite descriptions_differ by (done || lia).
  - apply flat_map_nil_elem. intros i Hi%elem_of_seq.
    by rewrite descriptions_differ by (done || lia).
  - apply flat_map_nil_elem. intros i Hi%elem_of_seq.
    by rewrite (descriptions_differ _ i (i - 2)) by (done || lia).
  - destruct (_ <? _)%nat; [|done]. apply flat_map_nil_elem. intros i Hi%elem_of_seq.
    by rewrite descriptions_differ by (done || lia).
Qed.

End no_repeat_facts.

(** X20.  An instance yields no occurrence of any of the five looping
    metrics iff its events bear pairwise distinct descriptions. *)
Theorem looping_iff_a_description_repeats `{Host} (visit : nat) (instance : ProcessInstance) :
  loopingOf visit instance = [] ↔ NoDup (Description <$> metrics.Events instance).
Proof.
  pose proof (rework_counts_the_repeats_aux visit instance) as Hrework.
  split.
  - intros Hnone. rewrite Hnone in Hrework. apply timesIn_NoDup. intros desc.
    destruct (decide (timesIn desc (metrics.Events instance) ≤ 1)%nat) as [|Htwo]; [done|].
    exfalso. symmetry in Hrework. apply Permutation_nil_r, fmap_nil_inv in Hrework.
    assert (desc ∈ filter (fun desc => (2 ≤ timesIn desc (metrics.Events instance))%nat)
                     (remove_dups (Description <$> metrics.Events instance))) as Hin.
    { apply list_elem_of_filter. split; [lia|]. apply elem_of_remove_dups, timesIn_pos. lia. }
    rewrite Hrework in Hin. by apply elem_of_nil in Hin.
  - intros Hnodup. unfold loopingOf. destruct (_ <? _)%nat; [done|].
    destruct (no_repeat_no_step_loop instance Hnodup) as (-> & -> & -> & ->). simpl.
    assert (occurrence <$> reworks visit instance = []) as Hnil.
    { apply Permutation_nil_r. rewrite reworks_entries, filter_Forall_nil; [done|].
      apply Forall_forall. intros desc _.
      pose proof (proj1 (timesIn_NoDup _) Hnodup desc). lia. }
    by apply fmap_nil_inv in Hnil.
Qed.

Lemma ping_pong_is_also_two_returns_witness :
  ∃ i prev cur,
    Details (occurrence (mkRaw "Ping-Pong" "c1" 1.0 20.0 (PingPongText 3 "A" "B")))
    = PingPongText i prev cur
    ∧ (∃ back, back ∈ loopingOf (H:=SampleHost.host) 0 Cases.backAndForth
         ∧ metricType back = "Return to Previous Stage"
         ∧ Details (occurrence back) = StepText i cur)
    ∧ (∃ back, back ∈ loopingOf (H:=SampleHost.host) 0 Cases.backAndForth
         ∧ metricType back = "Return to Previous Stage"
         ∧ Details (occurrence back) = StepText (i - 1) prev).
Proof.
  apply (ping_pong_is_also_two_returns (H:=SampleHost.host) 0 Cases.backAndForth
           (mkRaw "Ping-Pong" "c1" 1.0 20.0 (PingPongText 3 "A" "B"))).
  - vm_compute. do 2 apply list_elem_of_further. apply list_elem_of_here.
  - reflexivity.
Defined.

(** ** Returns to the start *)

Lemma positions_first first rest :
  positions (Description first) (first :: rest)
  = 0%nat :: filter (fun i => Description ((first :: rest) !!! i) = Description first)
               (seq 1 (length rest)).
Proof. unfold positions. cbn [length seq]. by rewrite filter_cons, decide_True. Qed.

Lemma returnsToStart_positions `{Host} (instance : ProcessInstance) first rest :
  metrics.Events instance = first :: rest →
  occurrence <$> returnsToStart instance
  = (fun i => {| InstanceID := ID instance; Value := 1.0%float;
                 WastedDurationSeconds := 0%float;
                 Details := ReturnText i (Description first) |})
    <$> tail (positions (Description first) (first :: rest)).
Proof.
  intros Hevents. unfold returnsToStart. rewrite Hevents, positions_first.
  destruct rest as [|second rest]; [done|].
  cbn [tail length]. rewrite Nat.sub_succ, Nat.sub_0_r.
  replace (1 <? S (S (length rest)))%nat with true by done.
  rewrite <- flat_map_if_filter.
  change (fmap occurrence) with (map occurrence). rewrite map_flat_map.
  apply flat_map_ext. intros i.
  change ((first :: second :: rest) !!! 0%nat) with first.
  destruct (String.eqb_spec (Description ((first :: second :: rest) !!! i))
              (Description first)) as [Heq|Hne].
  - rewrite decide_True by done. simpl. by rewrite Heq.
  - by rewrite decide_False.
Qed.

(** X21.  An instance reports one "Return to Start" occurrence for every later
    position of the description of its first event, in increasing order of
    position, each of value 1 and with no wasted duration: as many as that
    description occurs in the instance, less one. *)
Theorem returns_to_start_repeat_the_first_activity `{Host}
    (visit : nat) (instance : ProcessInstance) (first : Event) (rest : list Event) :
  metrics.Events instance = first :: rest →
  occurrencesOf "Return to Start" (loopingOf visit instance)
  = (fun i => {| InstanceID := ID instance; Value := 1.0%float;
                 WastedDurationSeconds := 0%float;
                 Details := ReturnText i (Description first) |})
    <$> tail (positions (Description first) (metrics.Events instance))
  ∧ length (occurrencesOf "Return to Start" (loopingOf visit instance))
    = (timesIn (Description first) (metrics.Events instance) - 1)%nat.
Proof.
  intros Hevents.
  assert (occurrencesOf "Return to Start" (loopingOf visit instance)
          = occurrence <$> returnsToStart instance) as ->.
  { unfold loopingOf. destruct (_ <? _)%nat eqn:Hshort.
    - apply Nat.ltb_lt in Hshort. unfold returnsToStart.
      by replace (1 <? length (metrics.Events instance))%nat with false
        by (symmetry; apply Nat.ltb_ge; lia).
    - rewrite !occurrencesOf_app.
      rewrite (occurrencesOf_own _ _ (returnsToStart_keys instance)).
      rewrite (occurrencesOf_other _ _ _ (selfLoops_keys instance)) by by_decision.
      rewrite (occurrencesOf_other _ _ _ (returnsToPrevious_keys instance)) by by_decision.
      rewrite (occurrencesOf_other _ _ _ (pingPongs_keys instance)) by by_decision.
      rewrite (occurrencesOf_other _ _ _ (reworks_keys visit instance)) by by_decision.
      by rewrite app_nil_r. }
  rewrite (returnsToStart_positions instance first rest Hevents), <- Hevents.
  split; [done|].
  rewrite length_fmap, <- positions_length.
  by destruct (positions _ _); simpl; rewrite ?Nat.sub_0_r.
Qed.

Lemma returns_to_start_repeat_the_first_activity_witness :
  let instance := Cases.backAndForth in
  occurrencesOf "Return to Start" (loopingOf (H:=SampleHost.host) 0 instance)
  = (fun i => {| InstanceID := ID instance; Value := 1.0%float;
                 WastedDurationSeconds := 0%float;
                 Details := ReturnText i "A" |})
    <$> tail (positions "A" (metrics.Events instance))
  ∧ length (occurrencesOf "Return to Start" (loopingOf (H:=SampleHost.host) 0 instance))
    = (timesIn "A" (metrics.Events instance) - 1)%nat.
Proof.
  exact (returns_to_start_repeat_the_first_activity (H:=SampleHost.host) 0 Cases.backAndForth
           _ _ eq_refl).
Defined.

(** ** The most frequent activities *)

Import summary.

Lemma timesIn_perm desc events1 events2 :
  events1 ≡ₚ events2 → timesIn desc events1 = timesIn desc events2.
Proof. intros Hperm. unfold timesIn. by rewrite Hperm. Qed.

Lemma countActivities_lookup events counts desc :
  fold_left countActivity events counts !! desc
  = if decide (timesIn desc events = 0%nat) then counts !! desc
    else Some (default 0 (counts !! desc) + Z.of_nat (timesIn desc events)).
Proof.
  induction events as [|event events IH] using rev_ind; [done|].
  rewrite fold_left_app, timesIn_snoc. simpl. unfold countActivity at 1.
  destruct (decide (Description event = desc)) as [Hdesc|Hdesc].
  - rewrite Hdesc, lookup_insert_eq, IH.
    destruct (decide (timesIn desc events = 0%nat)) as [->|Hpos].
    + rewrite decide_False by lia. simpl. done.
    + rewrite decide_False by lia. simpl. f_equal. lia.
  - rewrite lookup_insert_ne by done. rewrite Nat.add_0_r. exact IH.
Qed.

Lemma gt_strictWeakOrder {A : Type} (count : A → Z) :
  strictWeakOrder (fun a b => count a >? count b).
Proof.
  split; [|split].
  - intros a. rewrite Z.gtb_ltb. apply Z.ltb_irrefl.
  - intros a b c. rewrite !Z.gtb_ltb, !Z.ltb_lt. lia.
  - intros a b c. rewrite !Z.gtb_ltb, !Z.ltb_ge. lia.
Qed.

(** Sorted by [sort.Slice] with [less(i, j) = count(i) > count(j)]: in
    non-increasing order of the counts. *)
Lemma sort_Slice_descending `{Sorter} {A : Type} (count : A → Z) (l : list A) :
  StronglySorted (fun a b => count b ≤ count a)
    (sort_Slice (fun a b => count a >? count b) l).
Proof.
  pose proof (sort_Slice_sorted A _ l (gt_strictWeakOrder count)) as Hsorted.
  assert (Transitive (fun a b : A => (count b >? count a) = false)) as Htrans.
  { intros a b c. rewrite !Z.gtb_ltb, !Z.ltb_ge. lia. }
  apply Sorted_StronglySorted in Hsorted; [|done].
  induction Hsorted as [|a l' _ IH Hall]; constructor; [done|].
  eapply Forall_impl; [exact Hall|]. intros b. simpl. rewrite Z.gtb_ltb, Z.ltb_ge. lia.
Qed.

(** The first five of a list in non-increasing order. *)
Lemma top_five {A : Type} (count : A → Z) (sorted : list A) :
  StronglySorted (fun a b => count b ≤ count a) sorted →
  let top := if (5 <? length sorted)%nat then take 5 sorted else sorted in
  top = take 5 sorted
  ∧ length top = (5 `min` length sorted)%nat
  ∧ StronglySorted (fun a b => count b ≤ count a) top
  ∧ ∀ a b, a ∈ top → b ∈ sorted → b ∉ top → count b ≤ count a.
Proof.
  intros Hsorted top.
  assert (top = take 5 sorted) as ->.
  { unfold top. destruct (5 <? length sorted)%nat eqn:Hlen; [done|].
    apply Nat.ltb_ge in Hlen. by rewrite take_ge. }
  rewrite <- (take_drop 5 sorted) in Hsorted.
  split; [done|]. split; [apply length_take|].
  split; [by apply StronglySorted_app_1_l in Hsorted|].
  intros a b Ha Hb Hnot. rewrite <- (take_drop 5 sorted), elem_of_app in Hb.
  destruct Hb as [Hb|Hb]; [done|].
  by apply (StronglySorted_app_1_elem_of _ _ _ a b Hsorted).
Qed.

Section activity_facts.
Context `{Host} `{Sorter}.

Lemma activityCounts_fold (l : list (string * ProcessInstance)) counts :
  fold_left (fun counts '(_, instance) =>
               fold_left countActivity (metrics.Events instance) counts) l counts
  = fold_left countActivity (flat_map (fun kv => metrics.Events kv.2) l) counts.
Proof.
  revert counts. induction l as [|[key instance] l IH]; intros counts; simpl; [done|].
  by rewrite IH, fold_left_app.
Qed.

Lemma activityCounts_lookup instances desc :
  let all := flat_map (fun kv => metrics.Events kv.2) (map_to_list instances) in
  activityCounts instances !! desc
  = if decide (timesIn desc all = 0%nat) then None else Some (Z.of_nat (timesIn desc all)).
Proof.
  intros all. unfold activityCounts. rewrite activityCounts_fold, countActivities_lookup.
  rewrite (timesIn_perm desc _ all)
    by apply Permutation_flat_map, range_perm.
  destruct (decide _); [done|]. rewrite lookup_empty. simpl. done.
Qed.

End activity_facts.

(** The first five of the entries of a count map, sorted by [sort.Slice]
    with [less(i, j) = count(i) > count(j)]. *)
Lemma top_five_of_counts `{Host} `{Sorter} {A : Type}
    (mk : string → Z → A) (keyOf : A → string) (count : A → Z)
    (counts : gmap string Z) (line : N) :
  (∀ key c, counts !! key = Some c → keyOf (mk key c) = key ∧ count (mk key c) = c) →
  let sorted :=
    sort_Slice (fun a b => count a >? count b)
      (map (fun '(key, c) => mk key c) (range line 0 counts)) in
  let top := if (5 <? length sorted)%nat then take 5 sorted else sorted in
  length top = (5 `min` size counts)%nat
  ∧ NoDup (keyOf <$> top)
  ∧ Forall (fun entry => counts !! keyOf entry = Some (count entry)
                         ∧ entry = mk (keyOf entry) (count entry)) top
  ∧ StronglySorted (fun a b => count b ≤ count a) top
  ∧ ∀ key c, counts !! key = Some c → key ∉ keyOf <$> top →
      Forall (fun entry => c ≤ count entry) top.
Proof.
  intros Hmk sorted top.
  set (entries := map (fun '(key, c) => mk key c) (range line 0 counts)).
  assert (sorted ≡ₚ entries) as Hperm by apply sort_Slice_perm.
  assert (∀ entry, entry ∈ entries ↔
            counts !! keyOf entry = Some (count entry)
            ∧ entry = mk (keyOf entry) (count entry)) as Hentries.
  { intros entry. unfold entries. change (map ?f ?l) with (f <$> l).
    rewrite list_elem_of_fmap. split.
    - intros ([key c] & -> & Hin%range_elem_of).
      destruct (Hmk _ _ Hin) as [-> ->]. done.
    - intros [Hlookup Hentry]. exists (keyOf entry, count entry).
      split; [done|]. by apply range_elem_of. }
  assert (NoDup (keyOf <$> entries)) as Hnodup.
  { assert (keyOf <$> entries = (range line 0 counts).*1) as ->; [|apply range_NoDup_keys].
    unfold entries.
    assert (∀ l : list (string * Z),
              Forall (fun kv => counts !! kv.1 = Some kv.2) l →
              keyOf <$> map (fun '(key, c) => mk key c) l = l.*1) as Hkeys.
    { induction 1 as [|[key c] l Hkv _ IH]; [done|]. simpl in *.
      destruct (Hmk _ _ Hkv) as [-> _]. f_equal. apply IH. }
    apply Hkeys, Forall_forall. intros [key c]. apply range_elem_of. }
  assert (length entries = size counts) as Hlen
    by (unfold entries; by rewrite length_map, range_length).
  pose proof (top_five count sorted (sort_Slice_descending _ _)) as Hfive.
  cbv zeta in Hfive.
  change (if (5 <? length sorted)%nat then take 5 sorted else sorted) with top in Hfive.
  destruct Hfive as (Htop & Htoplen & Hsorted & Hbest).
  assert (∀ entry, entry ∈ top → entry ∈ entries) as Hin.
  { intros entry Hentry. rewrite <- Hperm, <- (take_drop 5 sorted), <- Htop.
    apply elem_of_app. by left. }
  split; [by rewrite Htoplen, Hperm, Hlen|]. split; [|split; [|split; [done|]]].
  - rewrite <- Hperm, <- (take_drop 5 sorted), fmap_app in Hnodup.
    apply NoDup_app in Hnodup as [Hnodup _]. by rewrite Htop.
  - apply Forall_forall. intros entry Hentry%Hin%Hentries. done.
  - intros key c Hlookup Hnot. apply Forall_forall. intros entry Hentry.
    destruct (Hmk _ _ Hlookup) as [Hkey Hcount].
    rewrite <- Hcount. apply (Hbest entry (mk key c) Hentry).
    + rewrite Hperm. apply Hentries. by rewrite Hkey, Hcount.
    + intros Habs. apply Hnot. apply list_elem_of_fmap.
      exists (mk key c). by split.
Qed.

(** X22.  [MostFrequentActivities] holds five entries, or one per
    description when the log has fewer than five; no description is listed
    twice; the count of an entry is the number of events of the whole log that
    bear its description; the entries are in descending order of count; and no
    description left out occurs more often than a listed one.  This holds
    whatever the order in which the maps are visited and however
    [sort.Slice] orders entries of equal count. *)
Theorem most_frequent_activities_are_the_top_five `{Host} `{Sorter}
    (instances : gmap string ProcessInstance) :
  let all := flat_map (fun kv => metrics.Events kv.2) (map_to_list instances) in
  let top := MostFrequentActivities instances in
  length top = (5 `min` size (list_to_set (Description <$> all) : gset string))%nat
  ∧ NoDup (ActivityCount.Activity <$> top)
  ∧ Forall (fun entry =>
              ActivityCount.Count entry = Z.of_nat (timesIn (ActivityCount.Activity entry) all)
              ∧ 1 ≤ ActivityCount.Count entry) top
  ∧ StronglySorted (fun a b => ActivityCount.Count b ≤ ActivityCount.Count a) top
  ∧ ∀ desc, desc ∈ Description <$> all → desc ∉ ActivityCount.Activity <$> top →
      Forall (fun entry => Z.of_nat (timesIn desc all) ≤ ActivityCount.Count entry) top.
Proof.
  intros all top.
  destruct (top_five_of_counts
              (fun activity count =>
                 {| ActivityCount.Activity := activity; ActivityCount.Count := count |})
              ActivityCount.Activity ActivityCount.Count (activityCounts instances) 247)
    as (Hlen & Hnodup & Hentries & Hsorted & Hbest); [done|].
  change (if (5 <? length _)%nat then _ else _) with top in *.
  assert (size (activityCounts instances)
          = size (list_to_set (Description <$> all) : gset string)) as Hsize.
  { rewrite <- size_dom. f_equal. apply set_eq. intros desc.
    rewrite elem_of_dom, elem_of_list_to_set, activityCounts_lookup.
    fold all. rewrite <- timesIn_pos.
    destruct (decide (timesIn desc all = 0%nat)) as [->|Hpos].
    - split; [by intros []|lia].
    - split; [lia|by eexists]. }
  split; [by rewrite Hlen, Hsize|]. split; [done|]. split; [|split; [done|]].
  - eapply Forall_impl; [exact Hentries|]. intros entry [Hlookup _].
    rewrite activityCounts_lookup in Hlookup. fold all in Hlookup.
    destruct (decide _); [done|]. injection Hlookup as <-. split; [done|lia].
  - intros desc Hdesc%timesIn_pos Hnot. apply (Hbest desc); [|done].
    rewrite activityCounts_lookup. fold all. by rewrite decide_False by lia.
Qed.

Lemma timesPath_snoc key paths path :
  timesPath key (paths ++ [path])
  = (timesPath key paths + if decide (pathKey path = key) then 1 else 0)%nat.
Proof.
  unfold timesPath. rewrite filter_app, length_app, filter_cons, filter_nil.
  by destruct (decide _).
Qed.

Lemma timesPath_perm key paths1 paths2 :
  paths1 ≡ₚ paths2 → timesPath key paths1 = timesPath key paths2.
Proof. intros Hperm. unfold timesPath. by rewrite Hperm. Qed.

Lemma timesPath_pos key paths :
  (0 < timesPath key paths)%nat ↔ key ∈ pathKey <$> paths.
Proof.
  unfold timesPath. rewrite list_elem_of_fmap. split.
  - destruct (filter _ paths) as [|path rest] eqn:Hfilter; simpl; [lia|]. intros _.
    assert (path ∈ filter (fun p => pathKey p = key) paths) as Hin
      by (rewrite Hfilter; apply list_elem_of_here).
    apply list_elem_of_filter in Hin as [Hkey Hin]. by exists path.
  - intros (path & -> & Hin).
    assert (path ∈ filter (fun p => pathKey p = pathKey path) paths) as Hfilter
      by by apply list_elem_of_filter.
    destruct (filter _ paths); [by apply elem_of_nil in Hfilter|simpl; lia].
Qed.

Lemma stepPaths_lookup paths key :
  (fold_left stepPath paths (∅, ∅)).1 !! key
  = (if decide (timesPath key paths = 0%nat) then None
     else Some (Z.of_nat (timesPath key paths)))
  ∧ (timesPath key paths ≠ 0%nat →
     ∃ path, (fold_left stepPath paths (∅, ∅)).2 !! key = Some path
             ∧ pathKey path = key ∧ path ∈ paths).
Proof.
  induction paths as [|path paths IH] using rev_ind; [done|].
  rewrite fold_left_app, timesPath_snoc. cbn [fold_left].
  destruct IH as [IHcounts IHmap].
  destruct (fold_left stepPath paths (∅, ∅)) as [counts pathMap].
  unfold stepPath. cbn [fst snd] in *.
  destruct (decide (pathKey path = key)) as [Hkey|Hkey].
  - rewrite Hkey, !lookup_insert_eq, IHcounts. split.
    + destruct (decide (timesPath key paths = 0%nat)) as [->|Hpos].
      * by rewrite decide_False by lia.
      * rewrite decide_False by lia. simpl. f_equal. lia.
    + intros _. exists path. split; [done|]. split; [done|].
      apply elem_of_app. right. apply list_elem_of_here.
  - rewrite !lookup_insert_ne by done. rewrite Nat.add_0_r. split; [done|].
    intros Hpos. destruct (IHmap Hpos) as (path' & ? & ? & ?).
    exists path'. split; [done|]. split; [done|]. apply elem_of_app. by left.
Qed.

Section path_facts.
Context `{Host} `{Sorter}.

Lemma pathCounts_fold (l : list (string * ProcessInstance)) st :
  fold_left (fun st '(_, instance) => countPath st instance) l st
  = fold_left stepPath (nonEmptyPaths l) st.
Proof.
  revert st. induction l as [|[key instance] l IH]; intros st; simpl; [done|].
  rewrite IH, fold_left_app. unfold countPath. by destruct (_ <? _)%nat.
Qed.

Lemma nonEmptyPaths_range line visit instances :
  nonEmptyPaths (range line visit instances) ≡ₚ nonEmptyPaths (map_to_list instances).
Proof. apply Permutation_flat_map, range_perm. Qed.

End path_facts.

(** X23.  [MostFrequentPaths] holds five entries, or one per printed path
    when there are fewer than five, instances without events being skipped.
    Paths are grouped by their [%v] print: no print is listed twice, the path
    of an entry is the path of some instance, its count is the number of
    instances whose path prints the same, the entries are in descending order
    of count, and no path left out is more frequent than a listed one. *)
Theorem most_frequent_paths_are_the_top_five `{Host} `{Sorter}
    (instances : gmap string ProcessInstance) :
  let paths := nonEmptyPaths (map_to_list instances) in
  let top := MostFrequentPaths instances in
  length top = (5 `min` size (list_to_set (pathKey <$> paths) : gset string))%nat
  ∧ NoDup ((fun entry => pathKey (PathCount.Path entry)) <$> top)
  ∧ Forall (fun entry =>
              PathCount.Path entry ∈ paths
              ∧ PathCount.Count entry
                = Z.of_nat (timesPath (pathKey (PathCount.Path entry)) paths)
              ∧ 1 ≤ PathCount.Count entry) top
  ∧ StronglySorted (fun a b => PathCount.Count b ≤ PathCount.Count a) top
  ∧ ∀ path, path ∈ paths → pathKey path ∉ (fun entry => pathKey (PathCount.Path entry)) <$> top →
      Forall (fun entry => Z.of_nat (timesPath (pathKey path) paths) ≤ PathCount.Count entry)
             top.
Proof.
  intros paths top.
  set (visited := nonEmptyPaths (range 263 0 instances)).
  assert (visited ≡ₚ paths) as Hvisited by apply nonEmptyPaths_range.
  assert (pathCounts instances = fold_left stepPath visited (∅, ∅)) as Hcounts
    by apply pathCounts_fold.
  unfold top, MostFrequentPaths, sortedPaths.
  destruct (pathCounts instances) as [counts pathMap].
  assert (∀ key, counts !! key
                 = if decide (timesPath key paths = 0%nat) then None
                   else Some (Z.of_nat (timesPath key paths))) as Hlookup.
  { intros key. destruct (stepPaths_lookup visited key) as [Hc _].
    rewrite <- Hcounts in Hc. simpl in Hc.
    by rewrite (timesPath_perm key _ _ Hvisited) in Hc. }
  assert (∀ key, timesPath key paths ≠ 0%nat →
                 ∃ path, pathMap !! key = Some path ∧ pathKey path = key ∧ path ∈ paths)
    as Hpath.
  { intros key Hpos. destruct (stepPaths_lookup visited key) as [_ Hm].
    rewrite <- Hcounts in Hm. simpl in Hm.
    rewrite (timesPath_perm key _ _ Hvisited) in Hm.
    destruct (Hm Hpos) as (path & ? & ? & Hin). exists path.
    split; [done|]. split; [done|]. by rewrite <- Hvisited. }
  destruct (top_five_of_counts
              (fun key count =>
                 {| PathCount.Path := default [] (pathMap !! key); PathCount.Count := count |})
              (fun entry => pathKey (PathCount.Path entry)) PathCount.Count counts 276)
    as (Hlen & Hnodup & Hentries & Hsorted & Hbest).
  { intros key c Hc. rewrite Hlookup in Hc. destruct (decide _) as [|Hpos]; [done|].
    destruct (Hpath key Hpos) as (path & -> & Hkey & _). by split. }
  cbv zeta.
  assert (size counts = size (list_to_set (pathKey <$> paths) : gset string)) as Hsize.
  { rewrite <- size_dom. f_equal. apply set_eq. intros key.
    rewrite elem_of_dom, elem_of_list_to_set, Hlookup, <- timesPath_pos.
    destruct (decide (timesPath key paths = 0%nat)) as [->|Hpos].
    - split; [by intros []|lia].
    - split; [lia|by eexists]. }
  split; [by rewrite Hlen, Hsize|]. split; [done|]. split; [|split; [done|]].
  - eapply Forall_impl; [exact Hentries|]. intros entry [Hc Hentry].
    rewrite Hlookup in Hc. destruct (decide _) as [|Hpos]; [done|].
    injection Hc as Hc. destruct (Hpath _ Hpos) as (path & Hmap & Hkey & Hin).
    split; [|split; [done|lia]].
    rewrite Hentry. simpl. by rewrite Hmap.
  - intros path Hin Hnot. apply (Hbest (pathKey path)); [|done].
    rewrite Hlookup, decide_False; [done|].
    assert (0 < timesPath (pathKey path) paths)%nat; [|lia].
    apply timesPath_pos, list_elem_of_fmap. by exists path.
Qed.
